(** * MOSFiT [Printer]: a shallow embedding of [mosfit/printer.py]

    The console front end of MOSFiT: colour markers, message catalogue
    lookup, interactive prompts, the live status line with its heat map
    widget, and the module dependency tree.

    Python values are modelled as follows.
    - [str] is a sequence of Unicode code points ([list N]), so that
      slicing, reversal and counting agree with Python 3.
    - [float] is IEEE 754 binary64, Rocq's primitive [float]; a comparison
      with NaN is false, as in Python.
    - a [dict] with string keys is a [gmap]; a dict whose iteration order
      is observable is an association list.
    - exceptions and terminal output are carried by the monad [io].
    Helpers imported from [mosfit.utils], [textwrap], [numpy] and the
    message catalogue [strings.json] are not part of the printer; they are
    section variables of the sections that use them. Of [textwrap.fill]
    the variable is the text it returns; that it raises [ValueError] for
    a width that is not above zero is written out in [textwrap_fill].

    The template class [SED] of [mosfit/modules/seds/sed.py] is embedded
    as well: its wavelengths, frequencies and sums of SEDs. *)

From Stdlib Require Import ZArith NArith List Ascii String Floats Lia Bool.
From Stdlib Require Import DecimalString.
From stdpp Require Import base gmap list.
Import ListNotations.

#[local] Set Warnings "-inexact-float,-register-all".
#[local] Open Scope bool_scope.

(** ** Strings *)

Abbreviation char := N (only parsing).
Abbreviation str := (list N) (only parsing).

(** String literals are written in UTF-8 and decoded to code points. *)
Fixpoint utf8_decode (bs : list N) : str :=
  match bs with
  | [] => []
  | b :: r =>
    if (b <? 128)%N then b :: utf8_decode r
    else if (b <? 224)%N then
      match r with
      | c1 :: r1 => ((b - 192) * 64 + (c1 - 128))%N :: utf8_decode r1
      | _ => []
      end
    else if (b <? 240)%N then
      match r with
      | c1 :: c2 :: r2 =>
        ((b - 224) * 4096 + (c1 - 128) * 64 + (c2 - 128))%N :: utf8_decode r2
      | _ => []
      end
    else
      match r with
      | c1 :: c2 :: c3 :: r3 =>
        ((b - 240) * 262144 + (c1 - 128) * 4096 + (c2 - 128) * 64
         + (c3 - 128))%N :: utf8_decode r3
      | _ => []
      end
  end.

Definition u (s : string) : str :=
  utf8_decode (List.map N_of_ascii (list_ascii_of_string s)).

Definition chr_eqb (a b : char) : bool := (a =? b)%N.

Fixpoint str_eqb (a b : str) : bool :=
  match a, b with
  | [], [] => true
  | x :: a', y :: b' => chr_eqb x y && str_eqb a' b'
  | _, _ => false
  end.

(** [c in chars] for a character and [s in l] for a string and a list. *)
Definition chr_in (c : char) (chars : str) : bool := existsb (chr_eqb c) chars.
Definition str_in (s : str) (l : list str) : bool := existsb (str_eqb s) l.

(** [s.startswith(p)] *)
Fixpoint startswith (p s : str) : bool :=
  match p, s with
  | [], _ => true
  | a :: p', b :: s' => chr_eqb a b && startswith p' s'
  | _ :: _, [] => false
  end.

(** The optional [count] of [str.replace]: [None] is no limit. *)
Definition count_left (count : option nat) : bool :=
  match count with Some O => false | _ => true end.
Definition count_dec (count : option nat) : option nat :=
  match count with Some (S n) => Some n | c => c end.

(** [s.replace(old, new, count)] for a non-empty [old]: a scan from the
    left over non-overlapping occurrences; [skip] characters of a matched
    occurrence are still to be dropped. *)
Fixpoint replace_from (old new : str) (count : option nat) (skip : nat)
    (s : str) : str :=
  match s with
  | [] => []
  | c :: s' =>
    match skip with
    | S k => replace_from old new count k s'
    | O =>
      if count_left count && startswith old s
      then new ++ replace_from old new (count_dec count) (length old - 1) s'
      else c :: replace_from old new count 0 s'
    end
  end.

(** [s.replace('', new, count)]: the empty string occurs before every
    character and at the end. *)
Fixpoint replace_empty (new : str) (count : option nat) (s : str) : str :=
  if count_left count then
    match s with
    | [] => new
    | c :: s' => new ++ c :: replace_empty new (count_dec count) s'
    end
  else s.

Definition replace_n (old new : str) (count : option nat) (s : str) : str :=
  match old with
  | [] => replace_empty new count s
  | _ :: _ => replace_from old new count 0 s
  end.

Definition replace (old new s : str) : str := replace_n old new None s.

(** [s.count(sub)] *)
Fixpoint count_from (sub : str) (skip : nat) (s : str) : nat :=
  match s with
  | [] => 0
  | _ :: s' =>
    match skip with
    | S k => count_from sub k s'
    | O =>
      if startswith sub s then S (count_from sub (length sub - 1) s')
      else count_from sub 0 s'
    end
  end.

Definition count (sub s : str) : nat :=
  match sub with
  | [] => S (length s)
  | _ :: _ => count_from sub 0 s
  end.

(** [s.split(sep)] for a non-empty separator; [cur] is the piece being
    read, most recent character first. *)
Fixpoint split_from (sep : str) (skip : nat) (cur : str) (s : str)
    : list str :=
  match s with
  | [] => [rev cur]
  | c :: s' =>
    match skip with
    | S k => split_from sep k cur s'
    | O =>
      if startswith sep s
      then rev cur :: split_from sep (length sep - 1) [] s'
      else split_from sep 0 (c :: cur) s'
    end
  end.

Definition split (sep s : str) : list str := split_from sep 0 [] s.

(** [sep.join(l)] *)
Fixpoint join (sep : str) (l : list str) : str :=
  match l with
  | [] => []
  | x :: r =>
    match r with
    | [] => x
    | _ :: _ => x ++ sep ++ join sep r
    end
  end.

(** [str.isspace] of one character: the Unicode white space. *)
Definition isspace (c : char) : bool :=
  ((9 <=? c) && (c <=? 13) || (28 <=? c) && (c <=? 32) || (c =? 133)
   || (c =? 160) || (c =? 5760) || (8192 <=? c) && (c <=? 8202)
   || (c =? 8232) || (c =? 8233) || (c =? 8239) || (c =? 8287)
   || (c =? 12288))%N.

Fixpoint lstrip_by (p : char -> bool) (s : str) : str :=
  match s with
  | [] => []
  | c :: s' => if p c then lstrip_by p s' else s
  end.

Definition rstrip_by (p : char -> bool) (s : str) : str :=
  rev (lstrip_by p (rev s)).

(** [s.rstrip()], [s.strip()] and [s.strip(chars)] *)
Definition rstrip (s : str) : str := rstrip_by isspace s.
Definition strip (s : str) : str := rstrip_by isspace (lstrip_by isspace s).
Definition strip_chars (chars s : str) : str :=
  rstrip_by (fun c => chr_in c chars) (lstrip_by (fun c => chr_in c chars) s).

(** The line boundaries of [str.splitlines]. *)
Definition is_linebreak (c : char) : bool :=
  ((10 <=? c) && (c <=? 13) || (28 <=? c) && (c <=? 30) || (c =? 133)
   || (c =? 8232) || (c =? 8233))%N.

(** [s.splitlines()]: a carriage return followed by a line feed is one
    boundary, and a final boundary opens no empty last line. *)
Fixpoint splitlines_from (cur : str) (s : str) : list str :=
  match s with
  | [] => match cur with [] => [] | _ :: _ => [rev cur] end
  | c :: s' =>
    if is_linebreak c then
      rev cur ::
      match s' with
      | d :: s'' =>
        if chr_eqb c 13 && chr_eqb d 10 then splitlines_from [] s''
        else splitlines_from [] s'
      | [] => splitlines_from [] s'
      end
    else splitlines_from (c :: cur) s'
  end.

Definition splitlines (s : str) : list str := splitlines_from [] s.

Definition spaces (n : nat) : str := repeat 32%N n.

(** [s.center(width)]: CPython puts the odd blank on the left when the
    width is odd and on the right when it is even. *)
Definition center (s : str) (width : Z) : str :=
  let len := Z.of_nat (length s) in
  if (width <=? len)%Z then s
  else
    let marg := (width - len)%Z in
    let left := (marg / 2 + Z.land (Z.land marg width) 1)%Z in
    spaces (Z.to_nat left) ++ s ++ spaces (Z.to_nat (marg - left)).

(** [str(n)] for an integer. *)
Definition str_of_Z (z : Z) : str := u (NilZero.string_of_int (Z.to_int z)).
Definition str_of_nat (n : nat) : str := str_of_Z (Z.of_nat n).

(** [s[i:]] *)
Definition slice_from (i : nat) (s : str) : str := drop i s.

(** ** Floats *)

Definition isnan (x : float) : bool := PrimFloat.is_nan x.
Definition isfinite (x : float) : bool := PrimFloat.is_finite x.

(** [x != y] on floats: true as soon as one side is NaN. *)
Definition float_ne (x y : float) : bool := negb (x =? y)%float.

(** ** Exceptions and terminal output *)

Inductive exn :=
| ValueError (msg : str)
| KeyError (key : str)
| IndexError
| TypeError
| AttributeError
| OverflowError
(** a construct of [str.format] outside the modelled fragment *)
| Unsupported.

Abbreviation result A := (exn + A)%type (only parsing).

Definition ok {A} (x : A) : result A := inr x.
Definition err {A} (e : exn) : result A := inl e.

(** What the process does to the terminal: text written to standard
    output, and a line read from standard input after showing a prompt. *)
Inductive event :=
| Stdout (data : str)
| Stdin (shown : str).

(** A computation writes a trace of events and then returns a value or
    raises; what was written before a raise stays written. *)
Definition io (A : Type) : Type := (list event * (exn + A))%type.

#[global] Instance io_ret : MRet io := fun A x => ([], inr x).

#[global] Instance io_bind : MBind io := fun A B f m =>
  match m with
  | (t, inl e) => (t, inl e)
  | (t, inr x) => let '(t', r) := f x in (t ++ t', r)
  end.

Definition raise {A} (e : exn) : io A := ([], inl e).
Definition emit (ev : event) : io unit := ([ev], inr tt).
Definition lift {A} (r : result A) : io A := ([], r).

(** [for x in l: body x] *)
Fixpoint for_each {A} (l : list A) (body : A -> io unit) : io unit :=
  match l with
  | [] => mret tt
  | x :: r => _ ← body x; for_each r body
  end.

(** [[f(x) for x in l]] where [f] may raise. *)
Fixpoint map_result {A B} (f : A -> result B) (l : list A)
    : result (list B) :=
  match l with
  | [] => ok []
  | x :: r =>
    match f x with
    | inl e => err e
    | inr y =>
      match map_result f r with
      | inl e => err e
      | inr ys => ok (y :: ys)
      end
    end
  end.

Definition write (data : str) : io unit := emit (Stdout data).

(** [print(line, flush=True)] *)
Definition print (line : str) : io unit := write (line ++ [10%N]).

(** ** [Printer.ansi]: the colour markers *)

Definition ESC : char := 27%N.

Module ansi.

Definition BLUE : str := Eval vm_compute in ESC :: u "[0;94m".
Definition BOLD : str := Eval vm_compute in ESC :: u "[0;1m".
Definition CYAN : str := Eval vm_compute in ESC :: u "[0;96m".
Definition END : str := Eval vm_compute in ESC :: u "[0m".
Definition GREEN : str := Eval vm_compute in ESC :: u "[0;92m".
Definition HEADER : str := Eval vm_compute in ESC :: u "[0;95m".
Definition MAGENTA : str := Eval vm_compute in ESC :: u "[1;35m".
Definition ORANGE : str := Eval vm_compute in ESC :: u "[38;5;214m".
Definition RED : str := Eval vm_compute in ESC :: u "[0;91m".
Definition UNDERLINE : str := Eval vm_compute in ESC :: u "[4m".
Definition YELLOW : str := Eval vm_compute in ESC :: u "[0;93m".

(** The dict [codes], in the order it is written and iterated. *)
Definition codes : list (str * str) := Eval vm_compute in
  [ (u "!b", BLUE); (u "!c", CYAN); (u "!e", END); (u "!g", GREEN);
    (u "!m", MAGENTA); (u "!o", ORANGE); (u "!r", RED);
    (u "!u", UNDERLINE); (u "!y", YELLOW) ].

End ansi.

(** [Printer.colorify]: every marker is replaced in turn, over the whole
    text, by its escape sequence. *)
Definition colorify (text : str) : str :=
  fold_left (fun output code => replace (fst code) (snd code) output)
            ansi.codes text.

(** ** The printer and the fitter it reports on *)

(** The attributes of the fitter that the printer reads. *)
Record Fitter := {
  _event_name : str;
  _emcee_est_t : float;
  _bh_est_t : float;
  _fracking : bool;
  _test : bool
}.

(** [_pool] is [None] without a pool, and otherwise what the pool's
    [is_master()] answers. [_strings] is the message catalogue. *)
Record Printer := {
  _wrap_length : Z;
  _quiet : bool;
  _pool : option bool;
  _fitter : option Fitter;
  _strings : gmap (list N) (list N)
}.

(** The keyword arguments shared by [_lines], [prt], [string] and
    [message], with the defaults of [_lines]. *)
Record kwargs := {
  kw_colorify : bool;
  kw_center : bool;
  kw_width : option Z;
  kw_warning : bool;
  kw_error : bool;
  kw_prefix : bool;
  kw_color : str;
  kw_inline : bool;
  kw_wrap_length : option Z;
  kw_wrapped : bool;
  kw_master_only : bool
}.

Definition kw_default : kwargs := {|
  kw_colorify := false; kw_center := false; kw_width := None;
  kw_warning := false; kw_error := false; kw_prefix := true;
  kw_color := []; kw_inline := false; kw_wrap_length := None;
  kw_wrapped := false; kw_master_only := true |}.

(** [d[key]] on the catalogue. *)
Definition getitem (d : gmap (list N) (list N)) (key : str) : result str :=
  match d !! key with
  | Some v => ok v
  | None => err (KeyError key)
  end.

(** [d.get(key, default)] *)
Definition dict_get (d : gmap (list N) (list N)) (key default : str) : str :=
  match d !! key with
  | Some v => v
  | None => default
  end.

(** The value of an [int] option such as [wrap_length]: [None] and [0]
    are false. *)
Definition truthy (z : option Z) : bool :=
  match z with
  | Some v => negb (v =? 0)%Z
  | None => false
  end.

(** [rline.encode('ascii', 'replace').decode()] *)
Definition ascii_replace (s : str) : str :=
  List.map (fun c => if (c <? 128)%N then c else 63%N) s.

(** ** [str.format] with positional arguments

    The arguments are given by their [str()]. Replacement fields are
    [{}] and [{N}]; a name is looked up among the keyword arguments, of
    which there are none; a field with an attribute, an index, a
    conversion or a format specification is outside the model. *)

Inductive numbering := NumNone | NumAuto (next : nat) | NumManual.

Inductive fmt_state := FText | FOpen | FField (name : str) | FClose.

Definition is_digit (c : char) : bool := ((48 <=? c) && (c <=? 57))%N.

Definition digits_value (s : str) : nat :=
  fold_left (fun acc c => 10 * acc + N.to_nat (c - 48)%N) s 0.

Definition cons_ok (c : char) (r : result str) : result str :=
  match r with
  | inr t => ok (c :: t)
  | inl e => err e
  end.

Definition app_ok (s : str) (r : result str) : result str :=
  match r with
  | inr t => ok (s ++ t)
  | inl e => err e
  end.

(** The argument a field names and the numbering after it. *)
Definition field_value (args : list str) (num : numbering) (name : str)
    : result (str * numbering) :=
  match name with
  | [] =>
    match num with
    | NumManual => err (ValueError (u
        "cannot switch from manual field specification to automatic field numbering"))
    | NumNone =>
      match args !! 0 with
      | Some a => ok (a, NumAuto 1)
      | None => err IndexError
      end
    | NumAuto n =>
      match args !! n with
      | Some a => ok (a, NumAuto (S n))
      | None => err IndexError
      end
    end
  | _ :: _ =>
    if forallb is_digit name then
      match num with
      | NumAuto _ => err (ValueError (u
          "cannot switch from automatic field numbering to manual field specification"))
      | _ =>
        match args !! digits_value name with
        | Some a => ok (a, NumManual)
        | None => err IndexError
        end
      end
    else if existsb (fun c => chr_in c (u ".[!:")) name then err Unsupported
    else err (KeyError name)
  end.

Fixpoint format_from (args : list str) (num : numbering) (st : fmt_state)
    (s : str) : result str :=
  match s with
  | [] =>
    match st with
    | FText => ok []
    | FOpen => err (ValueError (u "Single '{' encountered in format string"))
    | FField _ => err (ValueError (u "expected '}' before end of string"))
    | FClose => err (ValueError (u "Single '}' encountered in format string"))
    end
  | c :: s' =>
    match st with
    | FText =>
      if chr_eqb c 123 then format_from args num FOpen s'
      else if chr_eqb c 125 then format_from args num FClose s'
      else cons_ok c (format_from args num FText s')
    | FOpen =>
      if chr_eqb c 123 then cons_ok c (format_from args num FText s')
      else if chr_eqb c 125 then
        match field_value args num [] with
        | inl e => err e
        | inr (a, num') => app_ok a (format_from args num' FText s')
        end
      else format_from args num (FField [c]) s'
    | FField name =>
      if chr_eqb c 125 then
        match field_value args num name with
        | inl e => err e
        | inr (a, num') => app_ok a (format_from args num' FText s')
        end
      else if chr_eqb c 123 then err Unsupported
      else format_from args num (FField (name ++ [c])) s'
    | FClose =>
      if chr_eqb c 125 then cons_ok c (format_from args num FText s')
      else err (ValueError (u "Single '}' encountered in format string"))
    end
  end.

(** [template.format( *args )] *)
Definition format (template : str) (args : list str) : result str :=
  format_from args NumNone FText template.

#[global] Instance result_ret : MRet (sum exn) := fun A x => inr x.

#[global] Instance result_bind : MBind (sum exn) := fun A B f m =>
  match m with
  | inl e => inl e
  | inr x => f x
  end.

(** [l[i]] *)
Definition item {A} (l : list A) (i : nat) : result A :=
  match l !! i with
  | Some x => ok x
  | None => err IndexError
  end.

(** ** Numbers in the status line *)

(** [min(x)] and [max(x)] of a list: the first of the least (greatest)
    items as [<] ([>]) sees them. *)
Definition py_min (l : list float) : result float :=
  match l with
  | [] => err (ValueError (u "min() arg is an empty sequence"))
  | x :: r => ok (fold_left (fun cur y => if (y <? cur)%float then y else cur) r x)
  end.

Definition py_max (l : list float) : result float :=
  match l with
  | [] => err (ValueError (u "max() arg is an empty sequence"))
  | x :: r => ok (fold_left (fun cur y => if (cur <? y)%float then y else cur) r x)
  end.

(** [n / d] rounded to the nearest integer, a tie to the even one. *)
Definition round_half_even (n d : Z) : Z :=
  let q := (n / d)%Z in
  let r := (n mod d)%Z in
  if (d <? 2 * r)%Z || ((2 * r =? d)%Z && Z.odd q) then (q + 1)%Z else q.

(** [int(round(t))] in Python 3. *)
Definition py_round (t : float) : result Z :=
  match Prim2SF t with
  | S754_nan => err (ValueError (u "cannot convert float NaN to integer"))
  | S754_infinity _ => err OverflowError
  | S754_zero _ => ok 0%Z
  | S754_finite s m e =>
    let mag := if (0 <=? e)%Z then (Z.pos m * 2 ^ e)%Z
               else round_half_even (Z.pos m) (2 ^ (- e)) in
    ok (if s then (- mag)%Z else mag)
  end.

(** ["%02d" % n] for a natural number. *)
Definition two_digits (n : Z) : str :=
  if (n <? 10)%Z then 48%N :: str_of_Z n else str_of_Z n.

(** [str(datetime.timedelta(seconds=n))]: days are split off, also from
    a negative duration, and shown only when there are any. *)
Definition timedelta_str (n : Z) : result str :=
  let days := (n / 86400)%Z in
  let secs := (n mod 86400)%Z in
  if (999999999 <? Z.abs days)%Z then err OverflowError
  else
    let mm := (secs / 60)%Z in
    let ss := (secs mod 60)%Z in
    let hh := (mm / 60)%Z in
    let mm := (mm mod 60)%Z in
    let s := str_of_Z hh ++ u ":" ++ two_digits mm ++ u ":" ++ two_digits ss in
    ok (if (days =? 0)%Z then s
        else str_of_Z days ++ u " day"
             ++ (if (Z.abs days =? 1)%Z then [] else u "s") ++ u ", " ++ s).

(** [Printer.ascii_fill]: the glyph of a heat map cell. [pers] holds the
    three percentile thresholds. *)
Definition ascii_fill (value : float) (pers : list float) : result str :=
  below0 ← (if isnan value then ok true
            else p ← item pers 0; ok (value <? p)%float);
  if below0 : bool then ok (u " ")
  else
    below1 ← (if isnan value then ok true
              else p ← item pers 1; ok (value <? p)%float);
    if below1 : bool then ok (u ".")
    else
      p ← item pers 2;
      if (value <? p)%float then ok (u "*") else ok (u "#").

(** ** Packing the status segments into lines *)

(** One turn of the loop over [outarr]: the state is [line], [lines] and
    [li]; [width] is [self._wrap_length - kmat_extra]. *)
Definition pack_step (width : Z) (st : str * str * nat) (item : str)
    : str * str * nat :=
  let '(line, lines, li) := st in
  let oldline := line in
  let line := line ++ (if 0 <? li then u " | " else []) ++ item in
  let li := li + 1 in
  if (width <? Z.of_nat (length line))%Z
  then (item, lines ++ [10%N] ++ oldline, 1)
  else (line, lines, li).

Definition status_pack (width : Z) (outarr : list str) : str :=
  let '(line, lines, _) := fold_left (pack_step width) outarr ([], [], 0) in
  lines ++ [10%N] ++ line.

(** ** The dependency tree *)

(** A nested dict of module names, in insertion order. *)
Inductive module_tree := Node (children : list (str * module_tree)).

Definition hex_digit (n : N) : char :=
  if (n <? 10)%N then (48 + n)%N else (87 + n)%N.

(** ['\\u{0:04x}'.format(n)] *)
Definition u_escape (n : N) : str :=
  u "\u" ++ [ hex_digit (n / 4096 mod 16); hex_digit (n / 256 mod 16);
              hex_digit (n / 16 mod 16); hex_digit (n mod 16) ]%N.

(** [json.encoder.py_encode_basestring_ascii], one character. *)
Definition json_escape_char (c : char) : str :=
  if chr_eqb c 92 then u "\\"
  else if chr_eqb c 34 then [92; 34]%N
  else if chr_eqb c 8 then u "\b"
  else if chr_eqb c 12 then u "\f"
  else if chr_eqb c 10 then u "\n"
  else if chr_eqb c 13 then u "\r"
  else if chr_eqb c 9 then u "\t"
  else if ((32 <=? c) && (c <=? 126))%N then [c]
  else if (c <? 65536)%N then u_escape c
  else
    let n := (c - 65536)%N in
    u_escape (N.lor 55296 (N.land (N.shiftr n 10) 1023))
    ++ u_escape (N.lor 56320 (N.land n 1023)).

Definition json_string (s : str) : str :=
  [34%N] ++ concat (List.map json_escape_char s) ++ [34%N].

Definition repeat_str (s : str) (n : nat) : str := concat (repeat s n).

(** [json.dumps(d, indent=indent, separators=('', ''))] for nested dicts:
    [level] is the current indent level. *)
Fixpoint json_dumps_dict (indent : str) (level : nat) (d : module_tree)
    : str :=
  match d with
  | Node [] => u "{}"
  | Node ((_ :: _) as items) =>
    let newline_indent := 10%N :: repeat_str indent (S level) in
    u "{" ++ newline_indent
    ++ join newline_indent
         (List.map (fun kv => json_string (fst kv)
                              ++ json_dumps_dict indent (S level) (snd kv))
                   items)
    ++ 10%N :: repeat_str indent level ++ u "}"
  end.

Definition BOX_H : char := 9472%N.      (* ─ *)
Definition BOX_V : char := 9474%N.      (* │ *)
Definition BOX_VR : char := 9500%N.     (* ├ *)
Definition BOX_UR : char := 9492%N.     (* └ *)

(** The first rewriting of one serialised line: a nested line gets its
    last connector turned into a branch and the others into bars; a root
    line loses its connector and gets a colon. *)
Definition branch_line (x : str) : str :=
  if startswith (u "─ ─") x then
    replace [BOX_H] [BOX_V]
      (rev (replace_n (u "─ ─") [BOX_VR] (Some 1) (rev x)))
  else replace (u "─ ") [] x ++ u ":".

(** The first loop over [lines]: a line with more bars than the next one
    ends a group of children. *)
Fixpoint close_groups (lines : list str) : list str :=
  match lines with
  | [] => []
  | line :: rest =>
    match rest with
    | [] => [line]
    | next :: _ =>
      (if count [BOX_V] next <? count [BOX_V] line
       then replace [BOX_VR] [BOX_UR] line else line)
      :: close_groups rest
    end
  end.

(** One character of a line, given the line below as already rewritten:
    a bar or branch above a blank becomes a blank or a corner. *)
Definition corner_char (below : str) (ci : nat) (x : char) : str :=
  if (Z.of_nat (length below) - 1 <? Z.of_nat ci)%Z
     || negb (chr_in x [BOX_V; BOX_VR])
     || negb (match below !! ci with
              | Some b => chr_eqb b 32
              | None => false
              end)
  then [x]
  else replace [BOX_VR] [BOX_UR] (replace [BOX_V] [32%N] [x]).

(** The second loop, from the last line upwards. *)
Fixpoint corners (lines : list str) : list str :=
  match lines with
  | [] => []
  | line :: rest =>
    match rest with
    | [] => [replace [BOX_VR] [BOX_UR] (replace [BOX_V] [32%N] line)]
    | _ :: _ =>
      let rest' := corners rest in
      let below := List.hd [] rest' in
      concat (imap (corner_char below) line) :: rest'
    end
  end.

(** The lines [tree] prints for one root and its subtree. *)
Definition tree_lines (root : str) (sub : module_tree) : list str :=
  let tree_str := json_dumps_dict (u "─ ") 0 (Node [(root, sub)]) in
  let tree_str :=
    List.filter (fun c => negb (chr_in c [123; 125; 34]%N)) tree_str in
  let tree_str :=
    join [10%N]
      (List.map rstrip
         (List.filter (fun x => negb (str_eqb (strip_chars (u "─ ") x) []))
                      (split [10%N] tree_str))) in
  let tree_str := join [10%N] (List.map branch_line (split [10%N] tree_str)) in
  let lines := List.map (fun x => u "  " ++ x) (split [10%N] tree_str) in
  corners (close_groups lines).

(** ** Writing lines: [_lines], [prt], [string], [message], [prompt] *)

(** What [prompt] returns: a [bool], a [str], or [None] when it falls
    off the end of the function. *)
Inductive prompt_value := PBool (b : bool) | PStr (s : str) | PNone.

Section Output.

(** The text that [textwrap.fill(text, width, replace_whitespace=...)]
    returns for a width above zero *)
Variable fill : str -> Z -> bool -> str.
(** [mosfit.utils.is_integer], on an [int] and on a [str], and [int] of a
    [str] that [is_integer] accepts *)
Variable is_integer : Z -> bool.
Variable is_integer_str : str -> bool.
Variable int_of_str : str -> Z.
(** [repr] of a [str] *)
Variable repr : str -> str.
(** whether standard output can encode a line; if not, [print] raises
    [UnicodeEncodeError] *)
Variable encodable : str -> bool.
(** [Printer.translate], which calls an external translation service *)
Variable translate : str -> str.

(** [textwrap.fill]: a width that is not above zero raises [ValueError],
    whatever the text, also the empty one. *)
Definition textwrap_fill (text : str) (width : Z) (replace_whitespace : bool)
    : result str :=
  if (width <=? 0)%Z then
    err (ValueError (u "invalid width " ++ str_of_Z width
                     ++ u " (must be > 0)"))
  else ok (fill text width replace_whitespace).

(** [Printer._lines] *)
Definition _lines (self : Printer) (text : str) (kw : kwargs)
    : result (list str) :=
  if _quiet self then ok []
  else if kw_master_only kw
          && match _pool self with Some m => negb m | None => false end
  then ok []
  else
    text ← (if kw_warning kw && kw_prefix kw then
              w ← getitem (_strings self) (u "warning");
              ok (u "!y" ++ w ++ u ": " ++ text ++ u "!e")
            else ok text);
    text ← (if kw_error kw && kw_prefix kw then
              w ← getitem (_strings self) (u "error");
              ok (u "!r" ++ w ++ u ": " ++ text ++ u "!e")
            else ok text);
    let text := match kw_color kw with
                | [] => text
                | _ :: _ => kw_color kw ++ text ++ u "!e"
                end in
    let tspl := splitlines (text ++ [10%N]) in
    if kw_wrapped kw then
      let wrap_length :=
        match kw_wrap_length kw with
        | Some w =>
          if negb (truthy (Some w)) || negb (is_integer w)
          then _wrap_length self else w
        | None => _wrap_length self
        end in
      ntspl ← map_result (fun line =>
                 filled ← textwrap_fill line wrap_length true;
                 ok (splitlines filled)) tspl;
      ok (concat ntspl)
    else ok tspl.

(** The centring of one line in [prt] and [string]: the width is widened
    by the characters that [repr] adds and by the [!] of the markers. *)
Definition center_line (kw : kwargs) (line rline : str) : result str :=
  if kw_center kw then
    let tlen := (Z.of_nat (length (repr rline)) - Z.of_nat (length line)
                 - Z.of_nat (count (u "!") line))%Z in
    match kw_width kw with
    | Some width => ok (center rline (width + tlen))
    | None => err TypeError
    end
  else ok rline.

(** [Printer.prt] *)
Definition prt (self : Printer) (text : str) (kw : kwargs) : io unit :=
  tspl ← lift (_lines self text kw);
  let colorify_ :=
    kw_colorify kw || kw_warning kw || kw_error kw
    || match kw_color kw with [] => false | _ :: _ => true end in
  let inline :=
    kw_inline kw
    && match _fitter self with Some f => negb (_test f) | None => true end in
  _ ← (if inline then
         for_each tspl (fun _ =>
           _ ← write (ESC :: u "[F"); write (ESC :: u "[K"))
       else mret tt);
  for_each tspl (fun line =>
    let rline := if colorify_ then colorify line else line in
    rline ← lift (center_line kw line rline);
    if encodable rline then print rline else print (ascii_replace rline)).

(** [Printer.string] *)
Definition string_ (self : Printer) (text : str) (kw : kwargs)
    : result str :=
  tspl ← _lines self text kw;
  lines ← map_result (fun line => center_line kw line line) tspl;
  ok (join [10%N] lines).

(** The text [message] prints: the catalogue entry, or the placeholder
    with one slot for each argument, formatted with the arguments. *)
Definition message_text (self : Printer) (name : str) (reps : list str)
    : result str :=
  let text :=
    match _strings self !! name with
    | Some t => t
    | None =>
      u "< Message not found ["
      ++ strip (join [] (List.map (fun _ => u "{} ") (seq 0 (length reps))))
      ++ u "] >"
    end in
  format text reps.

(** The defaults of [message]: [wrapped=True]. *)
Definition kw_message : kwargs := {|
  kw_colorify := false; kw_center := false; kw_width := None;
  kw_warning := false; kw_error := false; kw_prefix := true;
  kw_color := []; kw_inline := false; kw_wrap_length := None;
  kw_wrapped := true; kw_master_only := true |}.

(** [Printer.message]; of [kw] it passes on what [message] accepts. *)
Definition message (self : Printer) (name : str) (reps : list str)
    (kw : kwargs) : io unit :=
  text ← lift (message_text self name reps);
  prt self text {|
    kw_colorify := kw_colorify kw; kw_center := kw_center kw;
    kw_width := kw_width kw; kw_warning := kw_warning kw;
    kw_error := kw_error kw; kw_prefix := kw_prefix kw;
    kw_color := []; kw_inline := kw_inline kw; kw_wrap_length := None;
    kw_wrapped := kw_wrapped kw; kw_master_only := true |}.

(** The list of choices that [prompt] shows for a kind. *)
Definition prompt_choices (kind none_string : str)
    (options : option (list str)) : result str :=
  if str_eqb kind (u "bool") then ok (u " (y/[n])")
  else if str_eqb kind (u "select") then
    match options with
    | None => err TypeError
    | Some opts =>
      let n := length opts in
      let selpad := spaces (length (str_of_nat n)) in
      ok ([10%N] ++ join [10%N]
        (imap (fun i opt =>
           u " " ++ str_of_nat (i + 1) ++ u ". "
           ++ slice_from (length (str_of_nat (i + 1)) - 1) selpad ++ opt)
           opts
         ++ [ u "[n]." ++ selpad ++ none_string ++ [10%N]
              ++ u "Enter selection ("
              ++ (if 1 <? n then u "1-" else []) ++ str_of_nat n
              ++ u "/[n]):" ]))
    end
  else if str_eqb kind (u "string") then ok []
  else err (ValueError (u "Unknown prompt kind.")).

(** What [prompt] returns for the line the user typed. *)
Definition prompt_answer (kind : str) (options : option (list str))
    (user_input : str) : result prompt_value :=
  if str_eqb kind (u "bool") then
    ok (PBool (str_in user_input [u "Y"; u "y"; u "Yes"; u "yes"]))
  else if str_eqb kind (u "select") then
    match options with
    | None => err TypeError
    | Some opts =>
      if is_integer_str user_input
         && ((1 <=? int_of_str user_input)
             && (int_of_str user_input <=? Z.of_nat (length opts)))%Z
      then
        match opts !! Z.to_nat (int_of_str user_input - 1) with
        | Some o => ok (PStr o)
        | None => err IndexError
        end
      else ok (PBool false)
    end
  else if str_eqb kind (u "string") then ok (PStr user_input)
  else ok PNone.

(** [Printer.prompt]; [user_input] is the line that [input] reads. *)
Definition prompt (self : Printer) (text : str) (wrap_length : option Z)
    (kind none_string : str) (options : option (list str))
    (translate_ message_ : bool) (user_input : str) : io prompt_value :=
  let wl :=
    match wrap_length with
    | Some w =>
      if truthy (Some w) && is_integer w then w else _wrap_length self
    | None => _wrap_length self
    end in
  choices ← lift (prompt_choices kind none_string options);
  text ← (if message_ then
            lift (string_ self text {|
              kw_colorify := false; kw_center := false; kw_width := None;
              kw_warning := false; kw_error := false; kw_prefix := true;
              kw_color := []; kw_inline := false;
              kw_wrap_length := wrap_length;
              kw_wrapped := false; kw_master_only := true |})
          else mret text);
  let textchoices := text ++ choices in
  let textchoices :=
    if translate_ then translate textchoices else textchoices in
  let prompt_txt := split [10%N] textchoices in
  _ ← for_each (removelast prompt_txt) (fun txt =>
         ptxt ← lift (textwrap_fill txt wl false);
         prt self ptxt kw_default);
  shown ← lift (textwrap_fill (List.last prompt_txt []) wl false);
  _ ← emit (Stdin (shown ++ u " "));
  lift (prompt_answer kind options user_input).

(** [Printer.tree]: one call of [prt] for each root. *)
Definition tree (self : Printer) (my_tree : list (str * module_tree))
    : io unit :=
  for_each my_tree (fun kv =>
    prt self (join [10%N] (tree_lines (fst kv) (snd kv))) kw_default).

(** ** [Printer.status] *)

(** [mosfit.utils.pretty_num(x, sig)] and [calculate_WAIC(scores)] *)
Variable pretty_num : float -> nat -> str.
Variable calculate_WAIC : list (list float) -> float.
(** ['{:.0%}'.format(x)] *)
Variable format_percent : float -> str.
(** [congrid(kmat, (rows, cols), minusone=True, bounds_error=False)] of
    [mosfit.utils], and [np.log], [np.max], [np.percentile] *)
Variable congrid : list (list float) -> nat -> nat -> list (list float).
Variable np_log : list (list float) -> list (list float).
Variable np_max : list (list float) -> float.
Variable np_percentile : list (list float) -> Z -> float.

(** [Printer.get_timestring] *)
Definition get_timestring (self : Printer) (t : float) : result str :=
  n ← py_round t;
  td ← timedelta_str n;
  label ← getitem (_strings self) (u "estimated_time");
  ok (label ++ u ": [ " ++ td ++ u " ]").

(** The segment for [desc]. *)
Definition status_desc (self : Printer) (desc : str) : list str :=
  match desc with
  | [] => []
  | _ :: _ =>
    if str_eqb desc (u "burning")
    then [u "!o" ++ dict_get (_strings self) desc (u "?") ++ u "!e"]
    else [dict_get (_strings self) desc (u "?")]
  end.

Definition finite_or_nan (v : float) : str :=
  if negb (isnan v) && isfinite v then pretty_num v 4 else u "NaN".

(** The range of one chain of scores. *)
Definition score_range (x : list float) : result str :=
  if 1 <? length x then
    lo ← py_min x;
    hi ← py_max x;
    ok (join (u "...") [finite_or_nan lo; finite_or_nan hi])
  else
    v ← item x 0;
    ok (pretty_num v 4).

(** The segments for [scores]; [None] is a value that is not a list. *)
Definition status_scores (self : Printer)
    (scores : option (list (list float))) (fracking : bool)
    : result (list str) :=
  match scores with
  | None => ok []
  | Some sc =>
    label ← getitem (_strings self)
              (if fracking then u "fracking_scores" else u "score_ranges");
    ranges ← map_result score_range sc;
    let scorestring := label ++ u ": [ " ++ join (u ", ") ranges ++ u " ]" in
    ok (scorestring ::
        if fracking then []
        else [u "WAIC: " ++ pretty_num (calculate_WAIC sc) 4])
  end.

Definition accept_color (x : float) : str :=
  if (x <? 0.01)%float then u "!r"
  else if (x <? 0.1)%float then u "!y" else u "!g".

(** The segment for [accepts]. *)
Definition status_accepts (self : Printer) (accepts : option (list float))
    : result (list str) :=
  match accepts with
  | None => ok []
  | Some acc =>
    label ← getitem (_strings self) (u "moves_accepted");
    ok [label ++ u ": [ "
        ++ join (u ", ")
             (List.map (fun x => accept_color x ++ format_percent x ++ u "!e")
                       acc)
        ++ u " ]"]
  end.

(** The segment for [progress], a list of the current step and the total,
    which may be [None]. *)
Definition status_progress (self : Printer)
    (progress : option (Z * option Z)) : result (list str) :=
  match progress with
  | None => ok []
  | Some (current, total) =>
    label ← getitem (_strings self) (u "progress");
    match total with
    | Some t =>
      if truthy total
      then ok [label ++ u ": [ " ++ str_of_Z current ++ u "/" ++ str_of_Z t
               ++ u " ]"]
      else ok [label ++ u ": [ " ++ str_of_Z current ++ u " ]"]
    | None => ok [label ++ u ": [ " ++ str_of_Z current ++ u " ]"]
    end
  end.

(** The total of the time estimate, [tott]. *)
Definition status_tott (fitter : Fitter) : float :=
  if (0.0 <? _bh_est_t fitter)%float || negb (_fracking fitter)
  then (_emcee_est_t fitter + _bh_est_t fitter)%float
  else (2.0 * _emcee_est_t fitter)%float.

(** The segment for the time estimate. *)
Definition status_time (self : Printer) (fitter : Fitter)
    : result (list str) :=
  if (_emcee_est_t fitter <? 0.0)%float then
    s ← getitem (_strings self) (u "run_until_converged");
    ok [s]
  else if (0.0 <? _emcee_est_t fitter + _bh_est_t fitter)%float then
    timestring ← get_timestring self (status_tott fitter);
    ok [timestring]
  else ok [].

(** The colour of the autocorrelation segment, from [acor[1]]. *)
Definition acor_color (acorc : float) : str :=
  if (acorc <? 2.0)%float then u "!r"
  else if (acorc <? 5.0)%float then u "!y" else u "!g".

(** The segment for [acor], a list of three: the autocorrelation time,
    how many times it fits in the chain, and the burn-in index. *)
Definition status_acor (acor : option (float * float * Z)) : list str :=
  match acor with
  | None => []
  | Some (acor0, acor1, acor2) =>
    let acorcstr := pretty_num acor1 3 in
    if (acor0 <=? 0.0)%float then
      [u "!rChain too short for `acor` (" ++ acorcstr ++ u ")!e"]
    else
      let acortstr := pretty_num acor0 3 in
      let acorbstr := str_of_Z acor2 in
      let col := acor_color acor1 in
      [col ++ u "Acor Tau (i > " ++ acorbstr ++ u "): " ++ acortstr
       ++ u " (" ++ acorcstr ++ u "x)"
       ++ match col with [] => [] | _ :: _ => u "!e" end]
  end.

(** The colour of the PSRF segment, from [psrf[0]]. *)
Definition psrf_color (v : float) : str :=
  if (2.0 <? v)%float then u "!r"
  else if (1.2 <? v)%float then u "!y" else u "!g".

(** The segment for [psrf], a list of the value and the burn-in index. *)
Definition status_psrf (psrf : option (float * Z)) : list str :=
  match psrf with
  | None => []
  | Some (psrf0, psrf1) =>
    if float_ne psrf0 infinity then
      let psrfstr := pretty_num psrf0 4 in
      let psrfbstr := str_of_Z psrf1 in
      let col := psrf_color psrf0 in
      [col ++ u "PSRF (i > " ++ psrfbstr ++ u "): " ++ psrfstr
       ++ match col with [] => [] | _ :: _ => u "!e" end]
    else []
  end.

(** [outarr] as it stands before [messages] is looked at. *)
Definition status_segments (self : Printer) (fitter : Fitter) (desc : str)
    (scores : option (list (list float))) (accepts : option (list float))
    (progress : option (Z * option Z)) (acor : option (float * float * Z))
    (psrf : option (float * Z)) (fracking : bool) : result (list str) :=
  s_scores ← status_scores self scores fracking;
  s_accepts ← status_accepts self accepts;
  s_progress ← status_progress self progress;
  s_time ← status_time self fitter;
  ok ([_event_name fitter] ++ status_desc self desc ++ s_scores ++ s_accepts
      ++ s_progress ++ s_time ++ status_acor acor ++ status_psrf psrf).

(** The heat map of [kmat] as lines of text, with the number of columns
    of the scaled matrix. *)
Definition doodle_of (kmat : list (list float)) : result (list str * nat) :=
  let kmat_scaled := congrid kmat 14 7 in
  let kmat_scaled := np_log kmat_scaled in
  let top := np_max kmat_scaled in
  let kmat_scaled :=
    List.map (List.map (fun x => (x / top)%float)) kmat_scaled in
  let kmat_pers := List.map (np_percentile kmat_scaled) [20; 50; 80]%Z in
  let kmat_dimi := seq 0 (length kmat_scaled) in
  row0 ← item kmat_scaled 0;
  let kmat_dimj := seq 0 (length row0) in
  rows ← map_result (fun j =>
            cells ← map_result (fun i =>
                       row ← item kmat_scaled i;
                       v ← item row j;
                       ascii_fill v kmat_pers) kmat_dimi;
            ok (concat cells)) kmat_dimj;
  let doodle :=
    [10%N] ++ u "╔" ++ repeat_str (u "═") (length kmat_scaled)
    ++ u "╗   " ++ [10%N]
    ++ u "║" ++ join (u "║   " ++ [10%N] ++ u "║") rows ++ u "║"
    ++ [10%N] ++ u "╚" ++ repeat_str (u "═") (length kmat_scaled)
    ++ u "╝   " in
  ok (splitlines doodle, length row0).

(** The status text laid over the right of the heat map: [lines] start
    at row [loff] of [doodle]. *)
Definition overlay (doodle lines : list str) (ncols : nat) : str :=
  let loff := ((Z.of_nat ncols - Z.of_nat (length lines)) / 2 + 2)%Z in
  join [10%N]
    (imap (fun li line =>
       if (Z.of_nat li <? loff)%Z then line
       else if (loff + Z.of_nat (length lines) - 1 <? Z.of_nat li)%Z then line
       else line ++ nth (Z.to_nat (Z.of_nat li - loff)) lines [])
       doodle).

(** [Printer.status]; [None] for [scores], [accepts], [progress] or
    [messages] is a value that is not a list. *)
Definition status (self : Printer) (desc : str)
    (scores : option (list (list float))) (accepts : option (list float))
    (progress : option (Z * option Z)) (acor : option (float * float * Z))
    (psrf : option (float * Z)) (fracking : bool)
    (messages : option (list str)) (kmat : option (list (list float)))
    (make_space : bool) : io unit :=
  if _quiet self then mret tt
  else
    fitter ← match _fitter self with
             | Some f => mret f
             | None => raise AttributeError
             end;
    outarr ← lift (status_segments self fitter desc scores accepts progress
                     acor psrf fracking);
    messages ← match messages with
               | Some m => mret m
               | None => raise (ValueError (u "`messages` must be list!"))
               end;
    let outarr := outarr ++ messages in
    heat ← match kmat with
           | Some k =>
             if 1 <? length k then d ← lift (doodle_of k); mret (Some d)
             else mret None
           | None => mret None
           end;
    let kmat_extra :=
      match heat with
      | Some (doodle, _) => Z.of_nat (length (List.last doodle []))
      | None => 0%Z
      end in
    let lines := status_pack (_wrap_length self - kmat_extra) outarr in
    lines ← match heat with
            | Some (doodle, ncols) =>
              ls ← lift (_lines self lines kw_default);
              mret (overlay doodle ls ncols)
            | None => mret lines
            end;
    prt self lines {|
      kw_colorify := true; kw_center := false; kw_width := None;
      kw_warning := false; kw_error := false; kw_prefix := true;
      kw_color := []; kw_inline := negb make_space; kw_wrap_length := None;
      kw_wrapped := false; kw_master_only := true |}.

End Output.

(** ** Notions the properties are stated with *)

(** The heat map alphabet, by increasing intensity. *)
Inductive Glyph := BLANK | LOW | MID | HIGH.

Definition glyph_char (g : Glyph) : str :=
  match g with
  | BLANK => u " "
  | LOW => u "."
  | MID => u "*"
  | HIGH => u "#"
  end.

Definition glyph_rank (g : Glyph) : nat :=
  match g with
  | BLANK => 0
  | LOW => 1
  | MID => 2
  | HIGH => 3
  end.

(** Whether [a] and [b], in this order, are one of the colour markers. *)
Definition is_marker (a b : char) : bool :=
  existsb (fun code => str_eqb (fst code) [a; b]) ansi.codes.

(** The text without its colour markers, read from the left, and the
    width it takes on the terminal. *)
Fixpoint strip_markers (s : str) : str :=
  match s with
  | [] => []
  | a :: s' =>
    match s' with
    | [] => [a]
    | b :: s'' =>
      if is_marker a b then strip_markers s'' else a :: strip_markers s'
    end
  end.

Definition visible_width (s : str) : nat := length (strip_markers s).

(** The packing loop of [status] on segments instead of text: the state
    is the segments of the current line and the lines closed so far. *)
Definition group_step (width : Z) (st : list str * list (list str))
    (item : str) : list str * list (list str) :=
  let '(cur, closed) := st in
  if (width <? Z.of_nat (length (join (u " | ") (cur ++ [item]))))%Z
  then ([item], closed ++ [cur])
  else (cur ++ [item], closed).

Definition pack_groups (width : Z) (outarr : list str) : list (list str) :=
  let '(cur, closed) := fold_left (group_step width) outarr ([], []) in
  closed ++ [cur].

(** The text of a list of lines of segments, as [status] accumulates it:
    every line is preceded by a line feed. *)
Definition render_groups (groups : list (list str)) : str :=
  concat (List.map (fun g => 10%N :: join (u " | ") g) groups).

(** Whether [b] directly follows [a] somewhere in [s]. *)
Fixpoint has_pair (a b : char) (s : str) : bool :=
  match s with
  | [] => false
  | x :: s' =>
    match s' with
    | [] => false
    | y :: _ => (chr_eqb x a && chr_eqb y b) || has_pair a b s'
    end
  end.

(** Whether a text holds none of the colour markers. *)
Definition marker_free (s : str) : bool :=
  forallb (fun code =>
    match fst code with
    | [a; b] => negb (has_pair a b s)
    | _ => false
    end) ansi.codes.

(** [s.replace(old, new)] for an [old] of two characters [a], [b], read
    two characters at a time. *)
Fixpoint replace2 (a b : char) (new s : str) : str :=
  match s with
  | [] => []
  | x :: s' =>
    match s' with
    | [] => [x]
    | y :: s'' =>
      if chr_eqb a x && chr_eqb b y then new ++ replace2 a b new s''
      else x :: replace2 a b new s'
    end
  end.

(** [s.lower()] on the letters of ASCII. *)
Definition ascii_lower (s : str) : str :=
  List.map (fun c => if ((65 <=? c) && (c <=? 90))%N then (c + 32)%N else c) s.

(** The total of the time estimate as the specification words it:
    doubled when fracking is disabled and no secondary time is known. *)
Definition spec_tott (fitter : Fitter) : float :=
  if negb (_fracking fitter) && (_bh_est_t fitter =? 0.0)%float
  then (2.0 * _emcee_est_t fitter)%float
  else (_emcee_est_t fitter + _bh_est_t fitter)%float.

(** A text without braces, which [str.format] copies as it is. *)
Definition brace_free (s : str) : bool :=
  forallb (fun c => negb (chr_eqb c 123) && negb (chr_eqb c 125)) s.

(** The numbering of fields after [k] automatic fields. *)
Definition num_at (k : nat) : numbering :=
  match k with
  | 0 => NumNone
  | S _ => NumAuto k
  end.

(** A line of segments respects the width [width]: its text is no longer
    than the width, or it is one segment that is longer by itself. *)
Definition line_fits (width : Z) (g : list str) : Prop :=
  (Z.of_nat (length (join (u " | ") g)) <= width)%Z
  \/ exists s, g = [s] /\ (width < Z.of_nat (length s))%Z.

(** A marker and its escape sequence are fit for the letter [d]: the
    marker is an exclamation mark and one letter, and the escape sequence
    holds no exclamation mark and does not start with [d]. *)
Definition code_ok (d : char) (code : str * str) : bool :=
  match code with
  | ([a; _], n0 :: nrest) =>
    chr_eqb a 33 && negb (chr_in 33 (n0 :: nrest)) && negb (chr_eqb n0 d)
  | _ => false
  end.

(** ** Sample data for the examples *)

(** Entries of the English catalogue that the examples read. *)
Definition sample_strings : gmap (list N) (list N) :=
  list_to_map [
    (u "estimated_time", u "Estimated time left");
    (u "run_until_converged", u "Running until converged");
    (u "progress", u "Progress") ].

Definition sample_fitter (emcee bh : float) (fracking : bool) : Fitter := {|
  _event_name := u "SN2011fe";
  _emcee_est_t := emcee;
  _bh_est_t := bh;
  _fracking := fracking;
  _test := false |}.

Definition sample_printer (quiet : bool) (fitter : option Fitter)
    : Printer := {|
  _wrap_length := 100;
  _quiet := quiet;
  _pool := None;
  _fitter := fitter;
  _strings := sample_strings |}.

(** The values of [pretty_num] on the numbers of the examples. *)
Definition sample_pretty_num (x : float) (sig : nat) : str :=
  if (x =? 1.5)%float then u "1.5"
  else if (x =? 3.0)%float then u "3"
  else if (x =? 1.2)%float then u "1.2"
  else u "nan".

(** Stand-ins for the other helpers: a terminal that encodes every
    character, a translation into English, and helpers whose results the
    examples do not observe. *)
Definition sample_fill (text : str) (width : Z) (replace_whitespace : bool)
    : str := text.
Definition sample_is_integer (z : Z) : bool := true.
Definition sample_is_integer_str (s : str) : bool := forallb is_digit s.
Definition sample_int_of_str (s : str) : Z := Z.of_nat (digits_value s).
Definition sample_repr (s : str) : str := [39%N] ++ s ++ [39%N].
Definition sample_encodable (s : str) : bool := true.
Definition sample_translate (s : str) : str := s.
Definition sample_WAIC (scores : list (list float)) : float := 0%float.
Definition sample_format_percent (x : float) : str := u "50%".
Definition sample_congrid (m : list (list float)) (rows cols : nat)
    : list (list float) := repeat (repeat 1%float cols) rows.
Definition sample_np_log (m : list (list float)) : list (list float) := m.
Definition sample_np_max (m : list (list float)) : float := 1%float.
Definition sample_np_percentile (m : list (list float)) (q : Z) : float :=
  1%float.

(** A printer of a process that is in a pool and is not its master. *)
Definition sample_worker : Printer := {|
  _wrap_length := 100;
  _quiet := false;
  _pool := Some false;
  _fitter := Some (sample_fitter 10 0 true);
  _strings := sample_strings |}.

(** A printer that was given the wrap length 0. *)
Definition sample_narrow_printer : Printer := {|
  _wrap_length := 0;
  _quiet := false;
  _pool := None;
  _fitter := None;
  _strings := sample_strings |}.

(** The escape sequences [prt] writes before the lines when it prints in
    place: cursor up and clear line, once for every line. *)
Definition erase_events (tspl : list str) : list event :=
  concat (List.map (fun _ => [Stdout (ESC :: u "[F"); Stdout (ESC :: u "[K")])
                   tspl).

(** A text without a line boundary, and a text whose only line
    boundaries are line feeds. *)
Definition no_linebreak (s : str) : bool :=
  forallb (fun c => negb (is_linebreak c)) s.

Definition lf_only (s : str) : bool :=
  forallb (fun c => negb (is_linebreak c) || chr_eqb c 10) s.

(** A quiet printer whose catalogue has a text with one slot. *)
Definition sample_slot_printer : Printer := {|
  _wrap_length := 100;
  _quiet := true;
  _pool := None;
  _fitter := None;
  _strings := list_to_map [(u "fitting", u "Fitting {} now")] |}.

(** ** [mosfit.modules.seds.sed]: the [SED] template module

    A wavelength array and a list of wavelengths are both a list of
    floats; the speed of light [C_CONST] and [np.linspace] are
    arguments. *)

(** [SED.N_PTS] *)
Definition N_PTS : nat := 16 + 1.

(** The two attributes of a [SED]; [__init__] sets the wavelengths only,
    so the frequencies may be missing. *)
Record SED := {
  _sample_wavelengths : list (list float);
  _sample_frequencies : option (list (list float)) }.

(** [SED.__init__] *)
Definition SED_init : SED := {|
  _sample_wavelengths := [];
  _sample_frequencies := None |}.

(** The keyword arguments [receive_requests] reads; [None] is a key that
    is missing. *)
Record requests := {
  req_sample_wavelengths : option (list (list float));
  req_band_wave_ranges : option (list (list float)) }.

(** [[[self.C_CONST / x for x in y] for y in self._sample_wavelengths]];
    the division is that of numpy floats, which raises nothing. *)
Definition frequencies_of (C_CONST : float) (w : list (list float))
    : list (list float) :=
  List.map (List.map (fun x => (C_CONST / x)%float)) w.

(** The loop over the wave ranges: the wavelengths appended so far, and
    the outcome. *)
Fixpoint append_ranges (linspace : float -> float -> nat -> list float)
    (acc : list (list float)) (wave_ranges : list (list float))
    : list (list float) * result unit :=
  match wave_ranges with
  | [] => (acc, ok tt)
  | rng :: rest =>
    match item rng 0 with
    | inl e => (acc, err e)
    | inr a =>
      match item rng 1 with
      | inl e => (acc, err e)
      | inr b => append_ranges linspace (acc ++ [linspace a b N_PTS]) rest
      end
    end
  end.

(** [SED.receive_requests]: the module after the call, and the
    outcome. An empty list given for the sample wavelengths is the list
    the arrays are appended to; the model follows the attribute, not the
    caller's list. *)
Definition receive_requests (C_CONST : float)
    (linspace : float -> float -> nat -> list float) (self : SED)
    (req : requests) : SED * result unit :=
  match default [] (req_sample_wavelengths req) with
  | [] =>
    match default [] (req_band_wave_ranges req) with
    | [] =>
      ({| _sample_wavelengths := [];
          _sample_frequencies := _sample_frequencies self |}, ok tt)
    | rng :: rest =>
      match append_ranges linspace [] (rng :: rest) with
      | (w, inl e) =>
        ({| _sample_wavelengths := w;
            _sample_frequencies := _sample_frequencies self |}, err e)
      | (w, inr _) =>
        ({| _sample_wavelengths := w;
            _sample_frequencies := Some (frequencies_of C_CONST w) |},
         ok tt)
      end
    end
  | y :: w =>
    ({| _sample_wavelengths := y :: w;
        _sample_frequencies := Some (frequencies_of C_CONST (y :: w)) |},
     ok tt)
  end.

(** [SED.add_to_existing_seds]; [seds] is the keyword argument, [None]
    when it is missing or [None]. Each new item is a generator; the list
    holds what it yields. *)
Definition add_to_existing_seds (new_seds : list (list float))
    (seds : option (list (list float))) : list (list float) :=
  match seds with
  | Some old_seds =>
    zip_with (fun x y => zip_with (fun i j => (i + j)%float) x y)
      old_seds new_seds
  | None => new_seds
  end.

(** [SED.send_request] *)
Definition send_request (self : SED) (request : str) : list (list float) :=
  if str_eqb request (u "sample_wavelengths") then _sample_wavelengths self
  else [].

(** The end points of a range, repeated: a stand-in for [np.linspace]. *)
Definition sample_linspace (a b : float) (n : nat) : list float :=
  a :: repeat b (n - 1).

(** The frame of the heat map: the top and bottom borders over [n]
    columns of cells, and the rows of cells between their side borders.
    Every row but the last is followed by three blanks. *)
Definition frame_top (n : nat) : str :=
  u "╔" ++ repeat_str (u "═") n ++ u "╗   ".

Definition frame_bottom (n : nat) : str :=
  u "╚" ++ repeat_str (u "═") n ++ u "╝   ".

Fixpoint frame_rows (rows : list str) : list str :=
  match rows with
  | [] => [u "║║"]
  | r :: rest =>
    match rest with
    | [] => [u "║" ++ r ++ u "║"]
    | _ :: _ => (u "║" ++ r ++ u "║   ") :: frame_rows rest
    end
  end.

(** A row of heat map cells. *)
Definition glyph_row (r : str) : bool :=
  forallb (fun c => chr_in c (u " .*#")) r.

(** A connector that continues downwards: a bar or a branch. *)
Definition continues_down (c : char) : bool := chr_in c [BOX_V; BOX_VR].

(** ** [Printer.rep_ansi] and [Printer.translate]

    The pattern of [rep_ansi] is a replacement field, from an opening
    brace to the nearest closing brace on the same line, or else one of
    the colour markers. *)

(** Where the nearest closing brace is, when no line feed comes before
    it: what the lazy [.*?] of the pattern has to cross. *)
Fixpoint find_close (s : str) : option nat :=
  match s with
  | [] => None
  | c :: r =>
    if chr_eqb c 125 then Some 0
    else if chr_eqb c 10 then None
    else option_map S (find_close r)
  end.

(** The length of the match of the pattern at the start of [s], if there
    is one: the alternatives are tried in order. *)
Definition match_at (s : str) : option nat :=
  match s with
  | [] => None
  | c :: s' =>
    match (if chr_eqb c 123 then find_close s' else None) with
    | Some k => Some (S (S k))
    | None =>
      match s' with
      | d :: _ => if is_marker c d then Some 2 else None
      | [] => None
      end
    end
  end.

(** [patt.sub("{}", text)] and [patt.findall(text)] in one scan from the
    left over non-overlapping matches; [skip] characters of a match are
    still to be dropped. *)
Fixpoint rep_ansi_from (skip : nat) (s : str) : str * list str :=
  match s with
  | [] => ([], [])
  | c :: s' =>
    match skip with
    | S k => rep_ansi_from k s'
    | O =>
      match match_at s with
      | Some (S n) =>
        let '(stext, matches) := rep_ansi_from n s' in
        (u "{}" ++ stext, take (S n) s :: matches)
      | _ =>
        let '(stext, matches) := rep_ansi_from 0 s' in
        (c :: stext, matches)
      end
    end
  end.

(** [Printer.rep_ansi] *)
Definition rep_ansi (text : str) : str * list str := rep_ansi_from 0 text.

(** [Printer.translate]: [english] is whether the language is English;
    the translator gives [None] when the package is missing or the
    service fails. Every exception is swallowed and the text returned as
    it is; a field outside the model of [format] is reported. *)
Definition Printer_translate (english : bool)
    (translator : str -> option str) (text : str) : result str :=
  if english then ok text
  else
    let '(ttext, reps) := rep_ansi text in
    match translator ttext with
    | None => ok text
    | Some ttext =>
      match format ttext reps with
      | inr text' => ok text'
      | inl Unsupported => err Unsupported
      | inl _ => ok text
      end
    end.

(** Whether no brace of a text is left outside the matches of the
    pattern. *)
Fixpoint stray_free_from (skip : nat) (s : str) : bool :=
  match s with
  | [] => true
  | c :: s' =>
    match skip with
    | S k => stray_free_from k s'
    | O =>
      match match_at s with
      | Some (S n) => stray_free_from n s'
      | _ =>
        negb (chr_eqb c 123) && negb (chr_eqb c 125) && stray_free_from 0 s'
      end
    end
  end.

Definition stray_free (text : str) : bool := stray_free_from 0 text.

(** The options of a call that centres without giving a width. *)
Definition kw_center_only : kwargs := {|
  kw_colorify := false; kw_center := true; kw_width := None;
  kw_warning := false; kw_error := false; kw_prefix := true;
  kw_color := []; kw_inline := true; kw_wrap_length := None;
  kw_wrapped := false; kw_master_only := true |}.

(** ** Tactics for the order of floats *)

(** Case analysis on the comparisons of exponents and mantissas. *)
Ltac sf_cases :=
  repeat match goal with
  | |- context [(?a ?= ?b)%Z] => destruct (Z.compare_spec a b)
  | |- context [PosDef.Pos.compare_cont Eq ?a ?b] =>
      change (PosDef.Pos.compare_cont Eq a b) with (Pos.compare a b);
      destruct (Pos.compare_spec a b)
  | H : context [(?a ?= ?b)%Z] |- _ => destruct (Z.compare_spec a b)
  | H : context [PosDef.Pos.compare_cont Eq ?a ?b] |- _ =>
      change (PosDef.Pos.compare_cont Eq a b) with (Pos.compare a b) in H;
      destruct (Pos.compare_spec a b)
  end.

Ltac sf_split x y z :=
  destruct x as [[]|[]| |[] ? ?], y as [[]|[]| |[] ? ?],
    z as [[]|[]| |[] ? ?]; simpl; try congruence.

(** * Properties *)

(** ** The model on small inputs *)

Example timedelta_str_3661 : timedelta_str 3661 = inr (u "1:01:01").
Proof. vm_compute. reflexivity. Qed.

Example timedelta_str_zero : timedelta_str 0 = inr (u "0:00:00").
Proof. vm_compute. reflexivity. Qed.

Example timedelta_str_days : timedelta_str 90061 = inr (u "1 day, 1:01:01").
Proof. vm_compute. reflexivity. Qed.

Example py_round_half_to_even :
  py_round 2.5 = inr 2%Z /\ py_round 3.5 = inr 4%Z
  /\ py_round (-2.5) = inr (-2)%Z /\ py_round infinity = inl OverflowError.
Proof. vm_compute. repeat split; reflexivity. Qed.

Example replace_leftmost_first :
  replace (u "aa") (u "b") (u "aaa") = u "ba"
  /\ replace_n (u "a") (u "b") (Some 1) (u "aaa") = u "baa"
  /\ count (u "aa") (u "aaaa") = 2.
Proof. vm_compute. repeat split; reflexivity. Qed.

Example splitlines_leading_line_feed :
  splitlines ([10%N] ++ u "a | b" ++ [10%N] ++ u "c" ++ [10%N])
  = [[]; u "a | b"; u "c"].
Proof. vm_compute. reflexivity. Qed.

Example center_odd_margin :
  center (u "ab") 5 = u "  ab " /\ center (u "a") 4 = u " a  "
  /\ center (u "abcdef") 3 = u "abcdef".
Proof. vm_compute. repeat split; reflexivity. Qed.

Example colorify_red :
  colorify (u "!rChain!e") = ansi.RED ++ u "Chain" ++ ansi.END.
Proof. vm_compute. reflexivity. Qed.

Example format_positional :
  format (u "{} of {} {{done}}") [u "3"; u "10"] = inr (u "3 of 10 {done}")
  /\ format (u "{1}/{0}") [u "a"; u "b"] = inr (u "b/a")
  /\ format (u "{} {}") [u "a"] = inl IndexError.
Proof. vm_compute. repeat split; reflexivity. Qed.

Example json_dumps_two_leaves :
  json_dumps_dict (u "─ ") 0
    (Node [(u "A", Node [(u "B", Node []); (u "C", Node [])])])
  = u "{" ++ [10%N] ++ u "─ " ++ [34%N] ++ u "A" ++ [34%N] ++ u "{"
    ++ [10%N] ++ u "─ ─ " ++ [34%N] ++ u "B" ++ [34%N] ++ u "{}"
    ++ [10%N] ++ u "─ ─ " ++ [34%N] ++ u "C" ++ [34%N] ++ u "{}"
    ++ [10%N] ++ u "─ }" ++ [10%N] ++ u "}".
Proof. vm_compute. reflexivity. Qed.

Example status_pack_overlong_first :
  status_pack 10 [u "0123456789012"; u "z"]
  = [10%N] ++ [10%N] ++ u "0123456789012" ++ [10%N] ++ u "z".
Proof. vm_compute. reflexivity. Qed.

Example status_without_heat_map :
  status sample_fill sample_is_integer sample_repr sample_encodable
    sample_pretty_num sample_WAIC sample_format_percent sample_congrid
    sample_np_log sample_np_max sample_np_percentile
    (sample_printer false (Some (sample_fitter 10 0 true))) []
    None None (Some (3, Some 10)%Z) None (Some (1.2%float, 5%Z)) false
    (Some [u "hello"]) None true
  = ([Stdout [10%N];
      Stdout (u "SN2011fe | Progress: [ 3/10 ] | Estimated time left: [ 0:00:20 ] | "
              ++ ansi.GREEN ++ u "PSRF (i > 5): 1.2" ++ ansi.END
              ++ u " | hello" ++ [10%N])],
     inr tt).
Proof. vm_compute. reflexivity. Qed.

(** ** The order of floats *)

Lemma SFcompare_antisym (x y : spec_float) :
  SFcompare y x = option_map CompOpp (SFcompare x y).
Proof.
  destruct x as [sx|sx| |sx mx ex], y as [sy|sy| |sy my ey]; simpl;
    try destruct sx; try destruct sy; simpl; try reflexivity.
  all: rewrite (Z.compare_antisym ey ex);
    change (PosDef.Pos.compare_cont Eq mx my) with (Pos.compare mx my);
    change (PosDef.Pos.compare_cont Eq my mx) with (Pos.compare my mx);
    rewrite (Pos.compare_antisym my mx);
    destruct (ey ?= ex)%Z, (my ?= mx)%positive; reflexivity.
Qed.

Lemma SFleb_ltb_trans (x y z : spec_float) :
  SFleb x y = true -> SFltb y z = true -> SFltb x z = true.
Proof.
  unfold SFleb, SFltb. sf_split x y z; intros H1 H2; sf_cases;
    simpl in *; try congruence; try lia.
Qed.

Lemma SFltb_leb_trans (x y z : spec_float) :
  SFltb x y = true -> SFleb y z = true -> SFltb x z = true.
Proof.
  unfold SFleb, SFltb. sf_split x y z; intros H1 H2; sf_cases;
    simpl in *; try congruence; try lia.
Qed.

Lemma SFleb_not_ltb (x y : spec_float) :
  SFleb x y = true -> SFltb y x = false.
Proof.
  unfold SFleb, SFltb. rewrite (SFcompare_antisym x y).
  destruct (SFcompare x y) as [[]|]; simpl; congruence.
Qed.

Lemma fleb_fltb_trans (x y z : float) :
  (x <=? y)%float = true -> (y <? z)%float = true -> (x <? z)%float = true.
Proof. rewrite leb_spec, !ltb_spec. apply SFleb_ltb_trans. Qed.

Lemma fltb_fleb_trans (x y z : float) :
  (x <? y)%float = true -> (y <=? z)%float = true -> (x <? z)%float = true.
Proof. rewrite leb_spec, !ltb_spec. apply SFltb_leb_trans. Qed.

Lemma fleb_not_fltb (x y : float) :
  (x <=? y)%float = true -> (y <? x)%float = false.
Proof. rewrite leb_spec, ltb_spec. apply SFleb_not_ltb. Qed.

Lemma fleb_not_nan (x y : float) :
  (x <=? y)%float = true -> isnan x = false /\ isnan y = false.
Proof.
  unfold isnan, is_nan. rewrite leb_spec, !FloatAxioms.eqb_spec.
  unfold SFleb, SFeqb.
  destruct (Prim2SF x) as [[]|[]| |[] mx ex],
    (Prim2SF y) as [[]|[]| |[] my ey]; simpl; try congruence;
    intros _; rewrite ?Z.compare_refl; simpl;
    change (PosDef.Pos.compare_cont Eq ?a ?b) with (Pos.compare a b);
    rewrite ?Pos.compare_refl; auto.
Qed.

Lemma finite_ne_infinity (v : float) :
  isfinite v = true -> float_ne v infinity = true.
Proof.
  unfold float_ne. intros Hfin.
  destruct (v =? infinity)%float eqn:E; [|reflexivity].
  rewrite FloatAxioms.eqb_spec in E.
  assert (Hv : Prim2SF v = Prim2SF infinity).
  { change (Prim2SF infinity) with (S754_infinity false) in *.
    unfold SFeqb in E.
    destruct (Prim2SF v) as [[]|[]| |[] ? ?]; simpl in E; congruence. }
  apply Prim2SF_inj in Hv. subst v. vm_compute in Hfin. discriminate.
Qed.

(** ** The time estimate of [status] (C1) *)

(** C1, as worded, fails: with fracking disabled and no secondary time
    known, a primary estimate of 10 seconds is rendered as 10 seconds (the
    sum), where the claim doubles it to 20 seconds. *)
Lemma status_time_not_doubled_without_fracking :
  let f := sample_fitter 10 0 false in
  let self := sample_printer false (Some f) in
  (_emcee_est_t f <? 0.0)%float = false
  /\ (0.0 <? _emcee_est_t f + _bh_est_t f)%float = true
  /\ _fracking f = false
  /\ (_bh_est_t f =? 0.0)%float = true
  /\ status_time self f = ok [u "Estimated time left: [ 0:00:10 ]"]
  /\ (timestring ← get_timestring self (spec_tott f); ok [timestring])
     = ok [u "Estimated time left: [ 0:00:20 ]"].
Proof. vm_compute. repeat split; reflexivity. Qed.

(** C1, amended: whenever a total estimate is rendered (the primary
    estimate is not negative and the sum of both is positive), the
    rendered total is the sum of the primary and the secondary time,
    except that it is twice the primary time exactly when fracking is
    enabled and the secondary time is not positive. *)
Theorem status_time_total (self : Printer) (f : Fitter) :
  (_emcee_est_t f <? 0.0)%float = false ->
  (0.0 <? _emcee_est_t f + _bh_est_t f)%float = true ->
  status_time self f
  = (timestring ← get_timestring self
       (if _fracking f && negb (0.0 <? _bh_est_t f)%float
        then (2.0 * _emcee_est_t f)%float
        else (_emcee_est_t f + _bh_est_t f)%float);
     ok [timestring]).
Proof.
  intros Hneg Hpos. unfold status_time, status_tott.
  rewrite Hneg, Hpos.
  destruct (_fracking f), (0.0 <? _bh_est_t f)%float; reflexivity.
Qed.

Lemma status_time_total_witness :
  let f := sample_fitter 10 0 true in
  let self := sample_printer false (Some f) in
  (_emcee_est_t f <? 0.0)%float = false
  /\ (0.0 <? _emcee_est_t f + _bh_est_t f)%float = true
  /\ status_time self f = ok [u "Estimated time left: [ 0:00:20 ]"].
Proof.
  split; [reflexivity|]. split; [reflexivity|].
  rewrite (status_time_total
             (sample_printer false (Some (sample_fitter 10 0 true)))
             (sample_fitter 10 0 true) eq_refl eq_refl).
  vm_compute. reflexivity.
Defined.

(** ** The autocorrelation segment of [status] (C2) *)

(** C2, as worded, fails: for the triple (tau 1.5, ratio 3, burn-in
    index 0) the index is not positive, yet the segment is the yellow
    autocorrelation line and not the warning. *)
Lemma status_acor_index_zero_not_warning :
  (0 <=? 0)%Z = true
  /\ status_acor sample_pretty_num (Some (1.5%float, 3%float, 0%Z))
     = [u "!yAcor Tau (i > 0): 1.5 (3x)!e"]
  /\ startswith (u "!rChain too short")
       (u "!yAcor Tau (i > 0): 1.5 (3x)!e") = false.
Proof. vm_compute. repeat split; reflexivity. Qed.

(** C2, amended: for every triple (tau, ratio, burn-in index): if tau is
    at most 0 the segment is the fixed red warning that the chain is too
    short, carrying the ratio; otherwise its colour is red when the
    ratio is below 2.0, yellow when it is at least 2.0 and below 5.0,
    green when it is at least 5.0, and it renders the index in
    parentheses, then tau, then the ratio in parentheses. *)
Theorem status_acor_segment (pretty_num : float -> nat -> str)
    (tau ratio : float) (index : Z) :
  let seg col :=
    [col ++ u "Acor Tau (i > " ++ str_of_Z index ++ u "): "
     ++ pretty_num tau 3 ++ u " (" ++ pretty_num ratio 3 ++ u "x)"
     ++ u "!e"] in
  let acor := Some (tau, ratio, index) in
  ((tau <=? 0.0)%float = true ->
   status_acor pretty_num acor
   = [u "!rChain too short for `acor` (" ++ pretty_num ratio 3 ++ u ")!e"])
  /\ ((tau <=? 0.0)%float = false ->
      ((ratio <? 2.0)%float = true ->
       status_acor pretty_num acor = seg (u "!r"))
      /\ ((2.0 <=? ratio)%float = true -> (ratio <? 5.0)%float = true ->
          status_acor pretty_num acor = seg (u "!y"))
      /\ ((5.0 <=? ratio)%float = true ->
          status_acor pretty_num acor = seg (u "!g"))).
Proof.
  intros seg acor. unfold acor, seg, status_acor, acor_color.
  split; intros Htau; rewrite Htau; [reflexivity|].
  repeat split.
  - intros H. rewrite H. reflexivity.
  - intros H2 H5. rewrite (fleb_not_fltb _ _ H2), H5. reflexivity.
  - intros H5.
    rewrite (fleb_not_fltb _ _ H5).
    destruct (ratio <? 2.0)%float eqn:E; [|reflexivity].
    pose proof (fleb_fltb_trans _ _ _ H5 E) as Habs.
    vm_compute in Habs. discriminate.
Qed.

Lemma status_acor_segment_witness :
  (1.5 <=? 0.0)%float = false
  /\ (2.0 <=? 3.0)%float = true
  /\ (3.0 <? 5.0)%float = true
  /\ status_acor sample_pretty_num (Some (1.5%float, 3%float, 7%Z))
     = [u "!y" ++ u "Acor Tau (i > " ++ str_of_Z 7 ++ u "): "
        ++ sample_pretty_num 1.5 3 ++ u " (" ++ sample_pretty_num 3 3
        ++ u "x)" ++ u "!e"].
Proof.
  repeat (split; [reflexivity|]).
  exact (proj1 (proj2 (proj2 (status_acor_segment sample_pretty_num
                                1.5%float 3%float 7%Z) eq_refl))
               eq_refl eq_refl).
Defined.

(** ** The PSRF segment of [status] (C5) *)

(** A float that is infinite and not below zero is positive infinity. *)
Lemma infinite_not_negative (v : float) :
  is_infinity v = true -> (0 <=? v)%float = true -> v = infinity.
Proof.
  unfold is_infinity. rewrite FloatAxioms.eqb_spec, abs_spec, leb_spec.
  intros Hinf Hpos. apply Prim2SF_inj.
  change (Prim2SF infinity) with (S754_infinity false) in *.
  change (Prim2SF 0) with (S754_zero false) in Hpos.
  destruct (Prim2SF v) as [[]|[]| |[] m e]; try reflexivity;
    try discriminate Hinf; discriminate Hpos.
Qed.

(** C5: for every finite PSRF value v the segment is green when v is at
    most 1.2 (1.2 itself is green), yellow when v is above 1.2 and at
    most 2.0 (2.0 itself is yellow), red when v is above 2.0; and when
    the value is infinite no PSRF segment is produced. The statistic is
    a ratio of variances and is never below zero, so its infinite value
    is positive infinity. *)
Theorem status_psrf_segment (pretty_num : float -> nat -> str)
    (v : float) (index : Z) :
  let seg col :=
    [col ++ u "PSRF (i > " ++ str_of_Z index ++ u "): " ++ pretty_num v 4
     ++ u "!e"] in
  let segment := status_psrf pretty_num (Some (v, index)) in
  (isfinite v = true ->
   ((v <=? 1.2)%float = true -> segment = seg (u "!g"))
   /\ ((1.2 <? v)%float = true -> (v <=? 2.0)%float = true ->
       segment = seg (u "!y"))
   /\ ((2.0 <? v)%float = true -> segment = seg (u "!r")))
  /\ psrf_color 1.2 = u "!g"
  /\ psrf_color 2.0 = u "!y"
  /\ (is_infinity v = true -> (0 <=? v)%float = true -> segment = []).
Proof.
  intros seg segment. unfold seg, segment.
  split; [|split; [reflexivity|split; [reflexivity|]]].
  - intros Hfin. unfold status_psrf, psrf_color.
    rewrite (finite_ne_infinity v Hfin).
    repeat split.
    + intros H.
      rewrite (fleb_not_fltb _ _ H).
      destruct (2.0 <? v)%float eqn:E; [|reflexivity].
      pose proof (fltb_fleb_trans _ _ _ E H) as Habs.
      vm_compute in Habs. discriminate.
    + intros H1 H2. rewrite (fleb_not_fltb _ _ H2), H1. reflexivity.
    + intros H. rewrite H. reflexivity.
  - intros Hinf Hpos. rewrite (infinite_not_negative v Hinf Hpos).
    reflexivity.
Qed.

Lemma status_psrf_segment_witness :
  isfinite 1.2 = true
  /\ (1.2 <=? 1.2)%float = true
  /\ status_psrf sample_pretty_num (Some (1.2%float, 5%Z))
     = [u "!g" ++ u "PSRF (i > " ++ str_of_Z 5 ++ u "): "
        ++ sample_pretty_num 1.2 4 ++ u "!e"]
  /\ is_infinity infinity = true
  /\ (0 <=? infinity)%float = true
  /\ status_psrf sample_pretty_num (Some (infinity, 5%Z)) = [].
Proof.
  split; [reflexivity|]. split; [reflexivity|]. split.
  - exact (proj1 (proj1 (status_psrf_segment sample_pretty_num
                           1.2%float 5%Z) eq_refl) eq_refl).
  - split; [reflexivity|]. split; [reflexivity|].
    exact (proj2 (proj2 (proj2 (status_psrf_segment sample_pretty_num
                                  infinity 5%Z))) eq_refl eq_refl).
Defined.

(** ** Computations that do not raise *)

Lemma chr_eqb_eq (a b : char) : chr_eqb a b = true <-> a = b.
Proof. unfold chr_eqb. apply N.eqb_eq. Qed.

Lemma str_eqb_eq (a b : str) : str_eqb a b = true <-> a = b.
Proof.
  revert b. induction a as [|x a IH]; intros [|y b]; simpl;
    try (split; congruence).
  rewrite andb_true_iff, chr_eqb_eq, IH. split.
  - intros [-> ->]. reflexivity.
  - intros [= -> ->]. auto.
Qed.

Lemma snd_bind {A B} (m : io A) (f : A -> io B) :
  snd (m ≫= f)
  = match snd m with
    | inl e => inl e
    | inr x => snd (f x)
    end.
Proof.
  unfold mbind, io_bind. destruct m as [t [e|x]]; simpl; [reflexivity|].
  destruct (f x). reflexivity.
Qed.

Lemma snd_bind_ok {A B} (m : io A) (f : A -> io B) (x : A) :
  snd m = inr x -> snd (m ≫= f) = snd (f x).
Proof. intros H. rewrite snd_bind, H. reflexivity. Qed.

Lemma bind_ret {A B} (x : A) (f : A -> io B) : (mret x ≫= f) = f x.
Proof. unfold mbind, mret, io_bind, io_ret. destruct (f x). reflexivity. Qed.

Lemma bind_lift_ok {A B} (x : A) (f : A -> io B) :
  (lift (inr x) ≫= f) = f x.
Proof. apply bind_ret. Qed.

Lemma bind_raise {A B} (e : exn) (f : A -> io B) :
  (raise e ≫= f) = ([], inl e).
Proof. reflexivity. Qed.

Lemma bind_lift_err {A B} (e : exn) (f : A -> io B) :
  (lift (inl e) ≫= f) = ([], inl e).
Proof. reflexivity. Qed.

Lemma for_each_ok {A} (l : list A) (body : A -> io unit) :
  (forall x, snd (body x) = inr tt) -> snd (for_each l body) = inr tt.
Proof.
  intros Hbody. induction l as [|x l IH]; simpl; [reflexivity|].
  rewrite snd_bind, Hbody. exact IH.
Qed.

Section NoRaise.

Variable fill : str -> Z -> bool -> str.
Variable is_integer : Z -> bool.
Variable is_integer_str : str -> bool.
Variable int_of_str : str -> Z.
Variable repr : str -> str.
Variable encodable : str -> bool.
Variable translate : str -> str.

(** [textwrap.fill] returns for a width above zero, and raises for every
    other width. *)
Lemma textwrap_fill_wide (text : str) (width : Z) (rw : bool) :
  (0 < width)%Z ->
  textwrap_fill fill text width rw = inr (fill text width rw).
Proof.
  intros H. unfold textwrap_fill.
  replace (width <=? 0)%Z with false by (symmetry; apply Z.leb_gt; lia).
  reflexivity.
Qed.

Lemma textwrap_fill_narrow (text : str) (width : Z) (rw : bool) :
  (width <= 0)%Z ->
  textwrap_fill fill text width rw
  = inl (ValueError (u "invalid width " ++ str_of_Z width
                     ++ u " (must be > 0)")).
Proof.
  intros H. unfold textwrap_fill.
  replace (width <=? 0)%Z with true by (symmetry; apply Z.leb_le; lia).
  reflexivity.
Qed.

(** The loop of [_lines] that wraps the lines: with a width above zero
    it wraps every line, with another width it raises at the first. *)
Lemma wrap_lines_wide (width : Z) (tspl : list str) :
  (0 < width)%Z ->
  map_result (fun line =>
    filled ← textwrap_fill fill line width true; ok (splitlines filled)) tspl
  = inr (List.map (fun line => splitlines (fill line width true)) tspl).
Proof.
  intros H. induction tspl as [|x l IH]; [reflexivity|].
  cbn [map_result List.map]. rewrite (textwrap_fill_wide _ _ _ H), IH.
  reflexivity.
Qed.

Lemma wrap_lines_narrow (width : Z) (line : str) (tspl : list str) :
  (width <= 0)%Z ->
  map_result (fun line =>
    filled ← textwrap_fill fill line width true; ok (splitlines filled))
    (line :: tspl)
  = inl (ValueError (u "invalid width " ++ str_of_Z width
                     ++ u " (must be > 0)")).
Proof.
  intros H. cbn [map_result]. rewrite (textwrap_fill_narrow _ _ _ H).
  reflexivity.
Qed.

(** [_lines] of a printer that writes, without prefix and colour. *)
Lemma lines_plain (self : Printer) (text : str) (kw : kwargs) :
  _quiet self = false ->
  kw_master_only kw
  && match _pool self with Some m => negb m | None => false end = false ->
  kw_warning kw = false -> kw_error kw = false -> kw_color kw = [] ->
  _lines fill is_integer self text kw
  = if kw_wrapped kw then
      ntspl ← map_result (fun line =>
                 filled ← textwrap_fill fill line
                            match kw_wrap_length kw with
                            | Some w =>
                              if negb (truthy (Some w)) || negb (is_integer w)
                              then _wrap_length self else w
                            | None => _wrap_length self
                            end true;
                 ok (splitlines filled)) (splitlines (text ++ [10%N]));
      ok (concat ntspl)
    else ok (splitlines (text ++ [10%N])).
Proof.
  intros Hq Hm Hw He Hc. unfold _lines. rewrite Hq, Hm, Hw, He, Hc.
  reflexivity.
Qed.

(** Without a warning or error prefix and without wrapping, [_lines]
    reads no catalogue entry, wraps nothing and returns. *)
Lemma lines_ok (self : Printer) (text : str) (kw : kwargs) :
  kw_warning kw = false -> kw_error kw = false -> kw_wrapped kw = false ->
  exists tspl, _lines fill is_integer self text kw = inr tspl.
Proof.
  intros Hw He Hwr. unfold _lines. rewrite Hw, He, Hwr. simpl.
  destruct (_quiet self); [eauto|].
  destruct (kw_master_only kw && _); eauto.
Qed.

Lemma center_line_ok (kw : kwargs) (line rline : str) :
  kw_center kw = false -> center_line repr kw line rline = inr rline.
Proof. intros Hc. unfold center_line. rewrite Hc. reflexivity. Qed.

(** Without centring, prefixes and wrapping, [prt] returns. *)
Lemma prt_ok (self : Printer) (text : str) (kw : kwargs) :
  kw_center kw = false -> kw_warning kw = false -> kw_error kw = false ->
  kw_wrapped kw = false ->
  snd (prt fill is_integer repr encodable self text kw) = inr tt.
Proof.
  intros Hc Hw He Hwr. unfold prt.
  destruct (lines_ok self text kw Hw He Hwr) as [tspl ->].
  rewrite (snd_bind_ok _ _ tspl) by reflexivity.
  rewrite (snd_bind_ok _ _ tt).
  2:{ match goal with
      | |- snd (if ?b then _ else _) = _ => destruct b
      end; [|reflexivity].
      apply for_each_ok. intros _. reflexivity. }
  apply for_each_ok. intros line.
  rewrite (center_line_ok _ _ _ Hc).
  unfold lift. rewrite snd_bind. cbn [snd].
  destruct (encodable _); reflexivity.
Qed.

Lemma string_ok (self : Printer) (text : str) (kw : kwargs) :
  kw_center kw = false -> kw_warning kw = false -> kw_error kw = false ->
  kw_wrapped kw = false ->
  exists s, string_ fill is_integer repr self text kw = inr s.
Proof.
  intros Hc Hw He Hwr. unfold string_.
  destruct (lines_ok self text kw Hw He Hwr) as [tspl ->]. simpl.
  assert (Hm : map_result (fun line => center_line repr kw line line) tspl
               = inr tspl).
  { induction tspl as [|x l IH]; simpl; [reflexivity|].
    rewrite (center_line_ok _ _ _ Hc), IH. reflexivity. }
  rewrite Hm. simpl. eauto.
Qed.

(** The text [prompt] goes on with, after [string]. *)
Lemma prompt_text_ok (self : Printer) (text : str) (wrap_length : option Z)
    (message_ : bool) :
  exists t,
    (if message_
     then lift (string_ fill is_integer repr self text {|
            kw_colorify := false; kw_center := false; kw_width := None;
            kw_warning := false; kw_error := false; kw_prefix := true;
            kw_color := []; kw_inline := false;
            kw_wrap_length := wrap_length;
            kw_wrapped := false; kw_master_only := true |})
     else (mret text : io str)) = mret t.
Proof.
  destruct message_; [|eexists; reflexivity].
  destruct (string_ok self text {|
              kw_colorify := false; kw_center := false; kw_width := None;
              kw_warning := false; kw_error := false; kw_prefix := true;
              kw_color := []; kw_inline := false;
              kw_wrap_length := wrap_length;
              kw_wrapped := false; kw_master_only := true |}
              eq_refl eq_refl eq_refl eq_refl) as [s Hs].
  exists s. rewrite Hs. reflexivity.
Qed.

(** When the choices are built and the width is above zero, [prompt]
    returns what [prompt_answer] makes of the line that was read. *)
Lemma prompt_returns_answer (self : Printer) (text : str)
    (wrap_length : option Z) (kind none_string : str)
    (options : option (list str)) (translate_ message_ : bool)
    (user_input choices : str) :
  prompt_choices kind none_string options = inr choices ->
  (0 < match wrap_length with
       | Some w =>
         if truthy (Some w) && is_integer w then w else _wrap_length self
       | None => _wrap_length self
       end)%Z ->
  snd (prompt fill is_integer is_integer_str int_of_str repr encodable
         translate self text wrap_length kind none_string options
         translate_ message_ user_input)
  = prompt_answer is_integer_str int_of_str kind options user_input.
Proof.
  intros Hch Hwl. unfold prompt. rewrite Hch, bind_lift_ok.
  destruct (prompt_text_ok self text wrap_length message_) as [t ->].
  rewrite bind_ret. cbv zeta.
  rewrite (snd_bind_ok _ _ tt).
  2:{ apply for_each_ok. intros txt.
      rewrite (textwrap_fill_wide _ _ _ Hwl), bind_lift_ok.
      apply prt_ok; reflexivity. }
  rewrite (textwrap_fill_wide _ _ _ Hwl), bind_lift_ok.
  rewrite (snd_bind_ok _ _ tt) by reflexivity.
  reflexivity.
Qed.

(** When the choices are built and the width is not above zero,
    [prompt] raises the error of [textwrap.fill] before it writes or
    reads anything. *)
Lemma prompt_narrow (self : Printer) (text : str)
    (wrap_length : option Z) (kind none_string : str)
    (options : option (list str)) (translate_ message_ : bool)
    (user_input choices : str) :
  prompt_choices kind none_string options = inr choices ->
  let wl :=
    match wrap_length with
    | Some w =>
      if truthy (Some w) && is_integer w then w else _wrap_length self
    | None => _wrap_length self
    end in
  (wl <= 0)%Z ->
  prompt fill is_integer is_integer_str int_of_str repr encodable
    translate self text wrap_length kind none_string options
    translate_ message_ user_input
  = ([], inl (ValueError (u "invalid width " ++ str_of_Z wl
                          ++ u " (must be > 0)"))).
Proof.
  intros Hch wl Hwl. unfold prompt. rewrite Hch, bind_lift_ok.
  destruct (prompt_text_ok self text wrap_length message_) as [t ->].
  rewrite bind_ret. cbv zeta. fold wl.
  destruct (removelast _) as [|txt rest].
  - cbn [for_each]. rewrite bind_ret.
    rewrite (textwrap_fill_narrow _ _ _ Hwl). reflexivity.
  - cbn [for_each]. rewrite (textwrap_fill_narrow txt _ false Hwl).
    reflexivity.
Qed.

End NoRaise.

(** ** The answers [prompt] accepts as yes (C4) *)

(** C4, as worded, fails: the answer YES equals yes without regard to
    case, and [prompt] returns false for it. *)
Lemma prompt_bool_upper_yes_is_false :
  ascii_lower (u "YES") = u "yes"
  /\ snd (prompt sample_fill sample_is_integer sample_is_integer_str
            sample_int_of_str sample_repr sample_encodable sample_translate
            (sample_printer false None) (u "Continue?") None (u "bool")
            (u "None of the above.") None true true (u "YES"))
     = inr (PBool false).
Proof. vm_compute. split; reflexivity. Qed.

(** C4, amended: [prompt] with kind bool returns true for exactly the
    answers Y, y, Yes and yes, and false for every other answer, when
    the width it wraps to is above zero; with any other width it raises
    the [ValueError] of [textwrap.fill] before anything is written or
    read. *)
Theorem prompt_bool_answers (fill : str -> Z -> bool -> str)
    (is_integer : Z -> bool) (is_integer_str : str -> bool)
    (int_of_str : str -> Z) (repr : str -> str) (encodable : str -> bool)
    (translate : str -> str) (self : Printer) (text : str)
    (wrap_length : option Z) (none_string : str)
    (options : option (list str)) (translate_ message_ : bool)
    (user_input : str) :
  let wl :=
    match wrap_length with
    | Some w =>
      if truthy (Some w) && is_integer w then w else _wrap_length self
    | None => _wrap_length self
    end in
  let asked :=
    prompt fill is_integer is_integer_str int_of_str repr encodable
      translate self text wrap_length (u "bool") none_string options
      translate_ message_ user_input in
  ((0 < wl)%Z ->
   exists b : bool,
     snd asked = inr (PBool b)
     /\ (b = true <->
         user_input = u "Y" \/ user_input = u "y" \/ user_input = u "Yes"
         \/ user_input = u "yes"))
  /\ ((wl <= 0)%Z ->
      asked = ([], inl (ValueError (u "invalid width " ++ str_of_Z wl
                                    ++ u " (must be > 0)")))).
Proof.
  intros wl asked. split.
  - intros Hwl.
    exists (str_in user_input [u "Y"; u "y"; u "Yes"; u "yes"]). split.
    + unfold asked.
      rewrite (prompt_returns_answer fill is_integer is_integer_str
                 int_of_str repr encodable translate self text wrap_length
                 (u "bool") none_string options translate_ message_
                 user_input (u " (y/[n])") eq_refl Hwl).
      reflexivity.
    + unfold str_in. simpl. rewrite !orb_true_iff, !str_eqb_eq.
      intuition congruence.
  - intros Hwl.
    apply (prompt_narrow fill is_integer is_integer_str int_of_str repr
             encodable translate self text wrap_length (u "bool")
             none_string options translate_ message_ user_input
             (u " (y/[n])") eq_refl Hwl).
Qed.

Lemma prompt_bool_answers_witness :
  (0 < _wrap_length (sample_printer false None))%Z
  /\ (exists b : bool,
        snd (prompt sample_fill sample_is_integer sample_is_integer_str
               sample_int_of_str sample_repr sample_encodable
               sample_translate (sample_printer false None)
               (u "Continue?") None (u "bool") (u "None of the above.")
               None true true (u "Yes")) = inr (PBool b)
        /\ (b = true <->
            u "Yes" = u "Y" \/ u "Yes" = u "y" \/ u "Yes" = u "Yes"
            \/ u "Yes" = u "yes"))
  /\ (_wrap_length sample_narrow_printer <= 0)%Z
  /\ prompt sample_fill sample_is_integer sample_is_integer_str
       sample_int_of_str sample_repr sample_encodable sample_translate
       sample_narrow_printer (u "Continue?") None (u "bool")
       (u "None of the above.") None true true (u "Yes")
     = ([], inl (ValueError (u "invalid width 0 (must be > 0)"))).
Proof.
  split; [reflexivity|]. split.
  - exact (proj1 (prompt_bool_answers sample_fill sample_is_integer
                    sample_is_integer_str sample_int_of_str sample_repr
                    sample_encodable sample_translate
                    (sample_printer false None) (u "Continue?") None
                    (u "None of the above.") None true true (u "Yes"))
             eq_refl).
  - split; [discriminate|].
    exact (proj2 (prompt_bool_answers sample_fill sample_is_integer
                    sample_is_integer_str sample_int_of_str sample_repr
                    sample_encodable sample_translate
                    sample_narrow_printer (u "Continue?") None
                    (u "None of the above.") None true true (u "Yes"))
             ltac:(discriminate)).
Defined.

(** ** Configuration errors (C7) *)

(** C7, as worded, fails: a quiet printer returns from [status] before it
    looks at [messages], so a value that is not a list raises nothing. *)
Lemma status_quiet_ignores_bad_messages :
  _quiet (sample_printer true None) = true
  /\ status sample_fill sample_is_integer sample_repr sample_encodable
       sample_pretty_num sample_WAIC sample_format_percent sample_congrid
       sample_np_log sample_np_max sample_np_percentile
       (sample_printer true None) [] None None None None None false
       None None false
     = ([], inr tt).
Proof. vm_compute. split; reflexivity. Qed.

Section ConfigurationErrors.

Variable fill : str -> Z -> bool -> str.
Variable is_integer : Z -> bool.
Variable is_integer_str : str -> bool.
Variable int_of_str : str -> Z.
Variable repr : str -> str.
Variable encodable : str -> bool.
Variable translate : str -> str.
Variable pretty_num : float -> nat -> str.
Variable calculate_WAIC : list (list float) -> float.
Variable format_percent : float -> str.
Variable congrid : list (list float) -> nat -> nat -> list (list float).
Variable np_log : list (list float) -> list (list float).
Variable np_max : list (list float) -> float.
Variable np_percentile : list (list float) -> Z -> float.

(** C7, amended: [prompt] called with a kind other than bool, select or
    string raises an error to the caller before anything is written or
    read, whatever the quiet and leader configuration; [status] called
    with messages that are not a list raises an error to the caller
    before anything is written whenever the printer is not quiet,
    whatever the leader configuration, and that error is the one about
    messages when the fitter is present and the earlier segments are
    built without an error; a quiet printer returns from [status]
    without raising. *)
Theorem configuration_errors_raised (self : Printer) (text : str)
    (wrap_length : option Z) (kind none_string : str)
    (options : option (list str)) (translate_ message_ : bool)
    (user_input desc : str) (scores : option (list (list float)))
    (accepts : option (list float)) (progress : option (Z * option Z))
    (acor : option (float * float * Z)) (psrf : option (float * Z))
    (fracking : bool) (kmat : option (list (list float)))
    (make_space : bool) :
  let status_bad_messages :=
    status fill is_integer repr encodable pretty_num calculate_WAIC
      format_percent congrid np_log np_max np_percentile self desc scores
      accepts progress acor psrf fracking None kmat make_space in
  (str_in kind [u "bool"; u "select"; u "string"] = false ->
   prompt fill is_integer is_integer_str int_of_str repr encodable
     translate self text wrap_length kind none_string options translate_
     message_ user_input
   = ([], inl (ValueError (u "Unknown prompt kind."))))
  /\ (_quiet self = false ->
      exists e : exn,
        status_bad_messages = ([], inl e)
        /\ forall (f : Fitter) (outarr : list str),
             _fitter self = Some f ->
             status_segments pretty_num calculate_WAIC format_percent self
               f desc scores accepts progress acor psrf fracking
             = inr outarr ->
             e = ValueError (u "`messages` must be list!"))
  /\ (_quiet self = true -> status_bad_messages = ([], inr tt)).
Proof.
  intros status_bad_messages. unfold status_bad_messages. repeat split.
  - intros Hkind. unfold str_in in Hkind. simpl in Hkind.
    rewrite !orb_false_iff in Hkind.
    destruct Hkind as (Hb & Hs & Hg & _).
    unfold prompt, prompt_choices. rewrite Hb, Hs, Hg. reflexivity.
  - intros Hq. unfold status. rewrite Hq.
    destruct (_fitter self) as [f|].
    + rewrite bind_ret.
      destruct (status_segments pretty_num calculate_WAIC format_percent
                  self f desc scores accepts progress acor psrf fracking)
        as [e|outarr] eqn:Hseg.
      * rewrite bind_lift_err. exists e. split; [reflexivity|].
        intros f' outarr' [= <-] H. congruence.
      * rewrite bind_lift_ok, bind_raise.
        exists (ValueError (u "`messages` must be list!")).
        split; reflexivity.
    + rewrite bind_raise. exists AttributeError. split; [reflexivity|].
      intros f outarr H. discriminate.
  - intros Hq. unfold status. rewrite Hq. reflexivity.
Qed.

End ConfigurationErrors.

Lemma configuration_errors_raised_witness :
  let loud := sample_printer false (Some (sample_fitter 10 0 true)) in
  let status_of self :=
    status sample_fill sample_is_integer sample_repr sample_encodable
      sample_pretty_num sample_WAIC sample_format_percent sample_congrid
      sample_np_log sample_np_max sample_np_percentile self [] None None
      None None None false None None false in
  str_in (u "maybe") [u "bool"; u "select"; u "string"] = false
  /\ _quiet (sample_printer true None) = true
  /\ _quiet loud = false
  /\ prompt sample_fill sample_is_integer sample_is_integer_str
       sample_int_of_str sample_repr sample_encodable sample_translate
       (sample_printer true None) (u "Continue?") None (u "maybe")
       (u "None of the above.") None true true (u "y")
     = ([], inl (ValueError (u "Unknown prompt kind.")))
  /\ status_of (sample_printer true None) = ([], inr tt)
  /\ exists e : exn, status_of loud = ([], inl e).
Proof.
  intros loud status_of.
  split; [reflexivity|]. split; [reflexivity|]. split; [reflexivity|].
  pose proof (configuration_errors_raised sample_fill sample_is_integer
                sample_is_integer_str sample_int_of_str sample_repr
                sample_encodable sample_translate sample_pretty_num
                sample_WAIC sample_format_percent sample_congrid
                sample_np_log sample_np_max sample_np_percentile
                (sample_printer true None) (u "Continue?") None (u "maybe")
                (u "None of the above.") None true true (u "y") [] None
                None None None None false None false) as (Hp & _ & Hs).
  pose proof (configuration_errors_raised sample_fill sample_is_integer
                sample_is_integer_str sample_int_of_str sample_repr
                sample_encodable sample_translate sample_pretty_num
                sample_WAIC sample_format_percent sample_congrid
                sample_np_log sample_np_max sample_np_percentile
                loud (u "Continue?") None (u "maybe")
                (u "None of the above.") None true true (u "y") [] None
                None None None None false None false) as (_ & Hl & _).
  split; [exact (Hp eq_refl)|]. split; [exact (Hs eq_refl)|].
  destruct (Hl eq_refl) as (e & He & _). exists e. exact He.
Defined.

(** ** The dependency tree of one root with two leaves (C9) *)

(** C9: for the forest with root A and children B and C, the output has
    exactly one corner glyph, on the line of C, exactly one branch
    glyph, on the line of B, no bar; the line of A has the left margin
    and no connector, and the lines of B and C have the margin and one
    connector before the label. *)
Theorem tree_root_two_leaves :
  let forest := [(u "A", Node [(u "B", Node []); (u "C", Node [])])] in
  let lines := tree_lines (u "A") (Node [(u "B", Node []); (u "C", Node [])]) in
  lines = [u "  A:"; u "  ├ B"; u "  └ C"]
  /\ List.map (count [BOX_UR]) lines = [0; 0; 1]
  /\ List.map (count [BOX_VR]) lines = [0; 1; 0]
  /\ List.map (count [BOX_V]) lines = [0; 0; 0]
  /\ lines = [u "  " ++ u "A:";
              u "  " ++ [BOX_VR; 32%N] ++ u "B";
              u "  " ++ [BOX_UR; 32%N] ++ u "C"]
  /\ tree sample_fill sample_is_integer sample_repr sample_encodable
       (sample_printer false None) forest
     = ([Stdout (u "  A:" ++ [10%N]); Stdout (u "  ├ B" ++ [10%N]);
         Stdout (u "  └ C" ++ [10%N])], inr tt).
Proof. vm_compute. repeat split; reflexivity. Qed.

(** ** The glyph of a heat map cell (C8) *)

(** The glyph [ascii_fill] returns for a value that is not NaN. *)
Lemma ascii_fill_glyph (p20 p50 p80 v : float) :
  isnan v = false ->
  ascii_fill v [p20; p50; p80]
  = inr (glyph_char
           (if (v <? p20)%float then BLANK
            else if (v <? p50)%float then LOW
            else if (v <? p80)%float then MID else HIGH)).
Proof.
  intros Hnan. unfold ascii_fill. rewrite Hnan. simpl.
  destruct (v <? p20)%float; [reflexivity|]. simpl.
  destruct (v <? p50)%float; [reflexivity|]. simpl.
  destruct (v <? p80)%float; reflexivity.
Qed.

(** C8: for all thresholds, and so for every triple in increasing order
    and for three equal thresholds, the glyph is monotonic in the cell
    value under the order BLANK, LOW, MID, HIGH, and a NaN cell yields
    BLANK. *)
Theorem ascii_fill_monotone (p20 p50 p80 x y : float) :
  ((x <=? y)%float = true ->
   exists gx gy : Glyph,
     ascii_fill x [p20; p50; p80] = inr (glyph_char gx)
     /\ ascii_fill y [p20; p50; p80] = inr (glyph_char gy)
     /\ glyph_rank gx <= glyph_rank gy)
  /\ (isnan x = true ->
      ascii_fill x [p20; p50; p80] = inr (glyph_char BLANK)
      /\ ascii_fill x [p20; p20; p20] = inr (glyph_char BLANK)).
Proof.
  split.
  - intros Hxy. destruct (fleb_not_nan x y Hxy) as [Hx Hy].
    rewrite (ascii_fill_glyph _ _ _ x Hx), (ascii_fill_glyph _ _ _ y Hy).
    eexists _, _. split; [reflexivity|]. split; [reflexivity|].
    pose proof (fleb_fltb_trans x y p20 Hxy) as H20.
    pose proof (fleb_fltb_trans x y p50 Hxy) as H50.
    pose proof (fleb_fltb_trans x y p80 Hxy) as H80.
    destruct (y <? p20)%float; [rewrite (H20 eq_refl); simpl; lia|].
    destruct (y <? p50)%float;
      [rewrite (H50 eq_refl); destruct (x <? p20)%float; simpl; lia|].
    destruct (y <? p80)%float;
      [rewrite (H80 eq_refl);
       destruct (x <? p20)%float, (x <? p50)%float; simpl; lia|].
    destruct (x <? p20)%float, (x <? p50)%float, (x <? p80)%float;
      simpl; lia.
  - intros Hnan. unfold ascii_fill. rewrite Hnan. split; reflexivity.
Qed.

Lemma ascii_fill_monotone_witness :
  (0.25 <=? 0.75)%float = true
  /\ isnan nan = true
  /\ (exists gx gy : Glyph,
        ascii_fill 0.25 [0.5; 0.5; 0.5]%float = inr (glyph_char gx)
        /\ ascii_fill 0.75 [0.5; 0.5; 0.5]%float = inr (glyph_char gy)
        /\ glyph_rank gx <= glyph_rank gy)
  /\ ascii_fill nan [0.5; 0.5; 0.5]%float = inr (glyph_char BLANK).
Proof.
  split; [reflexivity|]. split; [reflexivity|]. split.
  - exact (proj1 (ascii_fill_monotone 0.5 0.5 0.5 0.25 0.75) eq_refl).
  - exact (proj1 (proj2 (ascii_fill_monotone 0.5 0.5 0.5 nan nan) eq_refl)).
Defined.

(** ** Formatting the placeholder for a missing message *)

Lemma app_ok_nil (r : result str) : app_ok [] r = r.
Proof. destruct r; reflexivity. Qed.

Lemma app_ok_cons (c : char) (p : str) (r : result str) :
  app_ok (c :: p) r = cons_ok c (app_ok p r).
Proof. destruct r; reflexivity. Qed.

Lemma app_ok_app (p q : str) (r : result str) :
  app_ok (p ++ q) r = app_ok p (app_ok q r).
Proof.
  destruct r; simpl; [reflexivity|]. unfold ok. rewrite <- app_assoc.
  reflexivity.
Qed.

Lemma format_from_text (p rest : str) (args : list str) (num : numbering) :
  brace_free p = true ->
  format_from args num FText (p ++ rest)
  = app_ok p (format_from args num FText rest).
Proof.
  induction p as [|c p IH]; simpl; intros H.
  - rewrite app_ok_nil. reflexivity.
  - apply andb_true_iff in H as [Hc Hp].
    apply andb_true_iff in Hc as [H1 H2].
    rewrite negb_true_iff in H1, H2. rewrite H1, H2, (IH Hp).
    rewrite app_ok_cons. reflexivity.
Qed.

Lemma field_value_auto (args : list str) (k : nat) (a : str) :
  args !! k = Some a ->
  field_value args (num_at k) [] = inr (a, NumAuto (S k)).
Proof. destruct k; simpl; intros ->; reflexivity. Qed.

Lemma format_slots (rest : list str) :
  forall (done : list str) (suffix : str),
    format_from (done ++ rest) (num_at (length done)) FText
      (join (u " ") (repeat (u "{}") (length rest)) ++ suffix)
    = app_ok (join (u " ") rest)
        (format_from (done ++ rest) (num_at (length done + length rest))
           FText suffix).
Proof.
  induction rest as [|a rest IH]; intros done suffix.
  - simpl. rewrite Nat.add_0_r, app_ok_nil. reflexivity.
  - assert (Ha : (done ++ a :: rest) !! length done = Some a).
    { rewrite lookup_app_r by lia. rewrite Nat.sub_diag. reflexivity. }
    destruct rest as [|b rest'].
    + change (join (u " ") (repeat (u "{}") (length [a])) ++ suffix)
        with (123%N :: 125%N :: suffix).
      cbn [format_from chr_eqb N.eqb Pos.eqb].
      rewrite (field_value_auto _ _ _ Ha).
      simpl length. replace (length done + 1) with (S (length done)) by lia.
      reflexivity.
    + change (join (u " ") (repeat (u "{}") (length (a :: b :: rest')))
              ++ suffix)
        with (123%N :: 125%N :: 32%N ::
              (join (u " ") (repeat (u "{}") (length (b :: rest')))
               ++ suffix)).
      cbn [format_from chr_eqb N.eqb Pos.eqb].
      rewrite (field_value_auto _ _ _ Ha).
      specialize (IH (done ++ [a]) suffix).
      replace ((done ++ [a]) ++ b :: rest') with (done ++ a :: b :: rest')
        in IH by (rewrite <- app_assoc; reflexivity).
      replace (length (done ++ [a])) with (S (length done)) in IH
        by (rewrite length_app; simpl; lia).
      change (num_at (S (length done))) with (NumAuto (S (length done)))
        in IH.
      rewrite IH.
      replace (S (length done) + length (b :: rest'))
        with (length done + length (a :: b :: rest')) by (simpl; lia).
      change (join (u " ") (a :: b :: rest'))
        with (a ++ [32%N] ++ join (u " ") (b :: rest')).
      rewrite app_ok_app, (app_ok_app [32%N]), app_ok_cons, app_ok_nil.
      reflexivity.
Qed.

Lemma join_nil_concat (l : list str) : join [] l = concat l.
Proof.
  induction l as [|x [|y r] IH]; [reflexivity| |].
  - simpl. rewrite app_nil_r. reflexivity.
  - change (join [] (x :: y :: r)) with (x ++ [] ++ join [] (y :: r)).
    rewrite IH. reflexivity.
Qed.

Lemma concat_map_const (s : str) (n a : nat) :
  concat (List.map (fun _ => s) (seq a n)) = concat (repeat s n).
Proof.
  revert a. induction n as [|n IH]; intros a; simpl; [reflexivity|].
  rewrite IH. reflexivity.
Qed.

Lemma slots_snoc (n : nat) :
  exists w,
    join (u " ") (repeat (u "{}") (S n)) = 123%N :: w ++ [125%N]
    /\ concat (repeat (u "{} ") (S n)) = 123%N :: w ++ [125%N; 32%N].
Proof.
  induction n as [|n (w & Hj & Hc)].
  - exists []. split; reflexivity.
  - exists (125%N :: 32%N :: 123%N :: w). split.
    + change (join (u " ") (repeat (u "{}") (S (S n))))
        with ([123%N; 125%N; 32%N] ++ join (u " ") (repeat (u "{}") (S n))).
      rewrite Hj. reflexivity.
    + change (concat (repeat (u "{} ") (S (S n))))
        with ([123%N; 125%N; 32%N] ++ concat (repeat (u "{} ") (S n))).
      rewrite Hc. reflexivity.
Qed.

Lemma slots_text (n : nat) :
  strip (join [] (List.map (fun _ => u "{} ") (seq 0 n)))
  = join (u " ") (repeat (u "{}") n).
Proof.
  rewrite join_nil_concat, concat_map_const.
  destruct n as [|n]; [reflexivity|].
  destruct (slots_snoc n) as (w & -> & ->).
  unfold strip, rstrip_by.
  change (lstrip_by isspace (123%N :: w ++ [125%N; 32%N]))
    with (123%N :: w ++ [125%N; 32%N]).
  change (123%N :: w ++ [125%N; 32%N])
    with ((123%N :: w) ++ [125%N; 32%N]).
  rewrite rev_app_distr.
  change (rev [125%N; 32%N] ++ rev (123%N :: w))
    with (32%N :: 125%N :: rev (123%N :: w)).
  change (lstrip_by isspace (32%N :: 125%N :: rev (123%N :: w)))
    with (125%N :: rev (123%N :: w)).
  change (125%N :: rev (123%N :: w)) with (rev [125%N] ++ rev (123%N :: w)).
  rewrite <- rev_app_distr, rev_involutive. reflexivity.
Qed.

Lemma count_text (p rest : str) :
  brace_free p = true ->
  count_from (u "{}") 0 (p ++ rest) = count_from (u "{}") 0 rest.
Proof.
  intros Hp. induction p as [|c p IH]; [reflexivity|].
  simpl in Hp. apply andb_true_iff in Hp as [Hc Hp].
  apply andb_true_iff in Hc as [H1 _]. rewrite negb_true_iff in H1.
  change (u "{}") with [123%N; 125%N] in *.
  change ((c :: p) ++ rest) with (c :: (p ++ rest)).
  cbn [count_from startswith].
  replace (chr_eqb 123 c) with false
    by (unfold chr_eqb in *; rewrite N.eqb_sym; auto).
  cbn [andb]. apply IH, Hp.
Qed.

Lemma count_slots (n : nat) (suffix : str) :
  brace_free suffix = true ->
  count_from (u "{}") 0 (join (u " ") (repeat (u "{}") n) ++ suffix) = n.
Proof.
  intros Hs. induction n as [|[|n] IH].
  - change (join (u " ") (repeat (u "{}") 0) ++ suffix) with suffix.
    rewrite <- (app_nil_r suffix), (count_text _ _ Hs). reflexivity.
  - change (join (u " ") (repeat (u "{}") 1) ++ suffix)
      with (123%N :: 125%N :: suffix).
    change (join (u " ") (repeat (u "{}") 0) ++ suffix) with suffix in IH.
    change (u "{}") with [123%N; 125%N] in *.
    cbn [count_from startswith chr_eqb N.eqb Pos.eqb andb length Nat.sub].
    rewrite IH. reflexivity.
  - change (join (u " ") (repeat (u "{}") (S (S n))) ++ suffix)
      with (123%N :: 125%N :: 32%N ::
            (join (u " ") (repeat (u "{}") (S n)) ++ suffix)).
    change (u "{}") with [123%N; 125%N] in *.
    cbn [count_from startswith chr_eqb N.eqb Pos.eqb andb length Nat.sub].
    rewrite IH. reflexivity.
Qed.

(** ** Packing segments into lines (C3) *)

Lemma join_snoc (sep : str) (l : list str) (x : str) :
  join sep (l ++ [x])
  = join sep l ++ (if 0 <? length l then sep else []) ++ x.
Proof.
  induction l as [|a [|b l] IH].
  - reflexivity.
  - simpl. reflexivity.
  - change (join sep ((a :: b :: l) ++ [x]))
      with (a ++ sep ++ join sep ((b :: l) ++ [x])).
    rewrite IH.
    change (join sep (a :: b :: l)) with (a ++ sep ++ join sep (b :: l)).
    simpl length. cbn [Nat.ltb Nat.leb].
    rewrite <- !app_assoc. reflexivity.
Qed.

Lemma render_groups_snoc (closed : list (list str)) (cur : list str) :
  render_groups (closed ++ [cur])
  = render_groups closed ++ [10%N] ++ join (u " | ") cur.
Proof.
  unfold render_groups. rewrite map_app, concat_app. simpl.
  rewrite app_nil_r. reflexivity.
Qed.

Section Packing.

Variable width : Z.

(** The loop on text and the loop on segments run in step. *)
Lemma pack_step_groups (items cur : list str) (closed : list (list str)) :
  fold_left (pack_step width) items
    (join (u " | ") cur, render_groups closed, length cur)
  = (let '(cur', closed') :=
       fold_left (group_step width) items (cur, closed) in
     (join (u " | ") cur', render_groups closed', length cur')).
Proof.
  revert cur closed. induction items as [|item items IH]; intros cur closed.
  - reflexivity.
  - cbn [fold_left]. unfold pack_step at 2, group_step at 2.
    rewrite join_snoc.
    match goal with
    | |- context [if (width <? ?len)%Z then _ else _] =>
        destruct (width <? len)%Z
    end.
    + rewrite <- (IH [item] (closed ++ [cur])).
      rewrite render_groups_snoc. reflexivity.
    + rewrite <- (IH (cur ++ [item]) closed).
      rewrite join_snoc, length_app. reflexivity.
Qed.

Lemma status_pack_groups (items : list str) :
  status_pack width items = render_groups (pack_groups width items).
Proof.
  unfold status_pack, pack_groups.
  pose proof (pack_step_groups items [] []) as H.
  change (join (u " | ") [], render_groups [], length (@nil str))
    with (@nil N, @nil N, 0) in H.
  rewrite H.
  destruct (fold_left (group_step width) items ([], [])) as [cur closed].
  rewrite render_groups_snoc. reflexivity.
Qed.

Lemma group_step_fits (items cur : list str) (closed : list (list str)) :
  line_fits width cur ->
  (forall g, In g closed -> line_fits width g) ->
  forall cur' closed',
    fold_left (group_step width) items (cur, closed) = (cur', closed') ->
    line_fits width cur'
    /\ (forall g, In g closed' -> line_fits width g)
    /\ concat (closed' ++ [cur']) = concat (closed ++ [cur]) ++ items.
Proof.
  revert cur closed. induction items as [|item items IH];
    intros cur closed Hcur Hclosed cur' closed' Hfold.
  - simpl in Hfold. injection Hfold as <- <-.
    rewrite app_nil_r. auto.
  - cbn [fold_left] in Hfold. unfold group_step at 2 in Hfold.
    destruct (width <? Z.of_nat (length (join (u " | ") (cur ++ [item]))))%Z
      eqn:Hover.
    + apply IH in Hfold.
      * destruct Hfold as (H1 & H2 & H3). split; [exact H1|].
        split; [exact H2|]. rewrite H3.
        rewrite !concat_app. simpl. rewrite !app_nil_r, <- !app_assoc.
        reflexivity.
      * destruct (Z.le_gt_cases (Z.of_nat (length item)) width) as [Hle|Hgt].
        -- left. exact Hle.
        -- right. exists item. split; [reflexivity|lia].
      * intros g Hg. apply in_app_iff in Hg as [Hg|[<-|[]]]; auto.
    + apply IH in Hfold.
      * destruct Hfold as (H1 & H2 & H3). split; [exact H1|].
        split; [exact H2|]. rewrite H3.
        rewrite !concat_app. simpl. rewrite !app_nil_r, <- !app_assoc.
        reflexivity.
      * left. apply Z.ltb_ge in Hover. exact Hover.
      * exact Hclosed.
Qed.

End Packing.

Lemma strip_markers_length (s : str) :
  length (strip_markers s) <= length s
  /\ forall a, length (strip_markers (a :: s)) <= S (length s).
Proof.
  induction s as [|b s [IH1 IH2]].
  - split; [reflexivity|]. intros a. reflexivity.
  - split; [apply IH2|]. intros a.
    change (strip_markers (a :: b :: s))
      with (if is_marker a b then strip_markers s
            else a :: strip_markers (b :: s)).
    destruct (is_marker a b).
    + simpl length. lia.
    + simpl length. specialize (IH2 b). simpl length in IH2. lia.
Qed.

Lemma visible_width_le (s : str) : visible_width s <= length s.
Proof. apply strip_markers_length. Qed.

Lemma length_member_join (sep s : str) (g : list str) :
  In s g -> length s <= length (join sep g).
Proof.
  induction g as [|a [|b g] IH]; intros Hin.
  - destruct Hin.
  - destruct Hin as [<-|[]]. simpl. lia.
  - change (join sep (a :: b :: g)) with (a ++ sep ++ join sep (b :: g)).
    rewrite !length_app. destruct Hin as [<-|Hin]; [lia|].
    specialize (IH Hin). lia.
Qed.

(** C3: for every wrap width of at least 1 and every list of segments,
    the text [status] packs is the lines of [pack_groups], each preceded
    by a line feed; the lines hold the segments in order, each segment
    whole and on one line; no line is wider on the terminal than the
    width, except a line that is one segment wider than the width by
    itself; and a segment wider than the width is alone on its line. *)
Theorem status_pack_within_width (width : Z) (outarr : list str) :
  (1 <= width)%Z ->
  let lines := pack_groups width outarr in
  status_pack width outarr = render_groups lines
  /\ concat lines = outarr
  /\ (forall g, In g lines ->
        (Z.of_nat (visible_width (join (u " | ") g)) <= width)%Z
        \/ exists s, g = [s] /\ (width < Z.of_nat (visible_width s))%Z)
  /\ (forall g s, In g lines -> In s g ->
        (width < Z.of_nat (visible_width s))%Z -> g = [s]).
Proof.
  intros Hwidth lines. unfold lines.
  split; [apply status_pack_groups|].
  unfold pack_groups.
  destruct (fold_left (group_step width) outarr ([], [])) as [cur closed]
    eqn:Hfold.
  apply group_step_fits in Hfold.
  2:{ left. simpl. lia. }
  2:{ intros g []. }
  destruct Hfold as (Hcur & Hclosed & Hconcat).
  assert (Hall : forall g, In g (closed ++ [cur]) -> line_fits width g).
  { intros g Hg. apply in_app_iff in Hg as [Hg|[<-|[]]]; auto. }
  split; [exact Hconcat|]. split.
  - intros g Hg. destruct (Hall g Hg) as [Hle|(s & -> & Hs)].
    + left. pose proof (visible_width_le (join (u " | ") g)). lia.
    + destruct (Z.le_gt_cases (Z.of_nat (visible_width s)) width) as [H|H].
      * left. exact H.
      * right. exists s. split; [reflexivity|lia].
  - intros g s Hg Hs Hwide.
    pose proof (visible_width_le s) as Hv.
    pose proof (length_member_join (u " | ") s g Hs) as Hj.
    destruct (Hall g Hg) as [Hle|(s' & -> & _)]; [lia|].
    destruct Hs as [<-|[]]. reflexivity.
Qed.

Lemma status_pack_within_width_witness :
  (1 <= 10)%Z
  /\ status_pack 10 [u "abc"; u "!rdefg!e"; u "0123456789012"; u "z"]
     = render_groups [[u "abc"]; [u "!rdefg!e"]; [u "0123456789012"];
                      [u "z"]].
Proof.
  split; [lia|].
  exact (proj1 (status_pack_within_width 10
                  [u "abc"; u "!rdefg!e"; u "0123456789012"; u "z"]
                  ltac:(lia))).
Defined.

(** ** [colorify] is idempotent (C10) *)

Lemma str_ind2 (P : str -> Prop) :
  P [] -> (forall x, P [x]) ->
  (forall x y s, P s -> P (y :: s) -> P (x :: y :: s)) ->
  forall s, P s.
Proof.
  intros H0 H1 H2 s.
  assert (H : P s /\ forall x, P (x :: s)).
  { induction s as [|y s [IHs IHc]]; [auto|].
    split; [apply IHc|]. intros x. apply H2; auto. }
  apply H.
Qed.

Lemma chr_eqb_sym (a b : char) : chr_eqb a b = chr_eqb b a.
Proof. apply N.eqb_sym. Qed.

Lemma chr_eqb_false (a b : char) : chr_eqb a b = false <-> a <> b.
Proof. apply N.eqb_neq. Qed.

Lemma replace_from_start (old new : str) (c : char) (s : str) :
  replace_from old new None 0 (c :: s)
  = if startswith old (c :: s)
    then new ++ replace_from old new None (length old - 1) s
    else c :: replace_from old new None 0 s.
Proof. reflexivity. Qed.

(** [replace] with a marker of two characters reads two at a time. *)
Lemma replace_pair (a b : char) (new s : str) :
  replace [a; b] new s = replace2 a b new s.
Proof.
  unfold replace, replace_n.
  induction s as [|x|x y s IHs IHys] using str_ind2.
  - reflexivity.
  - cbn [replace_from replace2 startswith count_left andb].
    rewrite andb_false_r. reflexivity.
  - rewrite replace_from_start.
    change (startswith [a; b] (x :: y :: s))
      with (chr_eqb a x && (chr_eqb b y && true)).
    change (replace_from [a; b] new None (length [a; b] - 1) (y :: s))
      with (replace_from [a; b] new None 0 s).
    change (replace2 a b new (x :: y :: s))
      with (if chr_eqb a x && chr_eqb b y then new ++ replace2 a b new s
            else x :: replace2 a b new (y :: s)).
    rewrite andb_true_r.
    destruct (chr_eqb a x && chr_eqb b y).
    + rewrite IHs. reflexivity.
    + rewrite IHys. reflexivity.
Qed.

Lemma has_pair_cons2 (a b x y : char) (s : str) :
  has_pair a b (x :: y :: s)
  = (chr_eqb x a && chr_eqb y b) || has_pair a b (y :: s).
Proof. reflexivity. Qed.

Lemma has_pair_tail (a b x : char) (s : str) :
  has_pair a b (x :: s) = false -> has_pair a b s = false.
Proof.
  destruct s as [|y s]; [reflexivity|].
  rewrite has_pair_cons2. intros H. apply orb_false_iff in H. apply H.
Qed.

Lemma has_pair_cons_other (a b x : char) (s : str) :
  chr_eqb x a = false -> has_pair a b (x :: s) = has_pair a b s.
Proof.
  intros Hx. destruct s as [|y s]; [reflexivity|].
  rewrite has_pair_cons2, Hx. reflexivity.
Qed.

Lemma has_pair_app_notin (a b : char) (l s : str) :
  chr_in a l = false -> has_pair a b (l ++ s) = has_pair a b s.
Proof.
  induction l as [|x l IH]; intros Hl; [reflexivity|].
  unfold chr_in in Hl. cbn [existsb] in Hl.
  apply orb_false_iff in Hl as [Hx Hl].
  change ((x :: l) ++ s) with (x :: (l ++ s)).
  rewrite has_pair_cons_other by (rewrite chr_eqb_sym; exact Hx).
  apply IH, Hl.
Qed.

(** A text without the marker is left as it is. *)
Lemma replace2_id (a b : char) (new s : str) :
  has_pair a b s = false -> replace2 a b new s = s.
Proof.
  induction s as [|x|x y s IHs IHys] using str_ind2; intros H.
  - reflexivity.
  - reflexivity.
  - rewrite has_pair_cons2 in H. apply orb_false_iff in H as [Hm Hrest].
    change (replace2 a b new (x :: y :: s))
      with (if chr_eqb a x && chr_eqb b y then new ++ replace2 a b new s
            else x :: replace2 a b new (y :: s)).
    rewrite (chr_eqb_sym a x), (chr_eqb_sym b y), Hm, (IHys Hrest).
    reflexivity.
Qed.

(** Replacing the marker [a c] leaves no pair [a d] behind, after any
    character [p] that does not start a marker with the text, when [d]
    is [c] or the text had no pair [a d]. *)
Lemma replace2_free (a c d n0 : char) (nrest : str) :
  chr_in a (n0 :: nrest) = false -> chr_eqb n0 d = false ->
  forall (s : str) (p : char),
    (d = c \/ has_pair a d (p :: s) = false) ->
    ~ (p = a /\ exists t, s = c :: t) ->
    has_pair a d (p :: replace2 a c (n0 :: nrest) s) = false.
Proof.
  intros Hnew Hn0.
  assert (Hn0a : chr_eqb n0 a = false).
  { unfold chr_in in Hnew. cbn [existsb] in Hnew.
    apply orb_false_iff in Hnew as [H _]. rewrite chr_eqb_sym. exact H. }
  induction s as [|x|x y s IHs IHys] using str_ind2; intros p Hd Hp.
  - reflexivity.
  - change (replace2 a c (n0 :: nrest) [x]) with [x].
    destruct Hd as [->|Hd]; [|exact Hd].
    rewrite has_pair_cons2. cbn [has_pair]. rewrite orb_false_r.
    apply andb_false_iff.
    destruct (chr_eqb p a) eqn:Epa; [right|left; reflexivity].
    apply chr_eqb_false. intros ->. apply Hp. split.
    + apply chr_eqb_eq, Epa.
    + eauto.
  - change (replace2 a c (n0 :: nrest) (x :: y :: s))
      with (if chr_eqb a x && chr_eqb c y
            then (n0 :: nrest) ++ replace2 a c (n0 :: nrest) s
            else x :: replace2 a c (n0 :: nrest) (y :: s)).
    destruct (chr_eqb a x && chr_eqb c y) eqn:M.
    + change (p :: (n0 :: nrest) ++ replace2 a c (n0 :: nrest) s)
        with (p :: n0 :: (nrest ++ replace2 a c (n0 :: nrest) s)).
      rewrite has_pair_cons2, Hn0, andb_false_r. cbn [orb].
      change (n0 :: nrest ++ replace2 a c (n0 :: nrest) s)
        with ((n0 :: nrest) ++ replace2 a c (n0 :: nrest) s).
      rewrite (has_pair_app_notin _ _ _ _ Hnew).
      apply (has_pair_tail a d n0). apply IHs.
      * destruct Hd as [Hd|Hd]; [left; exact Hd|right].
        rewrite (has_pair_cons_other _ _ _ _ Hn0a).
        apply (has_pair_tail a d y), (has_pair_tail a d x),
          (has_pair_tail a d p), Hd.
      * intros [Heq _]. apply chr_eqb_false in Hn0a. auto.
    + rewrite has_pair_cons2. apply orb_false_iff. split.
      * destruct Hd as [->|Hd].
        -- apply andb_false_iff.
           destruct (chr_eqb p a) eqn:Epa; [right|left; reflexivity].
           apply chr_eqb_false. intros ->. apply Hp. split.
           ++ apply chr_eqb_eq, Epa.
           ++ eauto.
        -- rewrite has_pair_cons2 in Hd. apply orb_false_iff in Hd. apply Hd.
      * apply IHys.
        -- destruct Hd as [Hd|Hd]; [left; exact Hd|right].
           apply (has_pair_tail a d p), Hd.
        -- intros [-> [t [= -> _]]].
           rewrite !(proj2 (chr_eqb_eq _ _) eq_refl) in M. discriminate.
Qed.

Lemma replace2_removes (a c d n0 : char) (nrest s : str) :
  chr_in a (n0 :: nrest) = false -> chr_eqb n0 d = false ->
  d = c \/ has_pair a d s = false ->
  has_pair a d (replace2 a c (n0 :: nrest) s) = false.
Proof.
  intros Hnew Hn0 Hd.
  assert (Hn0a : chr_eqb n0 a = false).
  { unfold chr_in in Hnew. cbn [existsb] in Hnew.
    apply orb_false_iff in Hnew as [H _]. rewrite chr_eqb_sym. exact H. }
  apply (has_pair_tail a d n0).
  apply (replace2_free a c d n0 nrest Hnew Hn0).
  - destruct Hd as [Hd|Hd]; [left; exact Hd|right].
    rewrite (has_pair_cons_other _ _ _ _ Hn0a). exact Hd.
  - intros [Heq _]. apply chr_eqb_false in Hn0a. auto.
Qed.

(** Replacing the markers of a list of codes, in turn, leaves no pair of
    an exclamation mark and [d], when [d] is the letter of one of the
    codes or the text had no such pair. *)
Lemma fold_replace_free (d : char) (codes : list (str * str)) :
  forall t : str,
    forallb (code_ok d) codes = true ->
    existsb (fun code => str_eqb (fst code) [33%N; d]) codes = true
    \/ has_pair 33 d t = false ->
    has_pair 33 d
      (fold_left (fun output code => replace (fst code) (snd code) output)
                 codes t) = false.
Proof.
  induction codes as [|code codes IH]; intros t Hok Hd.
  - destruct Hd as [Hd|Hd]; [discriminate|exact Hd].
  - cbn [forallb] in Hok. apply andb_true_iff in Hok as [Hcode Hok].
    cbn [fold_left]. apply IH; [exact Hok|].
    destruct code as [[|a [|c [|? ?]]] [|n0 nrest]]; try discriminate.
    cbn [code_ok] in Hcode.
    apply andb_true_iff in Hcode as [Hcode Hn0].
    apply andb_true_iff in Hcode as [Ha Hnew].
    apply chr_eqb_eq in Ha. subst a.
    apply negb_true_iff in Hnew, Hn0.
    cbn [fst snd]. rewrite replace_pair.
    cbn [existsb fst] in Hd.
    destruct (str_eqb [33%N; c] [33%N; d]) eqn:Ecd.
    + right. apply str_eqb_eq in Ecd. injection Ecd as Ecd.
      apply replace2_removes; auto.
    + destruct Hd as [Hd|Hd]; [left; exact Hd|right].
      apply replace2_removes; auto.
Qed.

Lemma colorify_free (t : str) (d : char) :
  forallb (code_ok d) ansi.codes = true ->
  existsb (fun code => str_eqb (fst code) [33%N; d]) ansi.codes = true ->
  has_pair 33 d (colorify t) = false.
Proof.
  intros Hok Hd. unfold colorify. apply fold_replace_free; auto.
Qed.

Lemma colorify_marker_free (t : str) : marker_free (colorify t) = true.
Proof.
  unfold marker_free, ansi.codes. cbn [forallb fst].
  rewrite !colorify_free by reflexivity. reflexivity.
Qed.

(** A text without markers is left as it is. *)
Lemma colorify_id (s : str) : marker_free s = true -> colorify s = s.
Proof.
  unfold marker_free, colorify, ansi.codes. cbn [forallb fold_left fst snd].
  rewrite !andb_true_iff, !negb_true_iff.
  intros (Hb & Hc & He & Hg & Hm & Ho & Hr & Hu & Hy & _).
  rewrite !replace_pair.
  rewrite (replace2_id _ _ _ _ Hb), (replace2_id _ _ _ _ Hc),
    (replace2_id _ _ _ _ He), (replace2_id _ _ _ _ Hg),
    (replace2_id _ _ _ _ Hm), (replace2_id _ _ _ _ Ho),
    (replace2_id _ _ _ _ Hr), (replace2_id _ _ _ _ Hu),
    (replace2_id _ _ _ _ Hy).
  reflexivity.
Qed.

(** C10: [colorify] is idempotent, for every text; what it returns holds
    no marker, and no escape sequence holds an exclamation mark. *)
Theorem colorify_idempotent (t : str) :
  colorify (colorify t) = colorify t
  /\ marker_free (colorify t) = true
  /\ forallb (fun code => negb (chr_in 33 (snd code))) ansi.codes = true.
Proof.
  split; [apply colorify_id, colorify_marker_free|].
  split; [apply colorify_marker_free|reflexivity].
Qed.

(** ** Who writes: quiet printers, workers, and printing in place *)

Lemma for_each_trace {A} (l : list A) (body : A -> io unit)
    (out : A -> list event) :
  (forall x, body x = (out x, inr tt)) ->
  for_each l body = (concat (List.map out l), inr tt).
Proof.
  intros Hbody. induction l as [|x l IH]; [reflexivity|].
  cbn [for_each List.map concat]. rewrite Hbody, IH.
  unfold mbind, io_bind. reflexivity.
Qed.

Section Silence.

Variable fill : str -> Z -> bool -> str.
Variable is_integer : Z -> bool.
Variable repr : str -> str.
Variable encodable : str -> bool.
Variable pretty_num : float -> nat -> str.
Variable calculate_WAIC : list (list float) -> float.
Variable format_percent : float -> str.
Variable congrid : list (list float) -> nat -> nat -> list (list float).
Variable np_log : list (list float) -> list (list float).
Variable np_max : list (list float) -> float.
Variable np_percentile : list (list float) -> Z -> float.

Lemma lines_silent (self : Printer) (text : str) (kw : kwargs) :
  _quiet self = true \/ (kw_master_only kw = true /\ _pool self = Some false) ->
  _lines fill is_integer self text kw = inr [].
Proof.
  intros [Hq|[Hm Hp]]; unfold _lines.
  - rewrite Hq. reflexivity.
  - rewrite Hm, Hp. destruct (_quiet self); reflexivity.
Qed.

Lemma prt_no_lines (self : Printer) (text : str) (kw : kwargs) :
  _lines fill is_integer self text kw = inr [] ->
  prt fill is_integer repr encodable self text kw = ([], inr tt).
Proof.
  intros Hl. unfold prt. rewrite Hl, bind_lift_ok.
  cbn [for_each].
  destruct (kw_inline kw && _); reflexivity.
Qed.

(** A quiet printer, and with [master_only] a printer of a process that
    is not the master of its pool, writes nothing with [prt] and returns
    the empty text from [string]; neither raises, whatever the options
    (also with a warning prefix missing from the catalogue, or centring
    without a width). *)
Theorem prt_silent (self : Printer) (text : str) (kw : kwargs) :
  _quiet self = true \/ (kw_master_only kw = true /\ _pool self = Some false) ->
  prt fill is_integer repr encodable self text kw = ([], inr tt)
  /\ string_ fill is_integer repr self text kw = inr [].
Proof.
  intros H. split.
  - apply prt_no_lines, lines_silent, H.
  - unfold string_. rewrite (lines_silent _ _ _ H). reflexivity.
Qed.

(** The events of [prt] without centring. *)
Lemma prt_written (self : Printer) (text : str) (kw : kwargs)
    (tspl : list str) :
  kw_center kw = false ->
  _lines fill is_integer self text kw = inr tspl ->
  let colorify_ :=
    kw_colorify kw || kw_warning kw || kw_error kw
    || match kw_color kw with [] => false | _ :: _ => true end in
  let inline :=
    kw_inline kw
    && match _fitter self with Some f => negb (_test f) | None => true end in
  let shown line := if colorify_ then colorify line else line in
  let written line :=
    Stdout ((if encodable (shown line) then shown line
             else ascii_replace (shown line)) ++ [10%N]) in
  prt fill is_integer repr encodable self text kw
  = ((if inline then erase_events tspl else [])
     ++ List.map written tspl, inr tt).
Proof.
  intros Hc Hl colorify_ inline shown written.
  unfold prt. rewrite Hl, bind_lift_ok.
  fold colorify_. fold inline.
  assert (Hlines :
    for_each tspl (fun line =>
      rline ← lift (center_line repr kw line
                      (if colorify_ then colorify line else line));
      if encodable rline then print rline
      else print (ascii_replace rline))
    = (concat (List.map (fun line => [written line]) tspl), inr tt)).
  { apply for_each_trace. intros line.
    rewrite (center_line_ok repr kw line _ Hc), bind_lift_ok.
    unfold written, shown. destruct (encodable _); reflexivity. }
  rewrite Hlines.
  assert (Hflat : concat (List.map (fun line => [written line]) tspl)
                  = List.map written tspl).
  { clear. induction tspl as [|x l IH]; [reflexivity|].
    cbn [List.map concat]. rewrite IH. reflexivity. }
  rewrite Hflat.
  destruct inline.
  + assert (Herase :
      for_each tspl (fun _ : str =>
        _ ← write (ESC :: u "[F"); write (ESC :: u "[K"))
      = (erase_events tspl, inr tt)).
    { apply for_each_trace. intros _. reflexivity. }
    rewrite Herase. unfold mbind, io_bind. reflexivity.
  + rewrite bind_ret. reflexivity.
Qed.

(** What [prt] does without centring, for the lines [tspl] that [_lines]
    returns: printing in place (and the fitter, if there is one, not in
    test mode), it first moves up and clears once for every line it is
    about to write, as many lines as it writes; then it writes every
    line, colorified if asked for or if a warning, error or colour is
    set, and followed by a line feed; a line standard output cannot
    encode is written with its non-ASCII characters replaced. *)
Theorem prt_trace (self : Printer) (text : str) (kw : kwargs)
    (tspl : list str) :
  kw_center kw = false ->
  _lines fill is_integer self text kw = inr tspl ->
  let colorify_ :=
    kw_colorify kw || kw_warning kw || kw_error kw
    || match kw_color kw with [] => false | _ :: _ => true end in
  let inline :=
    kw_inline kw
    && match _fitter self with Some f => negb (_test f) | None => true end in
  let shown line := if colorify_ then colorify line else line in
  let written line :=
    Stdout ((if encodable (shown line) then shown line
             else ascii_replace (shown line)) ++ [10%N]) in
  prt fill is_integer repr encodable self text kw
  = ((if inline then erase_events tspl else [])
     ++ List.map written tspl, inr tt)
  /\ length (erase_events tspl) = 2 * length tspl
  /\ length (List.map written tspl) = length tspl.
Proof.
  intros Hc Hl colorify_ inline shown written. split; [|split].
  - apply prt_written; assumption.
  - unfold erase_events. clear. induction tspl as [|x l IH]; [reflexivity|].
    cbn [List.map concat]. rewrite length_app, IH. simpl. lia.
  - apply length_map.
Qed.

(** [status] writes nothing on a quiet printer and on a printer of a
    process that is not the master of its pool, also when it raises. *)
Theorem status_silent (self : Printer) (desc : str)
    (scores : option (list (list float))) (accepts : option (list float))
    (progress : option (Z * option Z)) (acor : option (float * float * Z))
    (psrf : option (float * Z)) (fracking : bool)
    (messages : option (list str)) (kmat : option (list (list float)))
    (make_space : bool) :
  _quiet self = true \/ _pool self = Some false ->
  fst (status fill is_integer repr encodable pretty_num calculate_WAIC
         format_percent congrid np_log np_max np_percentile self desc scores
         accepts progress acor psrf fracking messages kmat make_space) = [].
Proof.
  intros H. unfold status.
  destruct (_quiet self) eqn:Hq; [reflexivity|].
  destruct H as [H|Hp]; [discriminate|].
  destruct (_fitter self) as [f|]; [|reflexivity].
  rewrite bind_ret.
  destruct (status_segments pretty_num calculate_WAIC format_percent self f
              desc scores accepts progress acor psrf fracking) as [e|outarr];
    [reflexivity|].
  rewrite bind_lift_ok.
  destruct messages as [m|]; [|reflexivity].
  rewrite bind_ret.
  assert (Hsilent : forall text kw, kw_master_only kw = true ->
            prt fill is_integer repr encodable self text kw = ([], inr tt)).
  { intros text kw Hm. apply prt_no_lines, lines_silent. right. auto. }
  assert (Hlines : forall text,
            _lines fill is_integer self text kw_default = inr []).
  { intros text. apply lines_silent. right. auto. }
  destruct kmat as [k|].
  - destruct (1 <? length k).
    + destruct (doodle_of congrid np_log np_max np_percentile k)
        as [e|[doodle ncols]]; [reflexivity|].
      rewrite bind_lift_ok, bind_ret. cbv beta iota zeta.
      rewrite Hlines, bind_lift_ok, bind_ret.
      rewrite Hsilent by reflexivity. reflexivity.
    + rewrite bind_ret. cbv beta iota zeta. rewrite bind_ret.
      rewrite Hsilent by reflexivity. reflexivity.
  - rewrite bind_ret. cbv beta iota zeta. rewrite bind_ret.
    rewrite Hsilent by reflexivity. reflexivity.
Qed.

End Silence.

Lemma prt_silent_witness :
  _quiet (sample_printer true None) = true
  /\ prt sample_fill sample_is_integer sample_repr sample_encodable
       (sample_printer true None) (u "hello") kw_message = ([], inr tt)
  /\ kw_master_only kw_default = true /\ _pool sample_worker = Some false
  /\ string_ sample_fill sample_is_integer sample_repr sample_worker
       (u "hello") kw_default = inr [].
Proof.
  split; [reflexivity|]. split.
  - exact (proj1 (prt_silent sample_fill sample_is_integer sample_repr
                    sample_encodable (sample_printer true None) (u "hello")
                    kw_message (or_introl eq_refl))).
  - split; [reflexivity|]. split; [reflexivity|].
    exact (proj2 (prt_silent sample_fill sample_is_integer sample_repr
                    sample_encodable sample_worker (u "hello") kw_default
                    (or_intror (conj eq_refl eq_refl)))).
Defined.

Lemma prt_trace_witness :
  let self := sample_printer false None in
  let kw := {|
    kw_colorify := true; kw_center := false; kw_width := None;
    kw_warning := false; kw_error := false; kw_prefix := true;
    kw_color := []; kw_inline := true; kw_wrap_length := None;
    kw_wrapped := false; kw_master_only := true |} in
  kw_center kw = false
  /\ _lines sample_fill sample_is_integer self
       (u "!ga!e" ++ [10%N] ++ u "b") kw = inr [u "!ga!e"; u "b"]
  /\ prt sample_fill sample_is_integer sample_repr sample_encodable self
       (u "!ga!e" ++ [10%N] ++ u "b") kw
     = ([Stdout (ESC :: u "[F"); Stdout (ESC :: u "[K");
         Stdout (ESC :: u "[F"); Stdout (ESC :: u "[K");
         Stdout (ansi.GREEN ++ u "a" ++ ansi.END ++ [10%N]);
         Stdout (u "b" ++ [10%N])], inr tt).
Proof.
  intros self kw.
  split; [reflexivity|]. split; [reflexivity|].
  exact (proj1 (prt_trace sample_fill sample_is_integer sample_repr
                  sample_encodable self (u "!ga!e" ++ [10%N] ++ u "b") kw
                  [u "!ga!e"; u "b"] eq_refl eq_refl)).
Defined.

Lemma status_silent_witness :
  _pool sample_worker = Some false
  /\ fst (status sample_fill sample_is_integer sample_repr sample_encodable
            sample_pretty_num sample_WAIC sample_format_percent
            sample_congrid sample_np_log sample_np_max sample_np_percentile
            sample_worker [] None None None None None false
            (Some [u "hello"]) (Some [[1; 2]%float; [3; 4]%float]) false)
     = [].
Proof.
  split; [reflexivity|].
  exact (status_silent sample_fill sample_is_integer sample_repr
           sample_encodable sample_pretty_num sample_WAIC
           sample_format_percent sample_congrid sample_np_log sample_np_max
           sample_np_percentile sample_worker [] None None None None None
           false (Some [u "hello"]) (Some [[1; 2]%float; [3; 4]%float])
           false (or_intror eq_refl)).
Defined.

(** ** The lines of a text and [string] *)

Lemma splitlines_from_cons (cur : str) (c : char) (s : str) :
  splitlines_from cur (c :: s)
  = if is_linebreak c then
      rev cur ::
      match s with
      | d :: s'' =>
        if chr_eqb c 13 && chr_eqb d 10 then splitlines_from [] s''
        else splitlines_from [] s
      | [] => splitlines_from [] s
      end
    else splitlines_from (c :: cur) s.
Proof. reflexivity. Qed.

Lemma no_linebreak_rev (s : str) : no_linebreak (rev s) = no_linebreak s.
Proof.
  unfold no_linebreak. induction s as [|c s IH]; [reflexivity|].
  simpl. rewrite forallb_app, IH. simpl. rewrite andb_true_r.
  apply andb_comm.
Qed.

(** No line of [splitlines] holds a line boundary. *)
Lemma splitlines_from_free (s : str) :
  forall cur l,
    no_linebreak cur = true -> In l (splitlines_from cur s) ->
    no_linebreak l = true.
Proof.
  induction s as [|x|x y s IHs IHys] using str_ind2; intros cur l Hcur Hin.
  - destruct cur as [|c cur]; [destruct Hin|].
    change (splitlines_from (c :: cur) []) with [rev (c :: cur)] in Hin.
    destruct Hin as [<-|[]]. rewrite no_linebreak_rev. exact Hcur.
  - rewrite splitlines_from_cons in Hin.
    destruct (is_linebreak x) eqn:Ex.
    + change (splitlines_from [] []) with (@nil (list N)) in Hin.
      destruct Hin as [<-|[]]. rewrite no_linebreak_rev. exact Hcur.
    + change (splitlines_from (x :: cur) []) with [rev (x :: cur)] in Hin.
      destruct Hin as [<-|[]].
      rewrite no_linebreak_rev. simpl. rewrite Ex. exact Hcur.
  - rewrite splitlines_from_cons in Hin.
    destruct (is_linebreak x) eqn:Ex.
    + destruct Hin as [<-|Hin]; [rewrite no_linebreak_rev; exact Hcur|].
      destruct (chr_eqb x 13 && chr_eqb y 10).
      * apply (IHs [] l eq_refl Hin).
      * apply (IHys [] l eq_refl Hin).
    + apply (IHys (x :: cur) l); [|exact Hin].
      simpl. rewrite Ex. exact Hcur.
Qed.

Lemma splitlines_from_nonempty (s cur : str) :
  cur <> [] \/ s <> [] -> splitlines_from cur s <> [].
Proof.
  revert cur. induction s as [|c s IH]; intros cur H.
  - destruct cur; [destruct H; congruence|]. simpl. discriminate.
  - rewrite splitlines_from_cons.
    destruct (is_linebreak c); [discriminate|].
    apply IH. left. discriminate.
Qed.

Lemma join_cons_nonempty (sep x : str) (l : list str) :
  l <> [] -> join sep (x :: l) = x ++ sep ++ join sep l.
Proof. destruct l; [congruence|reflexivity]. Qed.

(** Joining the lines of a text with line feeds gives the text back,
    when the text ends in a line feed that is left out and has no other
    kind of line boundary. *)
Lemma splitlines_join (s : str) :
  forall cur,
    lf_only s = true ->
    join [10%N] (splitlines_from cur (s ++ [10%N])) = rev cur ++ s.
Proof.
  induction s as [|c s IH]; intros cur Hs.
  - simpl. rewrite app_nil_r. reflexivity.
  - simpl in Hs. apply andb_true_iff in Hs as [Hc Hs].
    change ((c :: s) ++ [10%N]) with (c :: (s ++ [10%N])).
    rewrite splitlines_from_cons.
    destruct (is_linebreak c) eqn:Ec.
    + simpl in Hc. apply chr_eqb_eq in Hc. subst c.
      assert (Hrest :
        match s ++ [10%N] with
        | d :: s'' =>
          if chr_eqb 10 13 && chr_eqb d 10 then splitlines_from [] s''
          else splitlines_from [] (s ++ [10%N])
        | [] => splitlines_from [] (s ++ [10%N])
        end = splitlines_from [] (s ++ [10%N])).
      { destruct (s ++ [10%N]); reflexivity. }
      rewrite Hrest.
      rewrite join_cons_nonempty.
      2:{ apply splitlines_from_nonempty. right.
          destruct s; discriminate. }
      rewrite (IH [] Hs). reflexivity.
    + rewrite (IH (c :: cur) Hs). simpl. rewrite <- app_assoc. reflexivity.
Qed.

Lemma lf_only_join (l : list str) :
  (forall x, In x l -> no_linebreak x = true) ->
  lf_only (join [10%N] l) = true.
Proof.
  assert (Hweak : forall x, no_linebreak x = true -> lf_only x = true).
  { intros x. unfold no_linebreak, lf_only. induction x as [|c x IH];
      [reflexivity|]. simpl. intros H.
    apply andb_true_iff in H as [Hc Hx]. rewrite Hc, (IH Hx). reflexivity. }
  induction l as [|x [|y l] IH]; intros H.
  - reflexivity.
  - simpl. apply Hweak, H. left. reflexivity.
  - change (join [10%N] (x :: y :: l))
      with (x ++ [10%N] ++ join [10%N] (y :: l)).
    unfold lf_only. rewrite !forallb_app.
    fold (lf_only x). fold (lf_only (join [10%N] (y :: l))).
    rewrite (Hweak x (H x (or_introl eq_refl))).
    rewrite IH by (intros z Hz; apply H; right; exact Hz).
    reflexivity.
Qed.

Section StringText.

Variable fill : str -> Z -> bool -> str.
Variable is_integer : Z -> bool.
Variable repr : str -> str.

(** [string] with its default options, on a printer that is not quiet
    and whose process is the master or has no pool, returns a text whose
    only line boundaries are line feeds (the lines of the text, joined by
    line feeds); a text whose only boundaries are line feeds is returned
    as it is. *)
Theorem string_round_trip (self : Printer) (text : str) :
  _quiet self = false -> _pool self <> Some false ->
  exists s,
    string_ fill is_integer repr self text kw_default = inr s
    /\ lf_only s = true
    /\ (lf_only text = true -> s = text).
Proof.
  intros Hq Hp.
  assert (Hl : _lines fill is_integer self text kw_default
               = inr (splitlines (text ++ [10%N]))).
  { unfold _lines. rewrite Hq.
    destruct (_pool self) as [[|]|]; try reflexivity. congruence. }
  assert (Hm : forall l,
    map_result (fun line => center_line repr kw_default line line) l
    = inr l).
  { induction l as [|x l IH]; [reflexivity|].
    cbn [map_result]. rewrite (center_line_ok repr kw_default x x eq_refl), IH.
    reflexivity. }
  exists (join [10%N] (splitlines (text ++ [10%N]))).
  split; [|split].
  - unfold string_. rewrite Hl. cbn [mbind result_bind].
    rewrite Hm. reflexivity.
  - apply lf_only_join. intros x Hx.
    apply (splitlines_from_free _ [] x eq_refl Hx).
  - intros Ht. unfold splitlines. rewrite (splitlines_join text [] Ht).
    reflexivity.
Qed.

End StringText.

Lemma string_round_trip_witness :
  _quiet (sample_printer false None) = false
  /\ lf_only (u "two" ++ [10%N] ++ u "lines") = true
  /\ string_ sample_fill sample_is_integer sample_repr
       (sample_printer false None) (u "two" ++ [10%N] ++ u "lines") kw_default
     = inr (u "two" ++ [10%N] ++ u "lines")
  /\ string_ sample_fill sample_is_integer sample_repr
       (sample_printer false None) (u "two" ++ [13%N; 10%N] ++ u "lines")
       kw_default
     = inr (u "two" ++ [10%N] ++ u "lines").
Proof.
  split; [reflexivity|]. split; [reflexivity|]. split; [|reflexivity].
  destruct (string_round_trip sample_fill sample_is_integer sample_repr
              (sample_printer false None) (u "two" ++ [10%N] ++ u "lines")
              eq_refl ltac:(discriminate)) as (s & Hs & _ & Heq).
  rewrite Hs, (Heq eq_refl). reflexivity.
Defined.

(** ** Score ranges and acceptance colours of [status] *)

Lemma SFleb_trans (x y z : spec_float) :
  SFleb x y = true -> SFleb y z = true -> SFleb x z = true.
Proof.
  unfold SFleb. sf_split x y z; intros H1 H2; sf_cases;
    simpl in *; try congruence; try lia.
Qed.

Lemma SFcompare_some (x y : spec_float) :
  x <> S754_nan -> y <> S754_nan -> SFcompare x y <> None.
Proof.
  destruct x as [[]|[]| |[] ? ?], y as [[]|[]| |[] ? ?]; simpl;
    try congruence; intros _ _;
    repeat match goal with
    | |- context [match ?c with Eq => _ | Lt => _ | Gt => _ end] =>
        destruct c; simpl
    end; congruence.
Qed.

Lemma SFltb_false_leb (x y : spec_float) :
  x <> S754_nan -> y <> S754_nan -> SFltb y x = false -> SFleb x y = true.
Proof.
  intros Hx Hy. unfold SFleb, SFltb. rewrite (SFcompare_antisym x y).
  pose proof (SFcompare_some x y Hx Hy) as Hs.
  destruct (SFcompare x y) as [[]|]; simpl; congruence.
Qed.

Lemma isnan_Prim2SF (x : float) :
  isnan x = true <-> Prim2SF x = S754_nan.
Proof.
  unfold isnan, is_nan. rewrite FloatAxioms.eqb_spec. unfold SFeqb.
  destruct (Prim2SF x) as [[]|[]| |[] m e]; simpl;
    rewrite ?Z.compare_refl; simpl;
    change (PosDef.Pos.compare_cont Eq ?a ?b) with (Pos.compare a b);
    rewrite ?Pos.compare_refl; simpl; split; congruence.
Qed.

Lemma not_nan_Prim2SF (x : float) :
  isnan x = false -> Prim2SF x <> S754_nan.
Proof.
  intros H Hn. apply isnan_Prim2SF in Hn. congruence.
Qed.

Lemma fleb_trans (x y z : float) :
  (x <=? y)%float = true -> (y <=? z)%float = true -> (x <=? z)%float = true.
Proof. rewrite !leb_spec. apply SFleb_trans. Qed.

Lemma fltb_false_fleb (x y : float) :
  isnan x = false -> isnan y = false ->
  (y <? x)%float = false -> (x <=? y)%float = true.
Proof.
  intros Hx Hy. rewrite leb_spec, ltb_spec.
  apply SFltb_false_leb; apply not_nan_Prim2SF; assumption.
Qed.

Lemma fltb_fleb (x y : float) :
  (x <? y)%float = true -> (x <=? y)%float = true.
Proof.
  rewrite leb_spec, ltb_spec. unfold SFltb, SFleb.
  destruct (SFcompare _ _) as [[]|]; congruence.
Qed.

Lemma fltb_not_nan (x y : float) :
  (x <? y)%float = true -> isnan x = false /\ isnan y = false.
Proof. intros H. apply fleb_not_nan, fltb_fleb, H. Qed.

Lemma fleb_refl (x : float) : isnan x = false -> (x <=? x)%float = true.
Proof.
  intros Hx. apply fltb_false_fleb; try assumption.
  destruct (x <? x)%float eqn:E; [|reflexivity].
  pose proof (fleb_not_fltb x x (fltb_fleb x x E)). congruence.
Qed.

Lemma isnan_fltb (x y : float) : isnan x = true -> (x <? y)%float = false.
Proof.
  intros Hx. destruct (x <? y)%float eqn:E; [|reflexivity].
  apply fltb_not_nan in E. destruct E. congruence.
Qed.

Lemma isfinite_not_nan (x : float) : isfinite x = true -> isnan x = false.
Proof.
  unfold isfinite, is_finite, isnan. intros H.
  apply negb_true_iff, orb_false_iff in H. apply H.
Qed.

(** The least item that [min] finds by scanning from [cur]: an item of
    the list, below all of them when none is NaN. *)
Lemma fold_min_spec (r : list float) :
  forall cur,
    let m := fold_left (fun cur y => if (y <? cur)%float then y else cur)
                       r cur in
    In m (cur :: r)
    /\ (isnan cur = false -> forallb (fun v => negb (isnan v)) r = true ->
        isnan m = false /\ (m <=? cur)%float = true
        /\ forall y, In y r -> (m <=? y)%float = true).
Proof.
  induction r as [|y r IH]; intros cur; cbn [fold_left].
  - split; [left; reflexivity|]. intros Hc _.
    split; [exact Hc|]. split; [apply fleb_refl, Hc|]. intros y [].
  - destruct (IH (if (y <? cur)%float then y else cur)) as [Hin Hle].
    split.
    + destruct Hin as [Hin|Hin]; [|right; right; exact Hin].
      destruct (y <? cur)%float; [right; left|left]; exact Hin.
    + intros Hc Hr. cbn [forallb] in Hr.
      apply andb_true_iff in Hr as [Hy Hr]. apply negb_true_iff in Hy.
      destruct (y <? cur)%float eqn:E.
      * destruct (Hle Hy Hr) as (Hm & Hmy & Hall).
        split; [exact Hm|]. split.
        -- apply (fleb_trans _ y); [exact Hmy|apply fltb_fleb, E].
        -- intros z [<-|Hz]; [exact Hmy|apply Hall, Hz].
      * destruct (Hle Hc Hr) as (Hm & Hmc & Hall).
        split; [exact Hm|]. split; [exact Hmc|].
        intros z [<-|Hz]; [|apply Hall, Hz].
        apply (fleb_trans _ cur); [exact Hmc|].
        apply fltb_false_fleb; assumption.
Qed.

Lemma fold_max_spec (r : list float) :
  forall cur,
    let m := fold_left (fun cur y => if (cur <? y)%float then y else cur)
                       r cur in
    In m (cur :: r)
    /\ (isnan cur = false -> forallb (fun v => negb (isnan v)) r = true ->
        isnan m = false /\ (cur <=? m)%float = true
        /\ forall y, In y r -> (y <=? m)%float = true).
Proof.
  induction r as [|y r IH]; intros cur; cbn [fold_left].
  - split; [left; reflexivity|]. intros Hc _.
    split; [exact Hc|]. split; [apply fleb_refl, Hc|]. intros y [].
  - destruct (IH (if (cur <? y)%float then y else cur)) as [Hin Hle].
    split.
    + destruct Hin as [Hin|Hin]; [|right; right; exact Hin].
      destruct (cur <? y)%float; [right; left|left]; exact Hin.
    + intros Hc Hr. cbn [forallb] in Hr.
      apply andb_true_iff in Hr as [Hy Hr]. apply negb_true_iff in Hy.
      destruct (cur <? y)%float eqn:E.
      * destruct (Hle Hy Hr) as (Hm & Hym & Hall).
        split; [exact Hm|]. split.
        -- apply (fleb_trans _ y); [apply fltb_fleb, E|exact Hym].
        -- intros z [<-|Hz]; [exact Hym|apply Hall, Hz].
      * destruct (Hle Hc Hr) as (Hm & Hcm & Hall).
        split; [exact Hm|]. split; [exact Hcm|].
        intros z [<-|Hz]; [|apply Hall, Hz].
        apply (fleb_trans _ cur); [|exact Hcm].
        apply fltb_false_fleb; assumption.
Qed.

Lemma forallb_finite_not_nan (x : list float) :
  forallb isfinite x = true ->
  forallb (fun v => negb (isnan v)) x = true.
Proof.
  induction x as [|v x IH]; [reflexivity|]. cbn [forallb]. intros H.
  apply andb_true_iff in H as [Hv Hx].
  rewrite (isfinite_not_nan v Hv), (IH Hx). reflexivity.
Qed.

Lemma forallb_In_finite (x : list float) (v : float) :
  forallb isfinite x = true -> In v x -> isfinite v = true.
Proof.
  intros H Hin. rewrite List.forallb_forall in H. apply H, Hin.
Qed.

(** The score range of one chain in [status]: an empty chain raises
    [IndexError]; a chain of one score shows that score (also when it is
    NaN); a chain of two or more finite scores shows two of its scores,
    the first at most every score of the chain and the second at least
    every score, with three dots between them. *)
Theorem score_range_spec (pretty_num : float -> nat -> str)
    (x : list float) :
  score_range pretty_num [] = inl IndexError
  /\ (forall v, score_range pretty_num [v] = inr (pretty_num v 4))
  /\ (1 < length x -> forallb isfinite x = true ->
      exists lo hi,
        In lo x /\ In hi x
        /\ (forall v, In v x ->
              (lo <=? v)%float = true /\ (v <=? hi)%float = true)
        /\ score_range pretty_num x
           = inr (pretty_num lo 4 ++ u "..." ++ pretty_num hi 4)).
Proof.
  split; [reflexivity|]. split; [reflexivity|].
  intros Hlen Hfin. destruct x as [|a r]; [simpl in Hlen; lia|].
  pose proof (forallb_finite_not_nan _ Hfin) as Hnan.
  cbn [forallb] in Hnan. apply andb_true_iff in Hnan as [Ha Hr].
  apply negb_true_iff in Ha.
  destruct (fold_min_spec r a) as [Hlo_in Hlo].
  destruct (fold_max_spec r a) as [Hhi_in Hhi].
  destruct (Hlo Ha Hr) as (Hlo_nan & Hlo_a & Hlo_all).
  destruct (Hhi Ha Hr) as (Hhi_nan & Hhi_a & Hhi_all).
  set (lo := fold_left (fun cur y => if (y <? cur)%float then y else cur)
                       r a) in *.
  set (hi := fold_left (fun cur y => if (cur <? y)%float then y else cur)
                       r a) in *.
  exists lo, hi. split; [exact Hlo_in|]. split; [exact Hhi_in|]. split.
  - intros v [<-|Hv]; [split; assumption|].
    split; [apply Hlo_all, Hv|apply Hhi_all, Hv].
  - unfold score_range.
    replace (1 <? length (a :: r)) with true
      by (symmetry; apply Nat.ltb_lt; exact Hlen).
    change (py_min (a :: r)) with (@inr exn float lo).
    change (py_max (a :: r)) with (@inr exn float hi).
    cbn [mbind result_bind]. unfold finite_or_nan.
    rewrite Hlo_nan, Hhi_nan.
    rewrite (forallb_In_finite _ lo Hfin Hlo_in).
    rewrite (forallb_In_finite _ hi Hfin Hhi_in).
    reflexivity.
Qed.

Lemma score_range_spec_witness :
  1 < length [3; 1.5; 1.2]%float
  /\ forallb isfinite [3; 1.5; 1.2]%float = true
  /\ exists lo hi,
       In lo [3; 1.5; 1.2]%float /\ In hi [3; 1.5; 1.2]%float
       /\ score_range sample_pretty_num [3; 1.5; 1.2]%float
          = inr (sample_pretty_num lo 4 ++ u "..." ++ sample_pretty_num hi 4).
Proof.
  split; [repeat constructor|]. split; [reflexivity|].
  destruct (proj2 (proj2 (score_range_spec sample_pretty_num
                            [3; 1.5; 1.2]%float))
              ltac:(repeat constructor) eq_refl)
    as (lo & hi & Hlo & Hhi & _ & H).
  exists lo, hi. split; [exact Hlo|]. split; [exact Hhi|]. exact H.
Defined.

(** The colour of an acceptance fraction in [status]: red below 0.01,
    yellow from 0.01 up to but not including 0.1, green from 0.1 on, and
    green for NaN; so 0.01 is yellow and 0.1 is green. *)
Theorem accept_color_bands (x : float) :
  ((x <? 0.01)%float = true -> accept_color x = u "!r")
  /\ ((0.01 <=? x)%float = true -> (x <? 0.1)%float = true ->
      accept_color x = u "!y")
  /\ ((0.1 <=? x)%float = true -> accept_color x = u "!g")
  /\ (isnan x = true -> accept_color x = u "!g")
  /\ accept_color 0.01 = u "!y" /\ accept_color 0.1 = u "!g".
Proof.
  unfold accept_color. repeat split.
  - intros H. rewrite H. reflexivity.
  - intros H1 H2. rewrite (fleb_not_fltb _ _ H1), H2. reflexivity.
  - intros H. rewrite (fleb_not_fltb _ _ H).
    destruct (x <? 0.01)%float eqn:E; [|reflexivity].
    pose proof (fleb_fltb_trans _ _ _ H E) as Habs.
    vm_compute in Habs. discriminate.
  - intros H. rewrite !(isnan_fltb _ _ H). reflexivity.
Qed.

Lemma accept_color_bands_witness :
  (0.01 <=? 0.05)%float = true /\ (0.05 <? 0.1)%float = true
  /\ accept_color 0.05 = u "!y".
Proof.
  split; [reflexivity|]. split; [reflexivity|].
  exact (proj1 (proj2 (accept_color_bands 0.05)) eq_refl eq_refl).
Defined.

(** ** What [message] writes for a missing name (C6) *)

(** C6: for every name absent from the catalogue and every list of n
    arguments, [message] prints the placeholder marked "Message not
    found": its template holds exactly n slots; formatting it with the n
    arguments raises nothing and puts each argument in its slot; this
    text is what [message] hands to [prt], whatever the options. With
    its default options a quiet printer and a printer of a process that
    is not the master of its pool write nothing; another printer writes
    the lines of the placeholder, wrapped to its wrap length, when that
    is above zero, and with any other wrap length raises the
    [ValueError] of [textwrap.fill], which is not an error of the
    formatting. *)
Theorem message_missing_key (fill : str -> Z -> bool -> str)
    (is_integer : Z -> bool) (repr : str -> str) (encodable : str -> bool)
    (self : Printer) (name : str) (reps : list str) :
  _strings self !! name = None ->
  let template :=
    u "< Message not found ["
    ++ strip (join [] (List.map (fun _ => u "{} ") (seq 0 (length reps))))
    ++ u "] >" in
  let text := u "< Message not found [" ++ join (u " ") reps ++ u "] >" in
  let silent :=
    _quiet self
    || match _pool self with Some m => negb m | None => false end in
  let width := _wrap_length self in
  let written line :=
    Stdout ((if encodable line then line else ascii_replace line)
            ++ [10%N]) in
  let printed := message fill is_integer repr encodable self name reps in
  count (u "{}") template = length reps
  /\ format template reps = inr text
  /\ message_text self name reps = inr text
  /\ (forall kw : kwargs,
        printed kw
        = prt fill is_integer repr encodable self text {|
            kw_colorify := kw_colorify kw; kw_center := kw_center kw;
            kw_width := kw_width kw; kw_warning := kw_warning kw;
            kw_error := kw_error kw; kw_prefix := kw_prefix kw;
            kw_color := []; kw_inline := kw_inline kw;
            kw_wrap_length := None; kw_wrapped := kw_wrapped kw;
            kw_master_only := true |})
  /\ (silent = true -> printed kw_message = ([], inr tt))
  /\ (silent = false -> (0 < width)%Z ->
      printed kw_message
      = (List.map written
           (concat (List.map (fun line => splitlines (fill line width true))
                             (splitlines (text ++ [10%N])))),
         inr tt))
  /\ (silent = false -> (width <= 0)%Z ->
      printed kw_message
      = ([], inl (ValueError (u "invalid width " ++ str_of_Z width
                              ++ u " (must be > 0)")))).
Proof.
  intros Hname template text silent width written printed.
  assert (Hfmt : format template reps = inr text).
  { unfold template, format. rewrite slots_text.
    rewrite format_from_text by reflexivity.
    pose proof (format_slots reps [] (u "] >")) as Hslots.
    change ([] ++ reps) with reps in Hslots.
    change (num_at (length (@nil str))) with NumNone in Hslots.
    change (length (@nil str) + length reps) with (length reps) in Hslots.
    rewrite Hslots.
    rewrite <- (app_nil_r (u "] >")) at 1.
    rewrite format_from_text by reflexivity.
    simpl format_from.
    unfold app_ok, ok. rewrite app_nil_r. reflexivity. }
  assert (Htext : message_text self name reps = inr text).
  { unfold message_text. rewrite Hname. exact Hfmt. }
  assert (Hmsg : forall kw : kwargs,
    printed kw
    = prt fill is_integer repr encodable self text {|
        kw_colorify := kw_colorify kw; kw_center := kw_center kw;
        kw_width := kw_width kw; kw_warning := kw_warning kw;
        kw_error := kw_error kw; kw_prefix := kw_prefix kw;
        kw_color := []; kw_inline := kw_inline kw;
        kw_wrap_length := None; kw_wrapped := kw_wrapped kw;
        kw_master_only := true |}).
  { intros kw. unfold printed, message. rewrite Htext, bind_lift_ok.
    reflexivity. }
  split.
  { unfold template. rewrite slots_text.
    change (count (u "{}") ?s) with (count_from (u "{}") 0 s).
    rewrite count_text by reflexivity. apply count_slots. reflexivity. }
  split; [exact Hfmt|]. split; [exact Htext|]. split; [exact Hmsg|].
  split; [|split].
  - intros Hs. rewrite Hmsg. apply prt_no_lines, lines_silent.
    unfold silent in Hs. apply orb_true_iff in Hs as [Hq|Hp].
    + left. exact Hq.
    + right. split; [reflexivity|].
      destruct (_pool self) as [[|]|]; try discriminate. reflexivity.
  - intros Hs Hw. apply orb_false_iff in Hs as [Hq Hp]. rewrite Hmsg.
    match goal with
    | |- prt _ _ _ _ _ _ ?kw = _ =>
        assert (Hl : _lines fill is_integer self text kw
                     = inr (concat (List.map
                              (fun line => splitlines (fill line width true))
                              (splitlines (text ++ [10%N])))));
        [|rewrite (prt_written fill is_integer repr encodable self text kw
                     _ eq_refl Hl); reflexivity]
    end.
    match goal with
    | |- context [_lines _ _ _ _ ?kw] =>
        rewrite (lines_plain fill is_integer self text kw Hq Hp eq_refl
                   eq_refl eq_refl)
    end.
    cbn [kw_wrapped kw_wrap_length kw_message]. unfold width in *.
    rewrite (wrap_lines_wide fill _ _ Hw). reflexivity.
  - intros Hs Hw. apply orb_false_iff in Hs as [Hq Hp]. rewrite Hmsg.
    match goal with
    | |- prt _ _ _ _ _ _ ?kw = _ =>
        assert (Hl : _lines fill is_integer self text kw
                     = inl (ValueError (u "invalid width " ++ str_of_Z width
                                        ++ u " (must be > 0)")));
        [|unfold prt; rewrite Hl; reflexivity]
    end.
    match goal with
    | |- context [_lines _ _ _ _ ?kw] =>
        rewrite (lines_plain fill is_integer self text kw Hq Hp eq_refl
                   eq_refl eq_refl)
    end.
    cbn [kw_wrapped kw_wrap_length kw_message].
    destruct (splitlines (text ++ [10%N])) as [|line tspl] eqn:Hspl.
    + exfalso. revert Hspl. apply splitlines_from_nonempty. right.
      unfold text. discriminate.
    + unfold width in *.
      rewrite (wrap_lines_narrow fill _ line tspl Hw). reflexivity.
Qed.

Lemma message_missing_key_witness :
  _strings (sample_printer false None) !! u "no_such_message" = None
  /\ message_text (sample_printer false None) (u "no_such_message")
       [u "a"; u "b"]
     = inr (u "< Message not found [a b] >")
  /\ message sample_fill sample_is_integer sample_repr sample_encodable
       (sample_printer false None) (u "no_such_message") [u "a"; u "b"]
       kw_message
     = ([Stdout (u "< Message not found [a b] >" ++ [10%N])], inr tt)
  /\ _strings sample_narrow_printer !! u "no_such_message" = None
  /\ message sample_fill sample_is_integer sample_repr sample_encodable
       sample_narrow_printer (u "no_such_message") [u "a"; u "b"]
       kw_message
     = ([], inl (ValueError (u "invalid width 0 (must be > 0)"))).
Proof.
  split; [vm_compute; reflexivity|].
  destruct (message_missing_key sample_fill sample_is_integer sample_repr
              sample_encodable (sample_printer false None)
              (u "no_such_message") [u "a"; u "b"]
              ltac:(vm_compute; reflexivity))
    as (_ & _ & Htext & _ & _ & Hwide & _).
  split; [exact Htext|]. split; [exact (Hwide eq_refl eq_refl)|].
  split; [vm_compute; reflexivity|].
  destruct (message_missing_key sample_fill sample_is_integer sample_repr
              sample_encodable sample_narrow_printer
              (u "no_such_message") [u "a"; u "b"]
              ltac:(vm_compute; reflexivity))
    as (_ & _ & _ & _ & _ & _ & Hnarrow).
  exact (Hnarrow eq_refl ltac:(discriminate)).
Defined.

(** ** Prompts and catalogue messages *)

Lemma for_each_silent {A} (l : list A) (body : A -> io unit) :
  (forall x, body x = ([], inr tt)) -> for_each l body = ([], inr tt).
Proof.
  intros Hbody. induction l as [|x l IH]; [reflexivity|].
  cbn [for_each]. rewrite Hbody, IH. reflexivity.
Qed.

Section Prompt.

Variable fill : str -> Z -> bool -> str.
Variable is_integer : Z -> bool.
Variable is_integer_str : str -> bool.
Variable int_of_str : str -> Z.
Variable repr : str -> str.
Variable encodable : str -> bool.
Variable translate : str -> str.

(** [prompt] with kind select and a list of options, when the width it
    wraps to is above zero, raises nothing: it returns the option whose
    number was typed, when the answer is an integer from 1 to the number
    of options, and false for every other answer (also for 0, for a
    negative number and for a number past the last option). With any
    other width it raises the [ValueError] of [textwrap.fill] before
    anything is written or read. *)
Theorem prompt_select_answer (self : Printer) (text : str)
    (wrap_length : option Z) (none_string : str) (opts : list str)
    (translate_ message_ : bool) (user_input : str) :
  let wl :=
    match wrap_length with
    | Some w =>
      if truthy (Some w) && is_integer w then w else _wrap_length self
    | None => _wrap_length self
    end in
  let asked :=
    prompt fill is_integer is_integer_str int_of_str repr encodable
      translate self text wrap_length (u "select") none_string
      (Some opts) translate_ message_ user_input in
  let answer := snd asked in
  ((0 < wl)%Z ->
   (forall (n : nat) (o : str),
      is_integer_str user_input = true ->
      int_of_str user_input = (Z.of_nat n + 1)%Z ->
      opts !! n = Some o -> answer = inr (PStr o))
   /\ (is_integer_str user_input = false
       \/ (int_of_str user_input < 1)%Z
       \/ (Z.of_nat (length opts) < int_of_str user_input)%Z ->
       answer = inr (PBool false))
   /\ exists v, answer = inr v)
  /\ ((wl <= 0)%Z ->
      asked = ([], inl (ValueError (u "invalid width " ++ str_of_Z wl
                                    ++ u " (must be > 0)")))).
Proof.
  intros wl asked answer.
  assert (Hch : prompt_choices (u "select") none_string (Some opts)
    = inr ([10%N] ++ join [10%N]
        (imap (fun i opt =>
           u " " ++ str_of_nat (i + 1) ++ u ". "
           ++ slice_from (length (str_of_nat (i + 1)) - 1)
                (spaces (length (str_of_nat (length opts)))) ++ opt)
           opts
         ++ [ u "[n]." ++ spaces (length (str_of_nat (length opts)))
              ++ none_string ++ [10%N]
              ++ u "Enter selection ("
              ++ (if 1 <? length opts then u "1-" else [])
              ++ str_of_nat (length opts) ++ u "/[n]):" ])))
    by reflexivity.
  split.
  2:{ intros Hwl.
      apply (prompt_narrow fill is_integer is_integer_str int_of_str repr
               encodable translate self text wrap_length (u "select")
               none_string (Some opts) translate_ message_ user_input _
               Hch Hwl). }
  intros Hwl.
  assert (Hans : answer
    = prompt_answer is_integer_str int_of_str (u "select") (Some opts)
        user_input).
  { unfold answer, asked.
    apply (prompt_returns_answer fill is_integer is_integer_str int_of_str
             repr encodable translate self text wrap_length (u "select")
             none_string (Some opts) translate_ message_ user_input _
             Hch Hwl). }
  rewrite Hans. unfold prompt_answer.
  change (str_eqb (u "select") (u "bool")) with false.
  change (str_eqb (u "select") (u "select")) with true.
  cbv iota.
  split; [|split].
  - intros n o Hint Hval Hn. rewrite Hint, Hval.
    pose proof (lookup_lt_Some _ _ _ Hn) as Hlt.
    replace ((1 <=? Z.of_nat n + 1)%Z) with true
      by (symmetry; apply Z.leb_le; lia).
    replace ((Z.of_nat n + 1 <=? Z.of_nat (length opts))%Z) with true
      by (symmetry; apply Z.leb_le; lia).
    cbn [andb].
    replace (Z.to_nat (Z.of_nat n + 1 - 1)) with n by lia.
    rewrite Hn. reflexivity.
  - intros [Hint|[Hlow|Hhigh]].
    + rewrite Hint. reflexivity.
    + replace ((1 <=? int_of_str user_input)%Z) with false
        by (symmetry; apply Z.leb_gt; lia).
      rewrite andb_false_r. reflexivity.
    + replace ((int_of_str user_input <=? Z.of_nat (length opts))%Z)
        with false by (symmetry; apply Z.leb_gt; lia).
      rewrite !andb_false_r. reflexivity.
  - destruct (is_integer_str user_input
              && ((1 <=? int_of_str user_input)%Z
                  && (int_of_str user_input <=? Z.of_nat (length opts))%Z))
      eqn:E; [|eexists; reflexivity].
    apply andb_true_iff in E as [_ E]. apply andb_true_iff in E as [E1 E2].
    apply Z.leb_le in E1, E2.
    destruct (opts !! Z.to_nat (int_of_str user_input - 1)) as [o|] eqn:Ho;
      [eexists; reflexivity|].
    apply lookup_ge_None in Ho. lia.
Qed.

(** A quiet printer still asks: when the width it wraps to is above
    zero, [prompt] writes nothing but reads a line all the same, showing
    the last line of the text and the choices; and when the text is to
    be passed through [string] (the default), the quiet printer has
    replaced it by the empty text, so only the choices are shown. With
    any other width the quiet printer raises the [ValueError] of
    [textwrap.fill] like every other, and reads no line. *)
Theorem prompt_quiet (self : Printer) (text : str) (wrap_length : option Z)
    (kind none_string : str) (options : option (list str))
    (translate_ message_ : bool) (user_input choices : str) :
  _quiet self = true ->
  prompt_choices kind none_string options = inr choices ->
  let wl :=
    match wrap_length with
    | Some w =>
      if truthy (Some w) && is_integer w then w else _wrap_length self
    | None => _wrap_length self
    end in
  let shown := (if message_ then [] else text) ++ choices in
  let shown := if translate_ then translate shown else shown in
  let asked :=
    prompt fill is_integer is_integer_str int_of_str repr encodable
      translate self text wrap_length kind none_string options translate_
      message_ user_input in
  ((0 < wl)%Z ->
   asked
   = ([Stdin (fill (List.last (split [10%N] shown) []) wl false ++ u " ")],
      prompt_answer is_integer_str int_of_str kind options user_input))
  /\ ((wl <= 0)%Z ->
      asked = ([], inl (ValueError (u "invalid width " ++ str_of_Z wl
                                    ++ u " (must be > 0)")))).
Proof.
  intros Hq Hch wl shown0 shown asked. split.
  2:{ intros Hwl.
      apply (prompt_narrow fill is_integer is_integer_str int_of_str repr
               encodable translate self text wrap_length kind none_string
               options translate_ message_ user_input choices Hch Hwl). }
  intros Hwl. unfold asked, prompt. rewrite Hch, bind_lift_ok.
  assert (Htext :
    (if message_
     then lift (string_ fill is_integer repr self text {|
            kw_colorify := false; kw_center := false; kw_width := None;
            kw_warning := false; kw_error := false; kw_prefix := true;
            kw_color := []; kw_inline := false;
            kw_wrap_length := wrap_length;
            kw_wrapped := false; kw_master_only := true |})
     else (mret text : io str))
    = mret (if message_ then [] else text)).
  { destruct message_; [|reflexivity].
    unfold string_, _lines. rewrite Hq. reflexivity. }
  rewrite Htext, bind_ret. fold shown0. fold shown. fold wl.
  rewrite (for_each_silent (removelast (split [10%N] shown))).
  2:{ intros txt. rewrite (textwrap_fill_wide fill txt wl false Hwl).
      rewrite bind_lift_ok. unfold prt, _lines. rewrite Hq. reflexivity. }
  change (@pair (list event) (exn + unit) [] (inr tt))
    with (mret tt : io unit).
  rewrite bind_ret.
  rewrite (textwrap_fill_wide fill _ wl false Hwl), bind_lift_ok.
  destruct (prompt_answer is_integer_str int_of_str kind options user_input);
    reflexivity.
Qed.

(** A catalogue text with one slot: [message] without arguments raises
    [IndexError] before anything is written, whatever the options and
    also on a quiet printer; with arguments, the text [message] prints
    has the first of them in the slot, and the others are ignored. *)
Theorem message_one_slot (self : Printer) (name p q : str)
    (reps : list str) (kw : kwargs) :
  _strings self !! name = Some (p ++ u "{}" ++ q) ->
  brace_free p = true -> brace_free q = true ->
  (reps = [] ->
   message fill is_integer repr encodable self name reps kw
   = ([], inl IndexError))
  /\ (forall a r, reps = a :: r ->
      message_text self name reps = inr (p ++ a ++ q)).
Proof.
  intros Hname Hp Hq.
  assert (Hfmt : message_text self name reps
    = match reps with
      | [] => inl IndexError
      | a :: _ => inr (p ++ a ++ q)
      end).
  { unfold message_text. rewrite Hname. unfold format.
    rewrite (format_from_text _ _ _ _ Hp).
    change (u "{}" ++ q) with (123%N :: 125%N :: q).
    cbn [format_from chr_eqb N.eqb Pos.eqb field_value].
    destruct reps as [|a r]; [reflexivity|].
    change ((a :: r) !! 0) with (Some a). cbv iota beta.
    pose proof (format_from_text q [] (a :: r) (NumAuto 1) Hq) as Hrest.
    rewrite app_nil_r in Hrest. unfold ok. cbv iota beta. rewrite Hrest.
    cbn [format_from]. unfold app_ok, ok. rewrite app_nil_r. reflexivity. }
  split.
  - intros ->. unfold message. rewrite Hfmt. apply bind_lift_err.
  - intros a r ->. exact Hfmt.
Qed.

End Prompt.

Lemma prompt_select_answer_witness :
  (0 < _wrap_length (sample_printer false None))%Z
  /\ sample_is_integer_str (u "2") = true
  /\ sample_int_of_str (u "2") = (Z.of_nat 1 + 1)%Z
  /\ [u "first"; u "second"] !! 1 = Some (u "second")
  /\ snd (prompt sample_fill sample_is_integer sample_is_integer_str
            sample_int_of_str sample_repr sample_encodable sample_translate
            (sample_printer false None) (u "Which?") None (u "select")
            (u "None of the above.") (Some [u "first"; u "second"])
            true true (u "2"))
     = inr (PStr (u "second"))
  /\ (Z.of_nat (length [u "first"; u "second"]) < sample_int_of_str (u "3"))%Z
  /\ snd (prompt sample_fill sample_is_integer sample_is_integer_str
            sample_int_of_str sample_repr sample_encodable sample_translate
            (sample_printer false None) (u "Which?") None (u "select")
            (u "None of the above.") (Some [u "first"; u "second"])
            true true (u "3"))
     = inr (PBool false)
  /\ (_wrap_length sample_narrow_printer <= 0)%Z
  /\ prompt sample_fill sample_is_integer sample_is_integer_str
       sample_int_of_str sample_repr sample_encodable sample_translate
       sample_narrow_printer (u "Which?") None (u "select")
       (u "None of the above.") (Some [u "first"; u "second"])
       true true (u "2")
     = ([], inl (ValueError (u "invalid width 0 (must be > 0)"))).
Proof.
  split; [reflexivity|].
  split; [reflexivity|]. split; [reflexivity|]. split; [reflexivity|].
  split.
  - exact (proj1 (proj1 (prompt_select_answer sample_fill sample_is_integer
                    sample_is_integer_str sample_int_of_str sample_repr
                    sample_encodable sample_translate
                    (sample_printer false None) (u "Which?") None
                    (u "None of the above.") [u "first"; u "second"]
                    true true (u "2")) eq_refl)
             1 (u "second") eq_refl eq_refl eq_refl).
  - split; [reflexivity|]. split.
    + exact (proj1 (proj2 (proj1 (prompt_select_answer sample_fill
                      sample_is_integer
                      sample_is_integer_str sample_int_of_str sample_repr
                      sample_encodable sample_translate
                      (sample_printer false None) (u "Which?") None
                      (u "None of the above.") [u "first"; u "second"]
                      true true (u "3")) eq_refl))
               (or_intror (or_intror eq_refl))).
    + split; [discriminate|].
      exact (proj2 (prompt_select_answer sample_fill sample_is_integer
                      sample_is_integer_str sample_int_of_str sample_repr
                      sample_encodable sample_translate
                      sample_narrow_printer (u "Which?") None
                      (u "None of the above.") [u "first"; u "second"]
                      true true (u "2"))
               ltac:(discriminate)).
Defined.

Lemma prompt_quiet_witness :
  _quiet (sample_printer true None) = true
  /\ prompt_choices (u "bool") (u "None of the above.") None
     = inr (u " (y/[n])")
  /\ (0 < _wrap_length (sample_printer true None))%Z
  /\ prompt sample_fill sample_is_integer sample_is_integer_str
       sample_int_of_str sample_repr sample_encodable sample_translate
       (sample_printer true None) (u "Continue?") None (u "bool")
       (u "None of the above.") None true true (u "y")
     = ([Stdin (u " (y/[n]) ")], inr (PBool true))
  /\ (-3 <= 0)%Z
  /\ prompt sample_fill sample_is_integer sample_is_integer_str
       sample_int_of_str sample_repr sample_encodable sample_translate
       (sample_printer true None) (u "Continue?") (Some (-3)%Z) (u "bool")
       (u "None of the above.") None true true (u "y")
     = ([], inl (ValueError (u "invalid width -3 (must be > 0)"))).
Proof.
  split; [reflexivity|]. split; [reflexivity|]. split; [reflexivity|].
  split.
  - exact (proj1 (prompt_quiet sample_fill sample_is_integer
                    sample_is_integer_str sample_int_of_str sample_repr
                    sample_encodable sample_translate
                    (sample_printer true None) (u "Continue?") None
                    (u "bool") (u "None of the above.") None true true
                    (u "y") (u " (y/[n])") eq_refl eq_refl) eq_refl).
  - split; [discriminate|].
    exact (proj2 (prompt_quiet sample_fill sample_is_integer
                    sample_is_integer_str sample_int_of_str sample_repr
                    sample_encodable sample_translate
                    (sample_printer true None) (u "Continue?")
                    (Some (-3)%Z) (u "bool") (u "None of the above.") None
                    true true (u "y") (u " (y/[n])") eq_refl eq_refl)
             ltac:(discriminate)).
Defined.

Lemma message_one_slot_witness :
  _quiet sample_slot_printer = true
  /\ _strings sample_slot_printer !! u "fitting"
     = Some (u "Fitting " ++ u "{}" ++ u " now")
  /\ brace_free (u "Fitting ") = true /\ brace_free (u " now") = true
  /\ message sample_fill sample_is_integer sample_repr sample_encodable
       sample_slot_printer (u "fitting") [] kw_message
     = ([], inl IndexError)
  /\ message_text sample_slot_printer (u "fitting") [u "SN2011fe"; u "x"]
     = inr (u "Fitting " ++ u "SN2011fe" ++ u " now").
Proof.
  split; [reflexivity|]. split; [reflexivity|].
  split; [reflexivity|]. split; [reflexivity|]. split.
  - exact (proj1 (message_one_slot sample_fill sample_is_integer sample_repr
                    sample_encodable sample_slot_printer (u "fitting")
                    (u "Fitting ") (u " now") [] kw_message
                    eq_refl eq_refl eq_refl) eq_refl).
  - exact (proj2 (message_one_slot sample_fill sample_is_integer sample_repr
                    sample_encodable sample_slot_printer (u "fitting")
                    (u "Fitting ") (u " now") [u "SN2011fe"; u "x"]
                    kw_message eq_refl eq_refl eq_refl)
             (u "SN2011fe") [u "x"] eq_refl).
Defined.

(** ** The [SED] module: wavelengths, frequencies and sums *)

(** The SEDs that survive [add_to_existing_seds]: without old SEDs the
    new ones are returned as they are; with old SEDs there are as many
    as the shorter of the two lists has, each as long as the shorter of
    the two SEDs at its place, and each value is the sum of the old and
    the new value at its place. *)
Theorem add_to_existing_seds_sums (new_seds old_seds : list (list float)) :
  add_to_existing_seds new_seds None = new_seds
  /\ length (add_to_existing_seds new_seds (Some old_seds))
     = Nat.min (length old_seds) (length new_seds)
  /\ forall i x y,
       old_seds !! i = Some x -> new_seds !! i = Some y ->
       exists r,
         add_to_existing_seds new_seds (Some old_seds) !! i = Some r
         /\ length r = Nat.min (length x) (length y)
         /\ forall k a b,
              x !! k = Some a -> y !! k = Some b ->
              r !! k = Some (a + b)%float.
Proof.
  split; [reflexivity|]. split; [apply length_zip_with|].
  intros i x y Hx Hy.
  exists (zip_with (fun i j => (i + j)%float) x y).
  unfold add_to_existing_seds. split; [|split].
  - rewrite lookup_zip_with, Hx, Hy. reflexivity.
  - apply length_zip_with.
  - intros k a b Ha Hb. rewrite lookup_zip_with, Ha, Hb. reflexivity.
Qed.

Lemma add_to_existing_seds_sums_witness :
  [[1; 2]; [3; 4]]%float !! 0 = Some [1; 2]%float
  /\ [[10; 20; 30]]%float !! 0 = Some [10; 20; 30]%float
  /\ exists r,
       add_to_existing_seds [[10; 20; 30]]%float
         (Some [[1; 2]; [3; 4]]%float) !! 0 = Some r
       /\ length r = 2.
Proof.
  split; [reflexivity|]. split; [reflexivity|].
  destruct (proj2 (proj2 (add_to_existing_seds_sums [[10; 20; 30]]%float
                            [[1; 2]; [3; 4]]%float))
              0 [1; 2]%float [10; 20; 30]%float eq_refl eq_refl)
    as (r & Hr & Hlen & _).
  exists r. split; [exact Hr|exact Hlen].
Defined.

Lemma frequencies_of_shape (C_CONST : float) (w : list (list float)) :
  length (frequencies_of C_CONST w) = length w
  /\ forall i y,
       w !! i = Some y ->
       exists g,
         frequencies_of C_CONST w !! i = Some g
         /\ length g = length y
         /\ forall k x, y !! k = Some x -> g !! k = Some (C_CONST / x)%float.
Proof.
  unfold frequencies_of. split; [apply length_map|].
  intros i y Hy. exists (List.map (fun x => (C_CONST / x)%float) y).
  split; [|split].
  - change (List.map ?f ?l) with (f <$> l). rewrite list_lookup_fmap, Hy.
    reflexivity.
  - apply length_map.
  - intros k x Hx.
    change (List.map ?f ?l) with (f <$> l). rewrite list_lookup_fmap, Hx.
    reflexivity.
Qed.

(** Requested wavelengths come back: after [receive_requests] with a
    list of sample wavelengths that is not empty, [send_request] returns
    that list for the request sample_wavelengths and the empty list for
    every other request; the band wave ranges are not looked at; and the
    frequencies are set, with the shape of the wavelengths and the speed
    of light divided by the wavelength at every place. *)
Theorem receive_requests_given (C_CONST : float)
    (linspace : float -> float -> nat -> list float) (self : SED)
    (req : requests) (y : list float) (w : list (list float)) :
  req_sample_wavelengths req = Some (y :: w) ->
  let after := fst (receive_requests C_CONST linspace self req) in
  snd (receive_requests C_CONST linspace self req) = inr tt
  /\ send_request after (u "sample_wavelengths") = y :: w
  /\ (forall request, str_eqb request (u "sample_wavelengths") = false ->
      send_request after request = [])
  /\ exists f,
       _sample_frequencies after = Some f
       /\ length f = length (y :: w)
       /\ forall i z,
            (y :: w) !! i = Some z ->
            exists g,
              f !! i = Some g /\ length g = length z
              /\ forall k x,
                   z !! k = Some x -> g !! k = Some (C_CONST / x)%float.
Proof.
  intros Hreq after. unfold after, receive_requests. rewrite Hreq.
  change (default [] (Some (y :: w))) with (y :: w). cbn [fst snd]. split; [reflexivity|]. split; [reflexivity|].
  split.
  - intros request Hne. unfold send_request. rewrite Hne. reflexivity.
  - exists (frequencies_of C_CONST (y :: w)). split; [reflexivity|].
    apply frequencies_of_shape.
Qed.

Lemma receive_requests_given_witness :
  let req := {| req_sample_wavelengths := Some [[4000; 5000]%float];
                req_band_wave_ranges := Some [[]] |} in
  req_sample_wavelengths req = Some [[4000; 5000]%float]
  /\ snd (receive_requests 3e18 sample_linspace SED_init req) = inr tt
  /\ send_request (fst (receive_requests 3e18 sample_linspace SED_init req))
       (u "sample_wavelengths") = [[4000; 5000]%float].
Proof.
  intros req. split; [reflexivity|].
  pose proof (receive_requests_given 3e18 sample_linspace SED_init req
                [4000; 5000]%float [] eq_refl) as H.
  split; [exact (proj1 H)|exact (proj1 (proj2 H))].
Defined.

Lemma append_ranges_ok (linspace : float -> float -> nat -> list float)
    (wr : list (list float)) :
  forall (acc : list (list float)) (l : list (float * float))
         (rest : list (list float)),
    Forall2 (fun rng p => rng !! 0 = Some (fst p) /\ rng !! 1 = Some (snd p))
            wr l ->
    append_ranges linspace acc (wr ++ rest)
    = append_ranges linspace
        (acc ++ List.map (fun p => linspace (fst p) (snd p) N_PTS) l) rest.
Proof.
  induction wr as [|rng wr IH]; intros acc l rest H.
  - apply Forall2_nil_inv_l in H. subst l. simpl. rewrite app_nil_r.
    reflexivity.
  - apply Forall2_cons_inv_l in H as (p & l' & [H0 H1] & Hrest & ->).
    change ((rng :: wr) ++ rest) with (rng :: (wr ++ rest)).
    cbn [append_ranges]. unfold item. rewrite H0, H1.
    unfold ok. cbv beta iota.
    rewrite (IH _ l' rest Hrest). cbn [List.map].
    rewrite <- app_assoc. reflexivity.
Qed.

(** Wavelengths from band wave ranges, when no sample wavelengths are
    requested (the key is missing, or its list is empty): without wave
    ranges the wavelengths are reset to the empty list and the
    frequencies are left as they were; with wave ranges that all have
    two end points there is one array of [N_PTS] points for every range,
    in order, and the frequencies are set from them; and at the first
    range with fewer than two end points [IndexError] is raised, the
    arrays of the ranges before it stay stored, and the frequencies are
    left as they were. *)
Theorem receive_requests_ranges (C_CONST : float)
    (linspace : float -> float -> nat -> list float) (self : SED)
    (req : requests) :
  default [] (req_sample_wavelengths req) = [] ->
  let arrays l := List.map (fun p => linspace (fst p) (snd p) N_PTS) l in
  let ends (rng : list float) (p : float * float) :=
    rng !! 0 = Some (fst p) /\ rng !! 1 = Some (snd p) in
  (default [] (req_band_wave_ranges req) = [] ->
   receive_requests C_CONST linspace self req
   = ({| _sample_wavelengths := [];
         _sample_frequencies := _sample_frequencies self |}, inr tt))
  /\ (forall wr l,
        req_band_wave_ranges req = Some wr -> wr <> [] ->
        Forall2 ends wr l ->
        receive_requests C_CONST linspace self req
        = ({| _sample_wavelengths := arrays l;
              _sample_frequencies :=
                Some (frequencies_of C_CONST (arrays l)) |}, inr tt)
          /\ length (arrays l) = length wr)
  /\ (forall good bad rest l,
        req_band_wave_ranges req = Some (good ++ bad :: rest) ->
        Forall2 ends good l -> length bad < 2 ->
        receive_requests C_CONST linspace self req
        = ({| _sample_wavelengths := arrays l;
              _sample_frequencies := _sample_frequencies self |},
           inl IndexError)).
Proof.
  intros Hsw arrays ends. split; [|split].
  - intros Hwr. unfold receive_requests. rewrite Hsw, Hwr. reflexivity.
  - intros wr l Hreq Hne Hends. split.
    + unfold receive_requests. rewrite Hsw, Hreq.
      change (default [] (Some wr)) with wr.
      destruct wr as [|rng rest]; [congruence|].
      pose proof (append_ranges_ok linspace (rng :: rest) [] l [] Hends)
        as Happ.
      rewrite app_nil_r in Happ. rewrite Happ. reflexivity.
    + unfold arrays. rewrite length_map. symmetry.
      apply (Forall2_length _ _ _ Hends).
  - intros good bad rest l Hreq Hends Hbad.
    unfold receive_requests. rewrite Hsw, Hreq.
    change (default [] (Some (good ++ bad :: rest)))
      with (good ++ bad :: rest).
    assert (Happ : append_ranges linspace [] (good ++ bad :: rest)
                   = (arrays l, inl IndexError)).
    { rewrite (append_ranges_ok linspace good [] l (bad :: rest) Hends).
      cbn [append_ranges app]. unfold item.
      destruct bad as [|a [|b bad]]; [reflexivity|reflexivity|].
      simpl in Hbad. lia. }
    destruct (good ++ bad :: rest) as [|rng rest'] eqn:E.
    + destruct good; discriminate.
    + rewrite Happ. reflexivity.
Qed.

Lemma receive_requests_ranges_witness :
  let req := {| req_sample_wavelengths := None;
                req_band_wave_ranges :=
                  Some [[3000; 4000]%float; [5000]%float; []] |} in
  default [] (req_sample_wavelengths req) = []
  /\ length [5000%float] < 2
  /\ receive_requests 3e18 sample_linspace SED_init req
     = ({| _sample_wavelengths := [sample_linspace 3000 4000 N_PTS];
           _sample_frequencies := None |}, inl IndexError).
Proof.
  intros req. split; [reflexivity|]. split; [repeat constructor|].
  exact (proj2 (proj2 (receive_requests_ranges 3e18 sample_linspace SED_init
                         req eq_refl))
           [[3000; 4000]%float] [5000%float] [[]]
           [(3000%float, 4000%float)] eq_refl
           ltac:(repeat constructor) ltac:(repeat constructor)).
Defined.

(** ** The heat map of [status] and the text beside it *)

Lemma no_linebreak_app (a b : str) :
  no_linebreak (a ++ b) = no_linebreak a && no_linebreak b.
Proof. apply forallb_app. Qed.

(** A line without a boundary, up to the line feed that ends it. *)
Lemma splitlines_from_line (l : str) :
  forall cur rest,
    no_linebreak l = true ->
    splitlines_from cur (l ++ 10%N :: rest)
    = (rev cur ++ l) :: splitlines_from [] rest.
Proof.
  induction l as [|c l IH]; intros cur rest Hl.
  - rewrite app_nil_r. change ([] ++ 10%N :: rest) with (10%N :: rest).
    rewrite splitlines_from_cons.
    change (is_linebreak 10) with true. cbv iota.
    destruct rest; reflexivity.
  - change (no_linebreak (c :: l))
      with (negb (is_linebreak c) && no_linebreak l) in Hl.
    apply andb_true_iff in Hl as [Hc Hl]. apply negb_true_iff in Hc.
    change ((c :: l) ++ 10%N :: rest) with (c :: (l ++ 10%N :: rest)).
    rewrite splitlines_from_cons, Hc, (IH (c :: cur) rest Hl).
    change (rev (c :: cur)) with (rev cur ++ [c]).
    rewrite <- app_assoc. reflexivity.
Qed.

(** A last line without a boundary and without a line feed after it. *)
Lemma splitlines_from_last (l : str) :
  forall cur,
    no_linebreak l = true -> rev cur ++ l <> [] ->
    splitlines_from cur l = [rev cur ++ l].
Proof.
  induction l as [|c l IH]; intros cur Hl Hne.
  - rewrite app_nil_r in *.
    destruct cur as [|x cur]; [simpl in Hne; congruence|].
    reflexivity.
  - change (no_linebreak (c :: l))
      with (negb (is_linebreak c) && no_linebreak l) in Hl.
    apply andb_true_iff in Hl as [Hc Hl]. apply negb_true_iff in Hc.
    rewrite splitlines_from_cons, Hc.
    assert (Heq : rev (c :: cur) ++ l = rev cur ++ c :: l).
    { change (rev (c :: cur)) with (rev cur ++ [c]).
      rewrite <- app_assoc. reflexivity. }
    rewrite (IH (c :: cur) Hl); rewrite Heq; [reflexivity|exact Hne].
Qed.

Lemma no_linebreak_repeat_str (n : nat) :
  no_linebreak (repeat_str (u "═") n) = true.
Proof.
  unfold repeat_str. induction n as [|n IH]; [reflexivity|].
  cbn [repeat concat]. rewrite no_linebreak_app, IH. reflexivity.
Qed.

Lemma length_repeat_str_one (c : char) (n : nat) :
  length (repeat_str [c] n) = n.
Proof.
  unfold repeat_str. induction n as [|n IH]; [reflexivity|].
  cbn [repeat concat]. rewrite length_app, IH. reflexivity.
Qed.

Lemma glyph_row_no_linebreak (r : str) :
  glyph_row r = true -> no_linebreak r = true.
Proof.
  unfold glyph_row, no_linebreak. induction r as [|c r IH];
    [reflexivity|].
  cbn [forallb]. intros H. apply andb_true_iff in H as [Hc Hr].
  rewrite (IH Hr), andb_true_r.
  unfold chr_in in Hc. cbn [existsb u] in Hc.
  change (u " .*#") with [32%N; 46%N; 42%N; 35%N] in Hc.
  cbn [existsb] in Hc. rewrite !orb_true_iff in Hc.
  destruct Hc as [Hc|[Hc|[Hc|[Hc|Hc]]]]; try discriminate;
    apply chr_eqb_eq in Hc; subst c; reflexivity.
Qed.

Lemma frame_assoc (a r s1 s2 j b tail : str) :
  (a ++ (r ++ (s1 ++ [10%N] ++ s2) ++ j) ++ b) ++ 10%N :: tail
  = (a ++ r ++ s1) ++ 10%N :: ((s2 ++ j ++ b) ++ 10%N :: tail).
Proof. rewrite <- !app_assoc. reflexivity. Qed.

(** The rows of cells between their borders, as lines. *)
Lemma splitlines_frame (rows : list str) :
  forall tail,
    Forall (fun r => no_linebreak r = true) rows ->
    splitlines_from []
      ((u "║" ++ join (u "║   " ++ [10%N] ++ u "║") rows ++ u "║")
       ++ 10%N :: tail)
    = frame_rows rows ++ splitlines_from [] tail.
Proof.
  induction rows as [|r rows IH]; intros tail Hrows.
  - change (u "║" ++ join (u "║   " ++ [10%N] ++ u "║") [] ++ u "║")
      with (u "║║").
    rewrite splitlines_from_line by reflexivity. reflexivity.
  - apply Forall_cons in Hrows as [Hr Hrows].
    destruct rows as [|r2 rest].
    + change (join (u "║   " ++ [10%N] ++ u "║") [r]) with r.
      rewrite splitlines_from_line.
      * reflexivity.
      * rewrite !no_linebreak_app, Hr. reflexivity.
    + change (join (u "║   " ++ [10%N] ++ u "║") (r :: r2 :: rest))
        with (r ++ (u "║   " ++ [10%N] ++ u "║")
                ++ join (u "║   " ++ [10%N] ++ u "║") (r2 :: rest)).
      assert (Hassoc :
        (u "║" ++ (r ++ (u "║   " ++ [10%N] ++ u "║")
                     ++ join (u "║   " ++ [10%N] ++ u "║") (r2 :: rest))
              ++ u "║") ++ 10%N :: tail
        = (u "║" ++ r ++ u "║   ")
          ++ 10%N ::
             ((u "║" ++ join (u "║   " ++ [10%N] ++ u "║") (r2 :: rest)
                 ++ u "║") ++ 10%N :: tail)).
      { apply frame_assoc. }
      rewrite Hassoc.
      rewrite splitlines_from_line
        by (rewrite !no_linebreak_app, Hr; reflexivity).
      rewrite (IH tail Hrows). reflexivity.
Qed.

Lemma frame_rows_length (rows : list str) :
  rows <> [] -> length (frame_rows rows) = length rows.
Proof.
  induction rows as [|r rows IH]; [congruence|]. intros _.
  destruct rows as [|r2 rest]; [reflexivity|].
  change (frame_rows (r :: r2 :: rest))
    with ((u "║" ++ r ++ u "║   ") :: frame_rows (r2 :: rest)).
  cbn [length]. rewrite IH by discriminate. reflexivity.
Qed.

(** The width of a framed row: the last row lacks the three blanks. *)
Lemma frame_rows_width (n : nat) (rows : list str) :
  Forall (fun r => length r = n) rows ->
  forall i line,
    frame_rows rows !! i = Some line -> rows <> [] ->
    length line = if S i <? length rows then n + 5 else n + 2.
Proof.
  induction rows as [|r rows IH]; intros Hrows i line Hi Hne;
    [congruence|].
  apply Forall_cons in Hrows as [Hr Hrows].
  destruct rows as [|r2 rest].
  - destruct i as [|i]; [|discriminate].
    assert (Hline : line = u "║" ++ r ++ u "║").
    { change (frame_rows [r] !! 0) with (Some (u "║" ++ r ++ u "║")) in Hi.
      congruence. }
    subst line. rewrite !length_app, Hr.
    change (length (u "║")) with 1. change (S 0 <? length [r]) with false.
    cbv iota. lia.
  - change (frame_rows (r :: r2 :: rest))
      with ((u "║" ++ r ++ u "║   ") :: frame_rows (r2 :: rest)) in Hi.
    destruct i as [|i].
    + assert (Hline : line = u "║" ++ r ++ u "║   ").
      { change (((u "║" ++ r ++ u "║   ") :: frame_rows (r2 :: rest)) !! 0)
          with (Some (u "║" ++ r ++ u "║   ")) in Hi.
        congruence. }
      subst line. rewrite !length_app, Hr.
      change (length (u "║")) with 1. change (length (u "║   ")) with 4.
      change (S 0 <? length (r :: r2 :: rest)) with true.
      cbv iota. lia.
    + cbn [lookup list_lookup] in Hi.
      rewrite (IH Hrows i line Hi) by discriminate.
      cbn [length].
      destruct (S i <? S (length rest)) eqn:E1,
               (S (S i) <? S (S (length rest))) eqn:E2;
        try reflexivity;
        [apply Nat.ltb_lt in E1; apply Nat.ltb_ge in E2
        |apply Nat.ltb_ge in E1; apply Nat.ltb_lt in E2]; lia.
Qed.

Lemma map_result_all {A B} (f : A -> result B) (P : B -> Prop)
    (l : list A) :
  (forall x, In x l -> exists y, f x = inr y /\ P y) ->
  exists ys, map_result f l = inr ys /\ length ys = length l
             /\ Forall P ys.
Proof.
  induction l as [|x l IH]; intros H.
  - exists []. repeat split. constructor.
  - destruct (H x (or_introl eq_refl)) as (y & Hy & Py).
    destruct IH as (ys & Hys & Hlen & Pys).
    { intros z Hz. apply H. right. exact Hz. }
    exists (y :: ys). cbn [map_result]. rewrite Hy, Hys.
    repeat split; [simpl; lia|constructor; assumption].
Qed.

Lemma ascii_fill_three (v p0 p1 p2 : float) :
  exists c, ascii_fill v [p0; p1; p2] = inr [c]
            /\ chr_in c (u " .*#") = true.
Proof.
  unfold ascii_fill, item. cbn [lookup list_lookup].
  destruct (isnan v).
  - exists 32%N. split; reflexivity.
  - cbn [mbind result_bind mret result_ret ok].
    destruct (v <? p0)%float; [exists 32%N; split; reflexivity|].
    cbn [mbind result_bind ok].
    destruct (v <? p1)%float; [exists 46%N; split; reflexivity|].
    cbn [mbind result_bind ok].
    destruct (v <? p2)%float;
      [exists 42%N; split; reflexivity|exists 35%N; split; reflexivity].
Qed.

Lemma concat_cells (cells : list str) :
  Forall (fun cell => exists c, cell = [c] /\ chr_in c (u " .*#") = true)
         cells ->
  length (concat cells) = length cells /\ glyph_row (concat cells) = true.
Proof.
  induction 1 as [|cell cells (c & -> & Hc) _ [IHl IHg]];
    [split; reflexivity|].
  cbn [concat app length]. rewrite IHl. split; [reflexivity|].
  unfold glyph_row in *. cbn [forallb]. rewrite Hc, IHg. reflexivity.
Qed.

Section HeatMap.

Variable congrid : list (list float) -> nat -> nat -> list (list float).
Variable np_log : list (list float) -> list (list float).
Variable np_max : list (list float) -> float.
Variable np_percentile : list (list float) -> Z -> float.

(** The heat map of [status] for a scaled matrix of [R] rows by [C]
    columns, both at least 1: [doodle_of] raises nothing and draws the
    matrix transposed, as an empty line, the top border, [C] rows of [R]
    cells each between side borders, and the bottom border: [C + 3]
    lines. The borders and every row but the last are [R + 5] wide, with
    three blanks at the end; the last row of cells has no blanks after
    its border and is [R + 2] wide. The width [status] reserves for the
    heat map, the length of the last line, is [R + 5]. *)
Theorem doodle_of_shape (kmat : list (list float)) (R C : nat) :
  let scaled := np_log (congrid kmat 14 7) in
  length scaled = R ->
  forallb (fun row => length row =? C) scaled = true ->
  1 <= R -> 1 <= C ->
  exists rows,
    doodle_of congrid np_log np_max np_percentile kmat
    = inr ([] :: frame_top R :: frame_rows rows ++ [frame_bottom R], C)
    /\ length rows = C
    /\ Forall (fun r => length r = R /\ glyph_row r = true) rows
    /\ length (frame_rows rows) = C
    /\ (forall i line, frame_rows rows !! i = Some line ->
          length line = if S i <? C then R + 5 else R + 2)
    /\ length (frame_top R) = R + 5
    /\ length (List.last ([] :: frame_top R :: frame_rows rows
                             ++ [frame_bottom R]) []) = R + 5.
Proof.
  intros scaled HR HC HR1 HC1.
  set (top := np_max scaled).
  set (m := List.map (List.map (fun x => (x / top)%float)) scaled).
  set (pers := List.map (np_percentile m) [20; 50; 80]%Z).
  assert (Hm_len : length m = R).
  { unfold m. rewrite length_map. exact HR. }
  assert (Hm_rows : forall i row, m !! i = Some row -> length row = C).
  { intros i row Hi. unfold m in Hi.
    change (List.map ?f ?l) with (f <$> l) in Hi.
    rewrite list_lookup_fmap in Hi.
    destruct (scaled !! i) as [row0|] eqn:E; [|discriminate].
    injection Hi as <-. change (?f <$> ?l) with (List.map f l).
    rewrite length_map.
    rewrite List.forallb_forall in HC.
    apply Nat.eqb_eq, HC. apply list_elem_of_In.
    apply (list_elem_of_lookup_2 _ _ _ E). }
  destruct (m !! 0) as [row0|] eqn:Hrow0.
  2:{ apply lookup_ge_None in Hrow0. lia. }
  pose proof (Hm_rows 0 row0 Hrow0) as Hrow0_len.
  destruct (map_result_all
    (fun j =>
       cells ← map_result (fun i =>
                  row ← item m i;
                  v ← item row j;
                  ascii_fill v pers) (seq 0 (length m));
       ok (concat cells))
    (fun r => length r = R /\ glyph_row r = true)
    (seq 0 (length row0))) as (rows & Hrows & Hrows_len & Hrows_all).
  { intros j Hj. apply in_seq in Hj.
    destruct (map_result_all
      (fun i => row ← item m i; v ← item row j; ascii_fill v pers)
      (fun cell => exists c, cell = [c] /\ chr_in c (u " .*#") = true)
      (seq 0 (length m))) as (cells & Hcells & Hcells_len & Hcells_all).
    { intros i Hi. apply in_seq in Hi.
      destruct (m !! i) as [row|] eqn:Hrow.
      2:{ apply lookup_ge_None in Hrow. lia. }
      pose proof (Hm_rows i row Hrow) as Hrow_len.
      destruct (row !! j) as [v|] eqn:Hv.
      2:{ apply lookup_ge_None in Hv. lia. }
      unfold item. rewrite Hrow. cbn [mbind result_bind ok].
      rewrite Hv. cbn [mbind result_bind ok].
      destruct (ascii_fill_three v (np_percentile m 20)
                  (np_percentile m 50) (np_percentile m 80))
        as (c & Hc & Hin).
      exists [c]. split; [exact Hc|]. exists c. split; [reflexivity|exact Hin]. }
    exists (concat cells). rewrite Hcells. cbn [mbind result_bind].
    split; [reflexivity|].
    destruct (concat_cells cells Hcells_all) as [Hl Hg].
    rewrite Hl, Hcells_len, length_seq. split; [exact Hm_len|exact Hg]. }
  rewrite length_seq in Hrows_len.
  assert (Hrows_ne : rows <> []).
  { intros ->. simpl in Hrows_len. lia. }
  assert (Hrows_free : Forall (fun r => no_linebreak r = true) rows).
  { eapply Forall_impl; [exact Hrows_all|].
    intros r [_ Hg]. apply glyph_row_no_linebreak, Hg. }
  assert (Hrows_n : Forall (fun r => length r = R) rows).
  { eapply Forall_impl; [exact Hrows_all|]. intros r [Hl _]. exact Hl. }
  assert (Htop : no_linebreak (frame_top R) = true).
  { unfold frame_top. rewrite !no_linebreak_app, no_linebreak_repeat_str.
    reflexivity. }
  assert (Hbottom : no_linebreak (frame_bottom R) = true).
  { unfold frame_bottom.
    rewrite !no_linebreak_app, no_linebreak_repeat_str. reflexivity. }
  assert (Hlen_top : length (frame_top R) = R + 5).
  { unfold frame_top. change (u "═") with [9552%N].
    rewrite !length_app, (length_repeat_str_one 9552%N R).
    change (length (u "╔")) with 1. change (length (u "╗   ")) with 4.
    lia. }
  assert (Hlen_bottom : length (frame_bottom R) = R + 5).
  { unfold frame_bottom. change (u "═") with [9552%N].
    rewrite !length_app, (length_repeat_str_one 9552%N R).
    change (length (u "╚")) with 1. change (length (u "╝   ")) with 4.
    lia. }
  exists rows. split; [|split; [|split; [|split; [|split; [|split]]]]].
  - unfold doodle_of. fold scaled. fold top. fold m. fold pers.
    assert (Hitem : item m 0 = inr row0)
      by (unfold item; rewrite Hrow0; reflexivity).
    rewrite Hitem. cbn [mbind result_bind].
    rewrite Hrows. cbn [mbind result_bind].
    rewrite Hm_len, Hrow0_len. f_equal. f_equal.
    unfold splitlines.
    assert (Hdoodle :
      [10%N] ++ u "╔" ++ repeat_str (u "═") R ++ u "╗   " ++ [10%N]
      ++ u "║" ++ join (u "║   " ++ [10%N] ++ u "║") rows ++ u "║"
      ++ [10%N] ++ u "╚" ++ repeat_str (u "═") R ++ u "╝   "
      = [] ++ 10%N ::
        (frame_top R ++ 10%N ::
           ((u "║" ++ join (u "║   " ++ [10%N] ++ u "║") rows ++ u "║")
            ++ 10%N :: frame_bottom R))).
    { unfold frame_top, frame_bottom. rewrite <- !app_assoc. reflexivity. }
    rewrite Hdoodle.
    rewrite (splitlines_from_line [] [] _ eq_refl).
    rewrite (splitlines_from_line (frame_top R) [] _ Htop).
    rewrite (splitlines_frame rows (frame_bottom R) Hrows_free).
    rewrite (splitlines_from_last (frame_bottom R) [] Hbottom).
    + reflexivity.
    + unfold frame_bottom. discriminate.
  - rewrite Hrows_len. exact Hrow0_len.
  - exact Hrows_all.
  - rewrite (frame_rows_length rows Hrows_ne), Hrows_len. exact Hrow0_len.
  - intros i line Hi.
    rewrite (frame_rows_width R rows Hrows_n i line Hi Hrows_ne).
    rewrite Hrows_len, Hrow0_len. reflexivity.
  - exact Hlen_top.
  - change ([] :: frame_top R :: frame_rows rows ++ [frame_bottom R])
      with (([] : str) :: (frame_top R :: frame_rows rows)
                           ++ [frame_bottom R]).
    rewrite app_comm_cons, List.last_last. exact Hlen_bottom.
Qed.

End HeatMap.

Lemma doodle_of_shape_witness :
  let kmat := [[1; 2]; [3; 4]]%float in
  length (sample_np_log (sample_congrid kmat 14 7)) = 14
  /\ forallb (fun row => length row =? 7)
       (sample_np_log (sample_congrid kmat 14 7)) = true
  /\ 1 <= 14 /\ 1 <= 7
  /\ exists rows,
       doodle_of sample_congrid sample_np_log sample_np_max
         sample_np_percentile kmat
       = inr ([] :: frame_top 14 :: frame_rows rows ++ [frame_bottom 14], 7)
       /\ length (frame_rows rows) = 7.
Proof.
  intros kmat. split; [reflexivity|]. split; [reflexivity|].
  split; [lia|]. split; [lia|].
  destruct (doodle_of_shape sample_congrid sample_np_log sample_np_max
              sample_np_percentile kmat 14 7 eq_refl eq_refl
              ltac:(lia) ltac:(lia))
    as (rows & Hd & _ & _ & Hlen & _).
  exists rows. split; [exact Hd|exact Hlen].
Defined.

(** The status lines laid over the heat map: the heat map keeps its
    number of lines; status line [k] is appended to the heat map line
    [loff + k], where [loff] is 2 more than half the number of columns
    less the number of status lines, rounded down; the heat map lines
    before and after those are left as they are; and when the heat map
    has 3 lines more than columns, as [doodle_of] draws it, up to as
    many status lines as the heat map has lines all find a place. *)
Theorem overlay_rows (doodle lines : list str) (ncols : nat) :
  let loff := ((Z.of_nat ncols - Z.of_nat (length lines)) / 2 + 2)%Z in
  exists rows,
    overlay doodle lines ncols = join [10%N] rows
    /\ length rows = length doodle
    /\ (forall k t d,
          lines !! k = Some t -> (0 <= loff + Z.of_nat k)%Z ->
          doodle !! Z.to_nat (loff + Z.of_nat k) = Some d ->
          rows !! Z.to_nat (loff + Z.of_nat k) = Some (d ++ t))
    /\ (forall li d,
          doodle !! li = Some d ->
          (Z.of_nat li < loff)%Z
          \/ (loff + Z.of_nat (length lines) <= Z.of_nat li)%Z ->
          rows !! li = Some d)
    /\ (length doodle = ncols + 3 -> length lines <= ncols + 3 ->
        forall k, k < length lines ->
          (0 <= loff + Z.of_nat k < Z.of_nat (length doodle))%Z).
Proof.
  intros loff.
  exists (imap (fun li line =>
       if (Z.of_nat li <? loff)%Z then line
       else if (loff + Z.of_nat (length lines) - 1 <? Z.of_nat li)%Z
            then line
            else line ++ nth (Z.to_nat (Z.of_nat li - loff)) lines [])
       doodle).
  split; [reflexivity|]. split; [apply length_imap|].
  split; [|split].
  - intros k t d Hk Hpos Hd.
    pose proof (lookup_lt_Some _ _ _ Hk) as Hlt.
    rewrite list_lookup_imap, Hd. cbn [fmap option_fmap option_map].
    rewrite Z2Nat.id by exact Hpos.
    replace (loff + Z.of_nat k <? loff)%Z with false
      by (symmetry; apply Z.ltb_ge; lia).
    replace (loff + Z.of_nat (length lines) - 1 <? loff + Z.of_nat k)%Z
      with false by (symmetry; apply Z.ltb_ge; lia).
    replace (Z.to_nat (loff + Z.of_nat k - loff)) with k by lia.
    rewrite (nth_lookup_Some _ _ _ _ Hk). reflexivity.
  - intros li d Hd Hout.
    rewrite list_lookup_imap, Hd. cbn [fmap option_fmap option_map].
    destruct Hout as [Hlow|Hhigh].
    + replace (Z.of_nat li <? loff)%Z with true
        by (symmetry; apply Z.ltb_lt; lia).
      reflexivity.
    + destruct (Z.of_nat li <? loff)%Z; [reflexivity|].
      replace (loff + Z.of_nat (length lines) - 1 <? Z.of_nat li)%Z
        with true by (symmetry; apply Z.ltb_lt; lia).
      reflexivity.
  - intros Hd Hl k Hk. unfold loff.
    pose proof (Z.div_mod (Z.of_nat ncols - Z.of_nat (length lines)) 2
                  ltac:(lia)) as Hdm.
    pose proof (Z.mod_pos_bound
                  (Z.of_nat ncols - Z.of_nat (length lines)) 2
                  ltac:(lia)) as Hmod.
    lia.
Qed.

Lemma overlay_rows_witness :
  let doodle := [u "a"; u "b"; u "c"; u "d"] in
  let lines := [u "x"; u "y"] in
  lines !! 1 = Some (u "y")
  /\ doodle !! 2 = Some (u "c")
  /\ overlay doodle lines 1 = u "a" ++ [10%N] ++ u "bx" ++ [10%N]
                               ++ u "cy" ++ [10%N] ++ u "d"
  /\ exists rows,
       overlay doodle lines 1 = join [10%N] rows
       /\ rows !! 2 = Some (u "c" ++ u "y").
Proof.
  intros doodle lines. split; [reflexivity|]. split; [reflexivity|].
  split; [reflexivity|].
  destruct (overlay_rows doodle lines 1) as (rows & Hj & _ & Hk & _).
  exists rows. split; [exact Hj|].
  exact (Hk 1 (u "y") (u "c") eq_refl ltac:(vm_compute; discriminate)
            eq_refl).
Defined.

(** ** The time segment, and what [status] writes without a heat map *)

(** The packed text starts with a line feed. *)
Lemma status_pack_starts (width : Z) (outarr : list str) :
  exists packed, status_pack width outarr = 10%N :: packed.
Proof.
  rewrite status_pack_groups. unfold pack_groups.
  destruct (fold_left (group_step width) outarr ([], [])) as [cur closed].
  unfold render_groups.
  destruct closed as [|g closed]; cbn [app List.map concat];
    eexists; reflexivity.
Qed.

Lemma isnan_add_l (a b : float) : isnan a = true -> isnan (a + b) = true.
Proof.
  intros Ha. apply isnan_Prim2SF. rewrite add_spec.
  apply isnan_Prim2SF in Ha. rewrite Ha. reflexivity.
Qed.

Lemma isnan_add_r (a b : float) : isnan b = true -> isnan (a + b) = true.
Proof.
  intros Hb. apply isnan_Prim2SF. rewrite add_spec.
  apply isnan_Prim2SF in Hb. rewrite Hb.
  destruct (Prim2SF a); reflexivity.
Qed.

Lemma fltb_nan_r (x y : float) : isnan y = true -> (x <? y)%float = false.
Proof.
  intros Hy. destruct (x <? y)%float eqn:E; [|reflexivity].
  apply fltb_not_nan in E. destruct E. congruence.
Qed.

(** [get_timestring] on a time that is not finite: NaN raises
    [ValueError] and an infinite time raises [OverflowError], both
    before the catalogue is read, so also when the label is missing. *)
Theorem get_timestring_not_finite (self : Printer) (t : float) :
  (isnan t = true ->
   get_timestring self t
   = inl (ValueError (u "cannot convert float NaN to integer")))
  /\ (t = infinity \/ t = neg_infinity ->
      get_timestring self t = inl OverflowError).
Proof.
  split.
  - intros Ht. apply isnan_Prim2SF in Ht.
    unfold get_timestring, py_round. rewrite Ht. reflexivity.
  - intros [->| ->]; reflexivity.
Qed.

Lemma get_timestring_not_finite_witness :
  isnan nan = true
  /\ get_timestring (sample_printer false None) nan
     = inl (ValueError (u "cannot convert float NaN to integer"))
  /\ get_timestring (sample_printer false None) infinity
     = inl OverflowError.
Proof.
  split; [reflexivity|]. split.
  - exact (proj1 (get_timestring_not_finite (sample_printer false None) nan)
             eq_refl).
  - exact (proj2 (get_timestring_not_finite (sample_printer false None)
                    infinity) (or_introl eq_refl)).
Defined.

(** A time estimate that is NaN gives no time segment and no error:
    when the estimate of the fitter for emcee is NaN, and when it is not
    negative and the estimate for the basin hopping is NaN, [status]
    adds nothing for the time. *)
Theorem status_time_nan (self : Printer) (f : Fitter) :
  isnan (_emcee_est_t f) = true
  \/ ((_emcee_est_t f <? 0.0)%float = false
      /\ isnan (_bh_est_t f) = true) ->
  status_time self f = inr [].
Proof.
  intros H. unfold status_time.
  destruct H as [He|[Hneg Hb]].
  - rewrite (isnan_fltb _ _ He).
    rewrite (fltb_nan_r _ _ (isnan_add_l _ (_bh_est_t f) He)).
    reflexivity.
  - rewrite Hneg.
    rewrite (fltb_nan_r _ _ (isnan_add_r (_emcee_est_t f) _ Hb)).
    reflexivity.
Qed.

Lemma status_time_nan_witness :
  isnan (_emcee_est_t (sample_fitter nan 5 true)) = true
  /\ status_time (sample_printer false None) (sample_fitter nan 5 true)
     = inr [].
Proof.
  split; [reflexivity|].
  exact (status_time_nan (sample_printer false None)
           (sample_fitter nan 5 true) (or_introl eq_refl)).
Defined.

Section StatusPlain.

Variable fill : str -> Z -> bool -> str.
Variable is_integer : Z -> bool.
Variable repr : str -> str.
Variable encodable : str -> bool.
Variable pretty_num : float -> nat -> str.
Variable calculate_WAIC : list (list float) -> float.
Variable format_percent : float -> str.
Variable congrid : list (list float) -> nat -> nat -> list (list float).
Variable np_log : list (list float) -> list (list float).
Variable np_max : list (list float) -> float.
Variable np_percentile : list (list float) -> Z -> float.

(** [status] without a heat map, on a printer that is not quiet and is
    the master or has no pool, with a fitter, segments that are built
    without an error and a list of messages: it raises nothing; the text
    it packs starts with a line feed, so the first line it writes is
    empty; after it come the lines of the packed text, colorified; and
    in place (no room asked for, and the fitter not in test mode) it
    first moves up and clears once for every line, the empty one
    included. *)
Theorem status_plain (self : Printer) (f : Fitter) (desc : str)
    (scores : option (list (list float))) (accepts : option (list float))
    (progress : option (Z * option Z)) (acor : option (float * float * Z))
    (psrf : option (float * Z)) (fracking : bool) (messages : list str)
    (kmat : option (list (list float))) (make_space : bool)
    (outarr : list str) :
  _quiet self = false -> _pool self <> Some false ->
  _fitter self = Some f ->
  status_segments pretty_num calculate_WAIC format_percent self f desc
    scores accepts progress acor psrf fracking = inr outarr ->
  match kmat with Some k => negb (1 <? length k) | None => true end = true ->
  exists packed,
    status_pack (_wrap_length self) (outarr ++ messages) = 10%N :: packed
    /\ let rest := splitlines (packed ++ [10%N]) in
       let written line :=
         Stdout ((if encodable (colorify line) then colorify line
                  else ascii_replace (colorify line)) ++ [10%N]) in
       status fill is_integer repr encodable pretty_num calculate_WAIC
         format_percent congrid np_log np_max np_percentile self desc
         scores accepts progress acor psrf fracking (Some messages) kmat
         make_space
       = ((if negb make_space && negb (_test f)
           then erase_events ([] :: rest) else [])
          ++ Stdout [10%N] :: List.map written rest, inr tt).
Proof.
  intros Hq Hp Hf Hseg Hk.
  destruct (status_pack_starts (_wrap_length self) (outarr ++ messages))
    as [packed Hpacked].
  exists packed. split; [exact Hpacked|]. intros rest written.
  unfold status. rewrite Hq, Hf, bind_ret, Hseg, bind_lift_ok, bind_ret.
  assert (Hheat :
    match kmat with
    | Some k =>
      if 1 <? length k
      then d ← lift (doodle_of congrid np_log np_max np_percentile k);
           mret (Some d)
      else mret None
    | None => mret None
    end = (mret None : io (option (list str * nat)))).
  { destruct kmat as [k|]; [|reflexivity].
    apply negb_true_iff in Hk. rewrite Hk. reflexivity. }
  rewrite Hheat, bind_ret. cbv beta iota zeta.
  rewrite Z.sub_0_r, bind_ret, Hpacked.
  match goal with
  | |- prt _ _ _ _ _ _ ?kw = _ =>
      pose proof (prt_written fill is_integer repr encodable self
                    (10%N :: packed) kw ([] :: rest) eq_refl) as Hprt
  end.
  cbv zeta in Hprt. cbn [kw_colorify kw_inline orb] in Hprt.
  rewrite Hf in Hprt. rewrite Hprt.
  - cbn [List.map]. f_equal. f_equal.
    assert (Hempty : colorify [] = []) by reflexivity.
    rewrite Hempty. destruct (encodable []); reflexivity.
  - match goal with
    | |- _lines _ _ _ _ ?kw = _ =>
        assert (Hl : _lines fill is_integer self (10%N :: packed) kw
                     = inr (splitlines ((10%N :: packed) ++ [10%N])))
    end.
    { unfold _lines. rewrite Hq.
      destruct (_pool self) as [[|]|]; try reflexivity. congruence. }
    rewrite Hl. unfold rest, splitlines.
    change ((10%N :: packed) ++ [10%N])
      with ([] ++ 10%N :: (packed ++ [10%N])).
    rewrite (splitlines_from_line [] [] _ eq_refl). reflexivity.
Qed.

End StatusPlain.

Lemma status_plain_witness :
  let f := sample_fitter 10 0 true in
  let self := sample_printer false (Some f) in
  _quiet self = false /\ _fitter self = Some f
  /\ status_segments sample_pretty_num sample_WAIC sample_format_percent
       self f [] None None None None None false
     = inr [u "SN2011fe"; u "Estimated time left: [ 0:00:20 ]"]
  /\ exists packed,
       status_pack (_wrap_length self)
         ([u "SN2011fe"; u "Estimated time left: [ 0:00:20 ]"]
          ++ [u "hello"]) = 10%N :: packed
       /\ status sample_fill sample_is_integer sample_repr sample_encodable
            sample_pretty_num sample_WAIC sample_format_percent
            sample_congrid sample_np_log sample_np_max sample_np_percentile
            self [] None None None None None false (Some [u "hello"]) None
            false
          = ([Stdout (ESC :: u "[F"); Stdout (ESC :: u "[K");
              Stdout (ESC :: u "[F"); Stdout (ESC :: u "[K");
              Stdout [10%N];
              Stdout (u "SN2011fe | Estimated time left: [ 0:00:20 ] | hello"
                      ++ [10%N])], inr tt).
Proof.
  intros f self. split; [reflexivity|]. split; [reflexivity|].
  split; [reflexivity|].
  destruct (status_plain sample_fill sample_is_integer sample_repr
              sample_encodable sample_pretty_num sample_WAIC
              sample_format_percent sample_congrid sample_np_log
              sample_np_max sample_np_percentile self f [] None None None
              None None false [u "hello"] None false
              [u "SN2011fe"; u "Estimated time left: [ 0:00:20 ]"]
              eq_refl ltac:(discriminate) eq_refl eq_refl eq_refl)
    as (packed & Hpacked & Hstatus).
  exists packed. split; [exact Hpacked|].
  rewrite Hstatus.
  assert (Hp : packed
               = u "SN2011fe | Estimated time left: [ 0:00:20 ] | hello").
  { vm_compute in Hpacked. injection Hpacked as <-. reflexivity. }
  rewrite Hp. vm_compute. reflexivity.
Defined.

(** ** The connectors of the dependency tree *)

(** [replace] of one character by one character, character by
    character. *)
Lemma replace_char (a b : char) (s : str) :
  replace [a] [b] s = List.map (fun c => if chr_eqb a c then b else c) s.
Proof.
  unfold replace, replace_n.
  induction s as [|c s IH]; [reflexivity|].
  cbn [replace_from count_left andb startswith length Nat.sub count_dec
       List.map].
  rewrite andb_true_r. destruct (chr_eqb a c); cbn [app]; rewrite IH;
    reflexivity.
Qed.

Lemma corner_char_single (below : str) (ci : nat) (x : char) :
  exists c,
    corner_char below ci x = [c]
    /\ (continues_down c = true -> below !! ci <> Some 32%N).
Proof.
  unfold corner_char, continues_down.
  destruct (Z.of_nat (length below) - 1 <? Z.of_nat ci)%Z eqn:Hlen.
  - exists x. split; [reflexivity|]. intros _ Hb.
    apply lookup_lt_Some in Hb. apply Z.ltb_lt in Hlen. lia.
  - cbn [orb]. destruct (chr_in x [BOX_V; BOX_VR]) eqn:Hx.
    + cbn [negb orb].
      destruct (below !! ci) as [b|] eqn:Hb.
      * destruct (chr_eqb b 32) eqn:Hb32.
        -- cbn [negb]. rewrite !replace_char. cbn [List.map].
           eexists. split; [reflexivity|].
           unfold chr_in, BOX_V, BOX_VR, BOX_UR, chr_eqb in *.
           cbn [existsb] in *.
           destruct (9474 =? x)%N eqn:E1.
           ++ cbn. discriminate.
           ++ destruct (9500 =? x)%N eqn:E2.
              ** cbn. discriminate.
              ** rewrite (N.eqb_sym x 9474), (N.eqb_sym x 9500), E1, E2 in Hx.
                 discriminate.
        -- cbn [negb]. exists x. split; [reflexivity|].
           intros _ [= ->]. discriminate.
      * cbn [negb]. exists x. split; [reflexivity|]. discriminate.
    + cbn [negb orb]. exists x. split; [reflexivity|]. congruence.
Qed.

Lemma concat_imap_single {A} (f : nat -> A -> str) (l : list A) :
  (forall i x, exists c, f i x = [c]) ->
  forall ci c,
    concat (imap f l) !! ci = Some c ->
    exists x, l !! ci = Some x /\ f ci x = [c].
Proof.
  revert f. induction l as [|x l IH]; intros f Hf ci c Hc.
  - discriminate.
  - cbn [imap concat] in Hc. destruct (Hf 0 x) as [y Hy].
    rewrite Hy in Hc. destruct ci as [|ci].
    + injection Hc as <-. exists x. split; [reflexivity|exact Hy].
    + cbn [app lookup list_lookup] in Hc.
      apply (IH (f ∘ S)) in Hc; [exact Hc|].
      intros i z. apply Hf.
Qed.

Lemma corners_length (lines : list str) :
  length (corners lines) = length lines.
Proof.
  induction lines as [|line rest IH]; [reflexivity|].
  destruct rest as [|next rest]; [reflexivity|].
  change (corners (line :: next :: rest))
    with (concat (imap (corner_char (List.hd [] (corners (next :: rest))))
                       line)
          :: corners (next :: rest)).
  cbn [length]. rewrite IH. reflexivity.
Qed.

Lemma corners_connectors (lines : list str) :
  (forall i line below ci c,
     corners lines !! i = Some line ->
     corners lines !! S i = Some below ->
     line !! ci = Some c -> continues_down c = true ->
     below !! ci <> Some 32%N)
  /\ (forall line c,
        last (corners lines) = Some line -> In c line ->
        continues_down c = false).
Proof.
  induction lines as [|line0 rest [IHp IHl]].
  - split; [intros i line below ci c H; discriminate|].
    intros line c H. discriminate.
  - destruct rest as [|next rest].
    + split; [intros i line below ci c _ H; discriminate|].
      intros line c Hlast Hin.
      assert (Hline :
        line = replace [BOX_VR] [BOX_UR] (replace [BOX_V] [32%N] line0)).
      { change (last (corners [line0]))
          with (Some (replace [BOX_VR] [BOX_UR]
                        (replace [BOX_V] [32%N] line0))) in Hlast.
        congruence. }
      subst line. rewrite !replace_char in Hin.
      rewrite List.map_map in Hin. apply in_map_iff in Hin as (x & <- & _).
      unfold continues_down, chr_in, BOX_V, BOX_VR, BOX_UR, chr_eqb.
      cbn [existsb].
      destruct (9474 =? x)%N eqn:E1; [reflexivity|].
      destruct (9500 =? x)%N eqn:E2; [reflexivity|].
      rewrite (N.eqb_sym x 9474), (N.eqb_sym x 9500), E1, E2. reflexivity.
    + change (corners (line0 :: next :: rest))
        with (concat (imap (corner_char
                              (List.hd [] (corners (next :: rest)))) line0)
              :: corners (next :: rest)).
      pose proof (corners_length (next :: rest)) as Hlen.
      destruct (corners (next :: rest)) as [|below0 rest'] eqn:Hrest;
        [discriminate|].
      split.
      * intros i line below ci c Hi HSi Hci Hc.
        destruct i as [|i].
        -- injection Hi as <-. injection HSi as <-.
           cbn [List.hd] in Hci.
           apply concat_imap_single in Hci as (x & _ & Hx).
           2:{ intros j z.
               destruct (corner_char_single below0 j z) as (y & Hy & _).
               exists y. exact Hy. }
           destruct (corner_char_single below0 ci x) as (y & Hy & Hdown).
           rewrite Hy in Hx. injection Hx as ->. apply Hdown, Hc.
        -- apply (IHp i line below ci c Hi HSi Hci Hc).
      * intros line c Hlast Hin. apply (IHl line c); [|exact Hin].
        rewrite last_cons in Hlast.
        destruct (last (below0 :: rest')) eqn:E; [exact Hlast|].
        apply last_None in E. discriminate.
Qed.

(** The connectors of a dependency tree: in the lines [tree] prints for
    a root, no bar and no branch stands above a blank of the next line,
    and the last line holds no bar and no branch. *)
Theorem tree_lines_connectors (root : str) (sub : module_tree) :
  (forall i line below ci c,
     tree_lines root sub !! i = Some line ->
     tree_lines root sub !! S i = Some below ->
     line !! ci = Some c -> continues_down c = true ->
     below !! ci <> Some 32%N)
  /\ (forall line c,
        last (tree_lines root sub) = Some line -> In c line ->
        continues_down c = false).
Proof. unfold tree_lines. apply corners_connectors. Qed.

Lemma tree_lines_connectors_witness :
  let sub := Node [(u "B", Node [(u "D", Node [])]); (u "C", Node [])] in
  tree_lines (u "A") sub
  = [u "  A:"; u "  ├ B"; u "  │ └ D"; u "  └ C"]
  /\ tree_lines (u "A") sub !! 1 = Some (u "  ├ B")
  /\ tree_lines (u "A") sub !! 2 = Some (u "  │ └ D")
  /\ u "  ├ B" !! 2 = Some BOX_VR /\ continues_down BOX_VR = true
  /\ u "  │ └ D" !! 2 <> Some 32%N.
Proof.
  intros sub. split; [vm_compute; reflexivity|].
  split; [vm_compute; reflexivity|]. split; [vm_compute; reflexivity|].
  split; [reflexivity|]. split; [reflexivity|].
  exact (proj1 (tree_lines_connectors (u "A") sub) 1 (u "  ├ B")
           (u "  │ └ D") 2 BOX_VR ltac:(vm_compute; reflexivity)
           ltac:(vm_compute; reflexivity) eq_refl eq_refl).
Defined.

(** ** [rep_ansi], [format] and [translate] *)

Lemma rep_ansi_skip (s : str) :
  forall k, rep_ansi_from k s = rep_ansi_from 0 (drop k s).
Proof.
  induction s as [|c s IH]; intros k.
  - destruct k; reflexivity.
  - destruct k as [|k]; [reflexivity|].
    cbn [rep_ansi_from drop]. apply IH.
Qed.

Lemma stray_free_skip (s : str) :
  forall k, stray_free_from k s = stray_free_from 0 (drop k s).
Proof.
  induction s as [|c s IH]; intros k.
  - destruct k; reflexivity.
  - destruct k as [|k]; [reflexivity|].
    cbn [stray_free_from drop]. apply IH.
Qed.

Lemma find_close_bound (s : str) (k : nat) :
  find_close s = Some k -> k < length s.
Proof.
  revert k. induction s as [|c s IH]; intros k H; [discriminate|].
  cbn [find_close] in H. destruct (chr_eqb c 125).
  - injection H as <-. simpl. lia.
  - destruct (chr_eqb c 10); [discriminate|].
    destruct (find_close s) as [j|]; [|discriminate].
    injection H as <-. specialize (IH j eq_refl). simpl. lia.
Qed.

Lemma match_at_bound (s : str) (n : nat) :
  match_at s = Some n -> 2 <= n <= length s.
Proof.
  destruct s as [|c s]; [discriminate|]. cbn [match_at].
  destruct (if chr_eqb c 123 then find_close s else None) as [k|] eqn:E.
  - intros [= <-]. destruct (chr_eqb c 123); [|discriminate].
    apply find_close_bound in E. simpl. lia.
  - destruct s as [|d s]; [discriminate|].
    destruct (is_marker c d); [|discriminate].
    intros [= <-]. simpl. lia.
Qed.

Lemma format_from_slot (args : list str) (k : nat) (a rest : str) :
  args !! k = Some a ->
  format_from args (num_at k) FText (u "{}" ++ rest)
  = app_ok a (format_from args (NumAuto (S k)) FText rest).
Proof.
  intros Ha. change (u "{}" ++ rest) with (123%N :: 125%N :: rest).
  cbn [format_from chr_eqb N.eqb Pos.eqb].
  rewrite (field_value_auto _ _ _ Ha). reflexivity.
Qed.

Lemma format_from_char (args : list str) (num : numbering) (c : char)
    (rest : str) :
  chr_eqb c 123 = false -> chr_eqb c 125 = false ->
  format_from args num FText (c :: rest)
  = cons_ok c (format_from args num FText rest).
Proof. intros H1 H2. cbn [format_from]. rewrite H1, H2. reflexivity. Qed.

(** Formatting what [rep_ansi] returns, after [done] arguments. *)
Lemma rep_ansi_format (n : nat) :
  forall (s : str) (done : list str),
    length s <= n ->
    stray_free_from 0 s = true ->
    format_from (done ++ snd (rep_ansi_from 0 s)) (num_at (length done))
      FText (fst (rep_ansi_from 0 s))
    = inr s.
Proof.
  induction n as [|n IH]; intros s done Hlen Hfree.
  - destruct s; [reflexivity|simpl in Hlen; lia].
  - destruct s as [|c s']; [reflexivity|].
    cbn [rep_ansi_from]. cbn [stray_free_from] in Hfree.
    destruct (match_at (c :: s')) as [[|m]|] eqn:Hm.
    + apply match_at_bound in Hm. lia.
    + pose proof (match_at_bound _ _ Hm) as Hb. cbn [length] in Hb, Hlen.
      rewrite rep_ansi_skip. rewrite stray_free_skip in Hfree.
      destruct (rep_ansi_from 0 (drop m s')) as [stext matches] eqn:Hrep.
      cbn [fst snd].
      rewrite (format_from_slot _ _ (take (S m) (c :: s'))).
      2:{ rewrite lookup_app_r by lia. rewrite Nat.sub_diag. reflexivity. }
      specialize (IH (drop m s') (done ++ [take (S m) (c :: s')])).
      rewrite Hrep in IH. cbn [fst snd] in IH.
      rewrite <- app_assoc in IH. cbn [app] in IH.
      replace (length (done ++ [take (S m) (c :: s')]))
        with (S (length done)) in IH by (rewrite length_app; simpl; lia).
      change (num_at (S (length done))) with (NumAuto (S (length done)))
        in IH.
      rewrite IH.
      * cbn [app_ok take]. unfold ok. rewrite <- app_comm_cons.
        rewrite take_drop. reflexivity.
      * rewrite length_drop. lia.
      * exact Hfree.
    + apply andb_true_iff in Hfree as [Hc Hfree].
      apply andb_true_iff in Hc as [H1 H2].
      apply negb_true_iff in H1, H2.
      destruct (rep_ansi_from 0 s') as [stext matches] eqn:Hrep.
      cbn [fst snd]. rewrite (format_from_char _ _ _ _ H1 H2).
      specialize (IH s' done). rewrite Hrep in IH. cbn [fst snd] in IH.
      rewrite IH; [reflexivity| |exact Hfree].
      cbn [length] in Hlen. lia.
Qed.

Lemma brace_free_stray_free (n : nat) :
  forall s, length s <= n -> brace_free s = true ->
            stray_free_from 0 s = true.
Proof.
  induction n as [|n IH]; intros s Hlen Hs.
  - destruct s; [reflexivity|simpl in Hlen; lia].
  - destruct s as [|c s']; [reflexivity|].
    cbn [brace_free forallb] in Hs. apply andb_true_iff in Hs as [Hc Hs'].
    cbn [stray_free_from]. cbn [length] in Hlen.
    destruct (match_at (c :: s')) as [[|m]|] eqn:Hm.
    + rewrite Hc. apply IH; [lia|exact Hs'].
    + pose proof (match_at_bound _ _ Hm) as Hb. cbn [length] in Hb.
      rewrite stray_free_skip. apply IH; [rewrite length_drop; lia|].
      unfold brace_free in *. rewrite <- (take_drop m s'), forallb_app in Hs'.
      apply andb_true_iff in Hs'. apply Hs'.
    + rewrite Hc. apply IH; [lia|exact Hs'].
Qed.

(** [rep_ansi] and [str.format] undo each other: when no brace of the
    text is left outside the matches, formatting the text with slots
    with the list of matches gives the text back; a text without braces
    is such a text. *)
Theorem rep_ansi_round_trip (text : str) :
  (stray_free text = true ->
   format (fst (rep_ansi text)) (snd (rep_ansi text)) = inr text)
  /\ (brace_free text = true -> stray_free text = true).
Proof.
  split.
  - intros H. apply (rep_ansi_format (length text) text [] (le_n _) H).
  - intros H. apply (brace_free_stray_free (length text) text (le_n _) H).
Qed.

Lemma rep_ansi_round_trip_witness :
  let text := u "!rTook {} s for {name}!e" in
  stray_free text = true
  /\ rep_ansi text
     = (u "{}Took {} s for {}{}", [u "!r"; u "{}"; u "{name}"; u "!e"])
  /\ format (fst (rep_ansi text)) (snd (rep_ansi text)) = inr text.
Proof.
  intros text. split; [reflexivity|]. split; [vm_compute; reflexivity|].
  exact (proj1 (rep_ansi_round_trip text) eq_refl).
Defined.

(** [translate] keeps the text as it is when the language is English,
    when the translator fails, and when the translator returns the text
    with slots unchanged and no brace of the text is left outside the
    matches. *)
Theorem translate_keeps_text (english : bool)
    (translator : str -> option str) (text : str) :
  english = true
  \/ translator (fst (rep_ansi text)) = None
  \/ (translator (fst (rep_ansi text)) = Some (fst (rep_ansi text))
      /\ stray_free text = true) ->
  Printer_translate english translator text = inr text.
Proof.
  intros H. unfold Printer_translate.
  destruct english; [reflexivity|].
  destruct H as [H|[H|[H Hfree]]]; [discriminate| |].
  - destruct (rep_ansi text) as [ttext reps]. cbn [fst] in H.
    rewrite H. reflexivity.
  - pose proof (rep_ansi_format (length text) text [] (le_n _) Hfree)
      as Hfmt.
    change (format (fst (rep_ansi text)) (snd (rep_ansi text)) = inr text)
      in Hfmt.
    destruct (rep_ansi text) as [ttext reps]. cbn [fst snd] in H, Hfmt.
    rewrite H, Hfmt. reflexivity.
Qed.

Lemma translate_keeps_text_witness :
  stray_free (u "!gdone!e") = true
  /\ Printer_translate false (fun s => Some s) (u "!gdone!e")
     = inr (u "!gdone!e").
Proof.
  split; [reflexivity|].
  exact (translate_keeps_text false (fun s => Some s) (u "!gdone!e")
           (or_intror (or_intror (conj eq_refl eq_refl)))).
Defined.

(** ** Lines without boundaries, and centring without a width *)

Lemma splitlines_from_all_free (s cur : str) :
  no_linebreak cur = true ->
  Forall (fun l => no_linebreak l = true) (splitlines_from cur s).
Proof.
  intros Hcur. apply List.Forall_forall. intros l Hl.
  apply (splitlines_from_free s cur l Hcur Hl).
Qed.

Lemma map_result_in {A B} (f : A -> result B) (l : list A) (ys : list B) :
  map_result f l = inr ys ->
  forall y, In y ys -> exists x, In x l /\ f x = inr y.
Proof.
  revert ys. induction l as [|x l IH]; intros ys H y Hy.
  - injection H as <-. destruct Hy.
  - cbn [map_result] in H.
    destruct (f x) as [e|y0] eqn:Hx; [discriminate|].
    destruct (map_result f l) as [e|ys0]; [discriminate|].
    injection H as <-. destruct Hy as [<-|Hy].
    + exists x. split; [left; reflexivity|exact Hx].
    + destruct (IH ys0 eq_refl y Hy) as (x' & Hin & Hx').
      exists x'. split; [right; exact Hin|exact Hx'].
Qed.

Section Lines.

Variable fill : str -> Z -> bool -> str.
Variable is_integer : Z -> bool.
Variable repr : str -> str.
Variable encodable : str -> bool.

(** No line that [_lines] returns holds a line boundary, whatever the
    text and the options, also after wrapping: [prt] writes one line of
    the terminal for each of them. *)
Theorem lines_no_linebreak (self : Printer) (text : str) (kw : kwargs)
    (tspl : list str) :
  _lines fill is_integer self text kw = inr tspl ->
  Forall (fun l => no_linebreak l = true) tspl.
Proof.
  unfold _lines. destruct (_quiet self).
  { intros [= <-]. constructor. }
  destruct (kw_master_only kw
            && match _pool self with Some m => negb m | None => false end).
  { intros [= <-]. constructor. }
  destruct (if kw_warning kw && kw_prefix kw
            then w ← getitem (_strings self) (u "warning");
                 ok (u "!y" ++ w ++ u ": " ++ text ++ u "!e")
            else ok text) as [e|text1]; [discriminate|].
  cbn [mbind result_bind].
  destruct (if kw_error kw && kw_prefix kw
            then w ← getitem (_strings self) (u "error");
                 ok (u "!r" ++ w ++ u ": " ++ text1 ++ u "!e")
            else ok text1) as [e|text2]; [discriminate|].
  cbn [mbind result_bind]. cbv zeta.
  destruct (kw_wrapped kw).
  - destruct (map_result _ _) as [e|ntspl] eqn:Hm; [discriminate|].
    cbn [mbind result_bind]. intros [= <-].
    apply Forall_concat. apply List.Forall_forall. intros ls Hls.
    destruct (map_result_in _ _ _ Hm ls Hls) as (line & _ & Hline).
    cbv beta in Hline.
    destruct (textwrap_fill _ _ _ _) as [e|filled]; [discriminate|].
    cbn [mbind result_bind] in Hline. injection Hline as <-.
    apply splitlines_from_all_free. reflexivity.
  - intros [= <-]. apply splitlines_from_all_free. reflexivity.
Qed.

(** Centring without a width: when there is a line to write, [prt] and
    [string] raise [TypeError]; [prt] writes no line, but printing in
    place it has by then moved up and cleared once for every line. *)
Theorem prt_center_without_width (self : Printer) (text : str)
    (kw : kwargs) (line : str) (rest : list str) :
  kw_center kw = true -> kw_width kw = None ->
  _lines fill is_integer self text kw = inr (line :: rest) ->
  let inline :=
    kw_inline kw
    && match _fitter self with Some f => negb (_test f) | None => true end in
  prt fill is_integer repr encodable self text kw
  = ((if inline then erase_events (line :: rest) else []), inl TypeError)
  /\ string_ fill is_integer repr self text kw = inl TypeError.
Proof.
  intros Hc Hw Hl inline. split.
  - unfold prt. rewrite Hl, bind_lift_ok. fold inline.
    assert (Hbody : forall rline,
      center_line repr kw line rline = inl TypeError).
    { intros rline. unfold center_line. rewrite Hc, Hw. reflexivity. }
    cbn [for_each]. rewrite Hbody, bind_lift_err.
    assert (Hfirst : forall k : unit -> io unit,
      ((([], inl TypeError) : io unit) ≫= k) = ([], inl TypeError))
      by reflexivity.
    rewrite Hfirst.
    destruct inline.
    + assert (Herase :
        (_ ← (_ ← write (ESC :: u "[F"); write (ESC :: u "[K"));
         for_each rest (fun _ : str =>
           _ ← write (ESC :: u "[F"); write (ESC :: u "[K")))
        = (erase_events (line :: rest), inr tt)).
      { apply (for_each_trace (line :: rest)
                 (fun _ => _ ← write (ESC :: u "[F"); write (ESC :: u "[K"))
                 (fun _ => [Stdout (ESC :: u "[F"); Stdout (ESC :: u "[K")])).
        intros _. reflexivity. }
      rewrite Herase. unfold mbind, io_bind. rewrite app_nil_r.
      reflexivity.
    + rewrite bind_ret. reflexivity.
  - unfold string_. rewrite Hl. cbn [mbind result_bind map_result].
    unfold center_line. rewrite Hc, Hw. reflexivity.
Qed.

End Lines.

Lemma lines_no_linebreak_witness :
  let kw := {|
    kw_colorify := false; kw_center := false; kw_width := None;
    kw_warning := false; kw_error := false; kw_prefix := true;
    kw_color := u "!g"; kw_inline := false; kw_wrap_length := None;
    kw_wrapped := true; kw_master_only := true |} in
  _lines sample_fill sample_is_integer (sample_printer false None)
    (u "a" ++ [13%N; 10%N] ++ u "b") kw
  = inr [u "!ga"; u "b!e"]
  /\ Forall (fun l => no_linebreak l = true) [u "!ga"; u "b!e"].
Proof.
  intros kw. split; [vm_compute; reflexivity|].
  exact (lines_no_linebreak sample_fill sample_is_integer
           (sample_printer false None) (u "a" ++ [13%N; 10%N] ++ u "b") kw
           [u "!ga"; u "b!e"] ltac:(vm_compute; reflexivity)).
Defined.

Lemma prt_center_without_width_witness :
  kw_center kw_center_only = true /\ kw_width kw_center_only = None
  /\ _lines sample_fill sample_is_integer (sample_printer false None)
       (u "title") kw_center_only = inr [u "title"]
  /\ prt sample_fill sample_is_integer sample_repr sample_encodable
       (sample_printer false None) (u "title") kw_center_only
     = ([Stdout (ESC :: u "[F"); Stdout (ESC :: u "[K")], inl TypeError)
  /\ string_ sample_fill sample_is_integer sample_repr
       (sample_printer false None) (u "title") kw_center_only
     = inl TypeError.
Proof.
  split; [reflexivity|]. split; [reflexivity|]. split; [reflexivity|].
  exact (prt_center_without_width sample_fill sample_is_integer sample_repr
           sample_encodable (sample_printer false None) (u "title")
           kw_center_only (u "title") [] eq_refl eq_refl eq_refl).
Defined.
